(** * Dispatch system: trip lifecycle, commission and reconciliation

    A shallow embedding of the logic of the dispatcher dashboard:
    - the relational schema and the three PL/pgSQL triggers of [db_schema.md];
    - the row types of [src/types/database.ts];
    - the dashboard handlers of [src/app/dashboard/page.tsx]
      ([ADVANCE_CONFIG], [handleAdvanceStatus], [MatchmakingModal.handleConfirm],
      [handleConfirmAssignment]) and [NewTripModal.handleSubmit];
    - the reconciliation page ([groupByDriver], [fetchData], [handleSettle]).

    Modelling conventions.
    - An SQL [numeric] is an exact rational [Q]: the store computes and
      compares amounts exactly.
    - A JS [number] that a page computes (the commission previewed and
      shown on a card, the totals of a statement and of the header) is a
      binary64 number, a primitive [float]; additions, multiplications,
      subtractions and comparisons on the pages are those of IEEE 754.
    - An amount a page receives (typed in the fare field, or sent by the
      store as a JSON decimal) is written as the rational it denotes;
      [binary64] gives the JS number it becomes (the nearest binary64
      number, ties to even, as [parseFloat] and [JSON.parse] do), and
      [number_value] the rational a finite JS number equals.  The rows of
      the reconciliation page, on which it computes, hold JS numbers; the
      cards of the dashboard hold the rationals, the one number the page
      computes for a card being written as the rational it equals.
    - [uuid] and text columns are strings; [timestamptz] is an integer instant.
    - A table is the list of its rows; [SELECT .. WHERE] is [filter],
      [UPDATE .. WHERE] rewrites the matching rows in place and runs the row
      triggers, [INSERT] appends.
    - Every call to the store may fail: each call takes a [fault], the error
      the store reports for it ([None] when the call succeeds).  A failed
      call leaves the database as it was (one SQL statement is atomic). *)

From Stdlib Require Import List String Ascii Bool ZArith QArith Lia.
From Stdlib Require Import Permutation Sorted Floats.
Import ListNotations.

Local Open Scope string_scope.
Local Open Scope list_scope.

(* ================================================================== *)
(** * Row types ([src/types/database.ts], [db_schema.md]) *)
(* ================================================================== *)

Definition uuid := string.
Definition numeric := Q.
Definition timestamptz := Z.

(** [export type TripStatus = 'Pending' | 'Confirmed' | 'In Progress' | 'Completed'] *)
Inductive TripStatus : Set :=
| Pending
| Confirmed
| InProgress
| Completed.

Definition status_text (s : TripStatus) : string :=
  match s with
  | Pending => "Pending"
  | Confirmed => "Confirmed"
  | InProgress => "In Progress"
  | Completed => "Completed"
  end.

Definition TripStatus_eqb (a b : TripStatus) : bool :=
  match a, b with
  | Pending, Pending | Confirmed, Confirmed
  | InProgress, InProgress | Completed, Completed => true
  | _, _ => false
  end.

(** The dashboard's column order, [STATUSES]. *)
Definition STATUSES : list TripStatus := [Pending; Confirmed; InProgress; Completed].

Module Customer.
Record t : Type := mk {
  id : uuid;
  full_name : string;
  phone_number : string;
  business_type : option string;
  created_at : timestamptz;
  updated_at : timestamptz
}.
End Customer.

Module Driver.
Record t : Type := mk {
  id : uuid;
  full_name : string;
  phone_number : string;
  vehicle_type : string;
  registration_number : string;
  sacco_affiliation : option string;
  reliability_score : Z;
  created_at : timestamptz;
  updated_at : timestamptz
}.
End Driver.

Module Trip.
Record t : Type := mk {
  id : uuid;
  customer_id : uuid;
  driver_id : option uuid;
  load_description : string;
  pickup_location : string;
  dropoff_location : string;
  pickup_time : timestamptz;
  agreed_fare : option numeric;
  platform_commission : option numeric;
  status : TripStatus;
  customer_verified_amount : option numeric;
  driver_verified_amount : option numeric;
  commission_paid : bool;
  commission_settled : bool;
  created_at : timestamptz;
  updated_at : timestamptz
}.

Definition set_platform_commission (v : option numeric) (r : t) : t :=
  mk (id r) (customer_id r) (driver_id r) (load_description r)
     (pickup_location r) (dropoff_location r) (pickup_time r)
     (agreed_fare r) v (status r)
     (customer_verified_amount r) (driver_verified_amount r)
     (commission_paid r) (commission_settled r)
     (created_at r) (updated_at r).
End Trip.

(** A partial trip: the [SET] list of an SQL [UPDATE], the object handed to
    supabase's [.update(..)], or the fields overridden after a JS spread
    [{...t, f: v}].  [None] means the column is not mentioned; for a nullable
    column [Some None] writes [NULL]. *)
Module Patch.
Record t : Type := mk {
  customer_id : option uuid;
  driver_id : option (option uuid);
  load_description : option string;
  pickup_location : option string;
  dropoff_location : option string;
  pickup_time : option timestamptz;
  agreed_fare : option (option numeric);
  platform_commission : option (option numeric);
  status : option TripStatus;
  customer_verified_amount : option (option numeric);
  driver_verified_amount : option (option numeric);
  commission_paid : option bool;
  commission_settled : option bool;
  created_at : option timestamptz;
  updated_at : option timestamptz
}.

Definition or_old {A} (new : option A) (old : A) : A :=
  match new with Some v => v | None => old end.

(** The row after the assignments of the patch; the primary key is kept. *)
Definition apply (p : t) (r : Trip.t) : Trip.t :=
  Trip.mk (Trip.id r)
    (or_old (customer_id p) (Trip.customer_id r))
    (or_old (driver_id p) (Trip.driver_id r))
    (or_old (load_description p) (Trip.load_description r))
    (or_old (pickup_location p) (Trip.pickup_location r))
    (or_old (dropoff_location p) (Trip.dropoff_location r))
    (or_old (pickup_time p) (Trip.pickup_time r))
    (or_old (agreed_fare p) (Trip.agreed_fare r))
    (or_old (platform_commission p) (Trip.platform_commission r))
    (or_old (status p) (Trip.status r))
    (or_old (customer_verified_amount p) (Trip.customer_verified_amount r))
    (or_old (driver_verified_amount p) (Trip.driver_verified_amount r))
    (or_old (commission_paid p) (Trip.commission_paid r))
    (or_old (commission_settled p) (Trip.commission_settled r))
    (or_old (created_at p) (Trip.created_at r))
    (or_old (updated_at p) (Trip.updated_at r)).

Definition mentions {A} (c : option A) : bool :=
  match c with Some _ => true | None => false end.
End Patch.

(** [jsonb] values, as far as [jsonb_build_object] builds them here: an
    object whose fields hold numbers or text. *)
Inductive json_scalar : Type :=
| JNumber (q : numeric)
| JString (s : string).

Definition jsonb : Type := list (string * json_scalar).

Module AuditLog.
(** [audit_logs]; the generated [id] and [created_at] are left out. *)
Record t : Type := mk {
  table_name : string;
  record_id : uuid;
  action : string;
  old_data : option jsonb;
  new_data : option jsonb;
  message : option string
}.
End AuditLog.

Record database : Type := mkDatabase {
  customers : list Customer.t;
  drivers : list Driver.t;
  trips : list Trip.t;
  audit_logs : list AuditLog.t
}.

(* ================================================================== *)
(** * Triggers ([db_schema.md]) *)
(* ================================================================== *)

(** The platform rate, [0.12]. *)
Definition COMMISSION_RATE : numeric := 12 # 100.

(** [calculate_trip_commission()]: a [BEFORE] row trigger; it assigns
    [NEW.platform_commission] and returns [NEW], the row that is stored. *)
Definition calculate_trip_commission (NEW : Trip.t) : Trip.t :=
  match Trip.agreed_fare NEW with
  | Some agreed_fare =>
      Trip.set_platform_commission (Some (agreed_fare * COMMISSION_RATE)%Q) NEW
  | None =>
      Trip.set_platform_commission None NEW
  end.

(** The contract of the commission engine, in the words of the
    specification: [null] for a [null] fare, else the fare times the rate. *)
Definition deriveCommission (agreedFare : option numeric) : option numeric :=
  option_map (fun f => (f * (12 # 100))%Q) agreedFare.

(** SQL [a IS DISTINCT FROM b] on nullable numerics. *)
Definition is_distinct_from (a b : option numeric) : bool :=
  match a, b with
  | None, None => false
  | Some x, Some y => negb (Qeq_bool x y)
  | _, _ => true
  end.

Definition VERIFICATION_MISMATCH : string := "VERIFICATION_MISMATCH".
Definition VERIFICATION_MATCH : string := "VERIFICATION_MATCH".
Definition STATUS_UPDATE : string := "STATUS_UPDATE".

Definition mismatch_message : string :=
  "Discrepancy detected! Customer and driver reported different amounts.".
Definition match_message : string :=
  "Amounts verified successfully by both parties.".

(** [verify_trip_amounts()]: an [AFTER] row trigger; what it inserts into
    [audit_logs].  Its return value is ignored by the database. *)
Definition verify_trip_amounts (OLD NEW : Trip.t) : list AuditLog.t :=
  match Trip.customer_verified_amount NEW, Trip.driver_verified_amount NEW with
  | Some c, Some d =>
      if is_distinct_from (Trip.customer_verified_amount NEW)
                          (Trip.customer_verified_amount OLD)
         || is_distinct_from (Trip.driver_verified_amount NEW)
                             (Trip.driver_verified_amount OLD)
      then
        if negb (Qeq_bool c d)
        then [ AuditLog.mk "trips" (Trip.id NEW) VERIFICATION_MISMATCH None
                 (Some [("customer_amount", JNumber c);
                        ("driver_amount", JNumber d)])
                 (Some mismatch_message) ]
        else [ AuditLog.mk "trips" (Trip.id NEW) VERIFICATION_MATCH None None
                 (Some match_message) ]
      else []
  | _, _ => []
  end.

(** [log_trip_status_change()]: an [AFTER] row trigger. *)
Definition log_trip_status_change (OLD NEW : Trip.t) : list AuditLog.t :=
  if negb (TripStatus_eqb (Trip.status NEW) (Trip.status OLD))
  then [ AuditLog.mk "trips" (Trip.id NEW) STATUS_UPDATE
           (Some [("status", JString (status_text (Trip.status OLD)))])
           (Some [("status", JString (status_text (Trip.status NEW)))])
           (Some ("Trip status changed from " ++ status_text (Trip.status OLD)
                  ++ " to " ++ status_text (Trip.status NEW))%string) ]
  else [].

(** ** Trigger declarations

    - [set_trip_commission] [BEFORE INSERT OR UPDATE OF agreed_fare];
    - [check_verification_amounts]
      [AFTER UPDATE OF customer_verified_amount, driver_verified_amount];
    - [track_trip_status] [AFTER UPDATE OF status].

    [UPDATE OF c] fires when the statement's [SET] list mentions [c].
    [AFTER] row triggers of one row fire in the order of their names. *)

Definition fires_set_trip_commission (p : Patch.t) : bool :=
  Patch.mentions (Patch.agreed_fare p).

Definition fires_check_verification_amounts (p : Patch.t) : bool :=
  Patch.mentions (Patch.customer_verified_amount p)
  || Patch.mentions (Patch.driver_verified_amount p).

Definition fires_track_trip_status (p : Patch.t) : bool :=
  Patch.mentions (Patch.status p).

(** The row stored for an inserted trip. *)
Definition insert_row (NEW : Trip.t) : Trip.t :=
  calculate_trip_commission NEW.

(** The row stored by an update of [OLD] with the [SET] list [p]. *)
Definition stored_row (p : Patch.t) (OLD : Trip.t) : Trip.t :=
  let NEW := Patch.apply p OLD in
  if fires_set_trip_commission p then calculate_trip_commission NEW else NEW.

(** What [check_verification_amounts] appends for this row. *)
Definition verification_events (p : Patch.t) (OLD : Trip.t) : list AuditLog.t :=
  if fires_check_verification_amounts p
  then verify_trip_amounts OLD (stored_row p OLD) else [].

(** What [track_trip_status] appends for this row. *)
Definition status_events (p : Patch.t) (OLD : Trip.t) : list AuditLog.t :=
  if fires_track_trip_status p
  then log_trip_status_change OLD (stored_row p OLD) else [].

(** One row of an [UPDATE]: the stored row and the audit rows it causes. *)
Definition update_row (p : Patch.t) (OLD : Trip.t) : Trip.t * list AuditLog.t :=
  (stored_row p OLD, verification_events p OLD ++ status_events p OLD).

(** [UPDATE trips SET p WHERE cond]: the new table and the audit rows. *)
Fixpoint update_rows (cond : Trip.t -> bool) (p : Patch.t) (rows : list Trip.t)
  : list Trip.t * list AuditLog.t :=
  match rows with
  | [] => ([], [])
  | r :: rest =>
      let (rest', logs') := update_rows cond p rest in
      if cond r
      then let (r', logs) := update_row p r in (r' :: rest', logs ++ logs')
      else (r :: rest', logs')
  end.

(* ================================================================== *)
(** * The store (the supabase client, seen from the pages) *)
(* ================================================================== *)

(** [{ data, error }]: what a call to the store resolves to. *)
Inductive response (A : Type) : Type :=
| Data (data : A)
| Error (message : string).
Arguments Data {A} data.
Arguments Error {A} message.

(** The error a call meets, if any. *)
Definition fault := option string.

(** [supabase.from('trips').update(p).<filter>]. *)
Definition trips_update (f : fault) (cond : Trip.t -> bool) (p : Patch.t)
    (db : database) : response unit * database :=
  match f with
  | Some message => (Error message, db)
  | None =>
      let (rows, logs) := update_rows cond p (trips db) in
      (Data tt,
       mkDatabase (customers db) (drivers db) rows (audit_logs db ++ logs))
  end.

(** [.eq('id', x)] and [.in('id', xs)]. *)
Definition eq_id (x : uuid) (r : Trip.t) : bool := String.eqb (Trip.id r) x.

Definition in_id (xs : list uuid) (r : Trip.t) : bool :=
  existsb (String.eqb (Trip.id r)) xs.

(** The embedded resources [customer:customers( * )] and [driver:drivers( * )]
    of a select: the rows the foreign keys point to. *)
Definition customer_of (db : database) (r : Trip.t) : option Customer.t :=
  find (fun c => String.eqb (Customer.id c) (Trip.customer_id r)) (customers db).

Definition driver_of (db : database) (r : Trip.t) : option Driver.t :=
  match Trip.driver_id r with
  | Some d => find (fun x => String.eqb (Driver.id x) d) (drivers db)
  | None => None
  end.

(** [interface TripWithRelations extends Trip { customer; driver }]. *)
Record TripWithRelations : Type := mkTripWithRelations {
  row : Trip.t;
  customer : option Customer.t;
  driver : option Driver.t
}.

Definition with_relations (db : database) (r : Trip.t) : TripWithRelations :=
  mkTripWithRelations r (customer_of db r) (driver_of db r).

(** A stable sort, ordering by [leb]; it stands for both [ORDER BY] and
    [Array.prototype.sort]. *)
Section Sort.
Context {A : Type} (leb : A -> A -> bool).

Fixpoint insert_sorted (x : A) (l : list A) : list A :=
  match l with
  | [] => [x]
  | y :: l' => if leb x y then x :: l else y :: insert_sorted x l'
  end.

Fixpoint stable_sort (l : list A) : list A :=
  match l with
  | [] => []
  | x :: l' => insert_sorted x (stable_sort l')
  end.
End Sort.

(** [.order(key, { ascending: true })] on a timestamp column; rows with equal
    keys, whose order the database leaves open, keep the order of the table. *)
Definition order_by_asc {A} (key : A -> timestamptz) (rows : list A) : list A :=
  stable_sort (fun a b => (key a <=? key b)%Z) rows.

(** [arr.sort(cmp)], a stable sort: [a] stays before [b] unless
    [cmp(a, b) > 0]; a [NaN] from the comparator counts as [0].  (For a
    comparator that is not consistent on the elements the order is left to
    the engine.) *)
Definition Array_sort {A} (cmp : A -> A -> float) (arr : list A) : list A :=
  stable_sort (fun a b => negb (0 <? cmp a b)%float) arr.

(** How an [async] handler ends: it returns, or it throws. *)
Inductive settled : Type :=
| Resolved
| Rejected (message : string).

(** A JS [number] where the code may meet [NaN]: the result of [parseFloat]
    on the value of the fare field, a number input, which is empty or
    a finite decimal.  [Num q] is the number typed as the decimal [q]: the
    binary64 number [binary64 q], which the store receives back as [q].
    (This holds for the decimals that [JSON.stringify] returns unchanged:
    those of up to 15 significant digits within the range of binary64;
    longer or out-of-range fares are outside the model.) *)
Inductive number : Type :=
| NaN
| Num (q : Q).

Definition isNaN (n : number) : bool :=
  match n with NaN => true | Num _ => false end.

(** [n > 0]; false for [NaN]. *)
Definition gt_zero (n : number) : bool :=
  match n with
  | NaN => false
  | Num q => negb (Qle_bool q 0)
  end.

(** The JS number a decimal becomes: the binary64 number nearest to [q],
    ties to even; an infinity beyond the range.  ([SFdiv] is the correctly
    rounded quotient of the two integers.) *)
Definition binary64 (q : Q) : float :=
  match Qnum q with
  | Z0 => 0%float
  | Zpos n =>
      SF2Prim (SFdiv prec emax (S754_finite false n 0)
                 (S754_finite false (Qden q) 0))
  | Zneg n =>
      SF2Prim (SFdiv prec emax (S754_finite true n 0)
                 (S754_finite false (Qden q) 0))
  end.

(** The rational a finite JS number equals, in lowest terms; none for [NaN]
    and the infinities. *)
Definition number_value (x : float) : option Q :=
  match Prim2SF x with
  | S754_zero _ => Some 0
  | S754_finite s m (Zpos e) =>
      Some (inject_Z (cond_Zopp s (Zpos (m * 2 ^ e))))
  | S754_finite s m Z0 => Some (inject_Z (cond_Zopp s (Zpos m)))
  | S754_finite s m (Zneg e) =>
      Some (Qred (Qmake (cond_Zopp s (Zpos m)) (2 ^ e)))
  | S754_infinity _ | S754_nan => None
  end.

(** The literal [0.12] of the pages: the binary64 number nearest to 12/100. *)
Definition twelve_percent : float := 0x1.eb851eb851eb8p-4.

(** A string is truthy when it is not empty. *)
Definition truthy (s : string) : bool :=
  match s with EmptyString => false | String _ _ => true end.

(** [String.prototype.trim], for strings of one-byte code units: white space
    and line terminators are TAB, LF, VT, FF, CR, SPACE and NBSP. *)
Definition is_white_space (c : ascii) : bool :=
  let n := nat_of_ascii c in
  ((9 <=? n) && (n <=? 13) || (n =? 32) || (n =? 160))%nat.

Fixpoint trim_start (s : string) : string :=
  match s with
  | EmptyString => EmptyString
  | String c s' => if is_white_space c then trim_start s' else s
  end.

Fixpoint trim_end (s : string) : string :=
  match s with
  | EmptyString => EmptyString
  | String c s' =>
      match trim_end s' with
      | EmptyString => if is_white_space c then EmptyString else String c EmptyString
      | t => String c t
      end
  end.

Definition trim (s : string) : string := trim_end (trim_start s).

(* ================================================================== *)
(** * The dashboard page ([src/app/dashboard/page.tsx]) *)
(* ================================================================== *)

(** [interface AvailableDriver extends Driver { corridors: string[] }]. *)
Record AvailableDriver : Type := mkAvailableDriver {
  base : Driver.t;
  corridors : list string
}.

Module AdvanceConfig.
Record t : Type := mk {
  label : string;
  next : TripStatus;
  cls : string;
  activeCls : string
}.
End AdvanceConfig.

(** [ADVANCE_CONFIG]: a partial record, with entries for [Confirmed] and
    ['In Progress'] only. *)
Definition ADVANCE_CONFIG (s : TripStatus) : option AdvanceConfig.t :=
  match s with
  | Confirmed =>
      Some (AdvanceConfig.mk "Mark In Progress" InProgress
        "border border-indigo-200 text-indigo-600 hover:bg-indigo-50 hover:border-indigo-300"
        "border border-indigo-300 bg-indigo-50 text-indigo-600")
  | InProgress =>
      Some (AdvanceConfig.mk "Mark Completed" Completed
        "border border-green-200 text-green-600 hover:bg-green-50 hover:border-green-300"
        "border border-green-300 bg-green-50 text-green-600")
  | Pending | Completed => None
  end.

Module Dashboard.
(** The state of [DashboardPage]. *)
Record state : Type := mk {
  trips : list TripWithRelations;
  drivers : list AvailableDriver;
  loading : bool;
  fetchError : option string;
  selectedTrip : option TripWithRelations;
  showNewTripModal : bool;
  toast : option string
}.

Definition set_trips (v : list TripWithRelations) (s : state) : state :=
  mk v (drivers s) (loading s) (fetchError s) (selectedTrip s)
     (showNewTripModal s) (toast s).

Definition set_selectedTrip (v : option TripWithRelations) (s : state) : state :=
  mk (trips s) (drivers s) (loading s) (fetchError s) v
     (showNewTripModal s) (toast s).

Definition set_showNewTripModal (v : bool) (s : state) : state :=
  mk (trips s) (drivers s) (loading s) (fetchError s) (selectedTrip s)
     v (toast s).

Definition showToast (message : string) (s : state) : state :=
  mk (trips s) (drivers s) (loading s) (fetchError s) (selectedTrip s)
     (showNewTripModal s) (Some message).

(** [prev.map((t) => t.id === id ? { ...t, <fields> } : t)]. *)
Definition map_trip (id : uuid) (f : TripWithRelations -> TripWithRelations)
    (prev : list TripWithRelations) : list TripWithRelations :=
  map (fun t => if String.eqb (Trip.id (row t)) id then f t else t) prev.

(** [tripsByStatus[status]]. *)
Definition tripsByStatus (s : state) (status : TripStatus)
  : list TripWithRelations :=
  filter (fun t => TripStatus_eqb (Trip.status (row t)) status) (trips s).

(** [onCardClick]: only the cards of the Pending column open the
    matchmaking modal. *)
Definition onCardClick (column : TripStatus) (trip : TripWithRelations)
    (s : state) : state :=
  match column with
  | Pending => set_selectedTrip (Some trip) s
  | _ => s
  end.

(** [handleTripCreated]. *)
Definition handleTripCreated (newTrip : TripWithRelations) (s : state) : state :=
  showToast "Trip logged successfully"
    (set_showNewTripModal false (set_trips (newTrip :: trips s) s)).

(** The object passed to [.update] by [handleConfirmAssignment]. *)
Definition assignment_update (driver : AvailableDriver) (agreedFare : Q)
  : Patch.t :=
  {| Patch.customer_id := None;
     Patch.driver_id := Some (Some (Driver.id (base driver)));
     Patch.load_description := None; Patch.pickup_location := None;
     Patch.dropoff_location := None; Patch.pickup_time := None;
     Patch.agreed_fare := Some (Some agreedFare);
     Patch.platform_commission := None;
     Patch.status := Some Confirmed;
     Patch.customer_verified_amount := None;
     Patch.driver_verified_amount := None;
     Patch.commission_paid := None; Patch.commission_settled := None;
     Patch.created_at := None; Patch.updated_at := None |}.

(** The optimistic update of the card by [handleConfirmAssignment]. *)
Definition assignment_optimistic (now : timestamptz) (driver : AvailableDriver)
    (agreedFare : Q) (t : TripWithRelations) : TripWithRelations :=
  mkTripWithRelations
    (Patch.apply
       {| Patch.customer_id := None;
          Patch.driver_id := Some (Some (Driver.id (base driver)));
          Patch.load_description := None; Patch.pickup_location := None;
          Patch.dropoff_location := None; Patch.pickup_time := None;
          Patch.agreed_fare := Some (Some agreedFare);
          Patch.platform_commission :=
            Some (number_value (binary64 agreedFare * twelve_percent)%float);
          Patch.status := Some Confirmed;
          Patch.customer_verified_amount := None;
          Patch.driver_verified_amount := None;
          Patch.commission_paid := None; Patch.commission_settled := None;
          Patch.created_at := None; Patch.updated_at := Some now |}
       (row t))
    (customer t)
    (Some (base driver)).

(** [handleConfirmAssignment(driver, agreedFare)]; [now] is
    [new Date().toISOString()]. *)
Definition handleConfirmAssignment (f : fault) (now : timestamptz)
    (driver : AvailableDriver) (agreedFare : Q)
    (s : state) (db : database) : settled * state * database :=
  match selectedTrip s with
  | None => (Resolved, s, db)
  | Some sel =>
      match trips_update f (eq_id (Trip.id (row sel)))
              (assignment_update driver agreedFare) db with
      | (Error message, db') => (Rejected message, s, db')
      | (Data _, db') =>
          (Resolved,
           set_selectedTrip None
             (set_trips
                (map_trip (Trip.id (row sel))
                   (assignment_optimistic now driver agreedFare) (trips s))
                s),
           db')
      end
  end.

(** The object passed to [.update] by [handleAdvanceStatus]. *)
Definition status_update (next : TripStatus) : Patch.t :=
  {| Patch.customer_id := None; Patch.driver_id := None;
     Patch.load_description := None; Patch.pickup_location := None;
     Patch.dropoff_location := None; Patch.pickup_time := None;
     Patch.agreed_fare := None; Patch.platform_commission := None;
     Patch.status := Some next;
     Patch.customer_verified_amount := None;
     Patch.driver_verified_amount := None;
     Patch.commission_paid := None; Patch.commission_settled := None;
     Patch.created_at := None; Patch.updated_at := None |}.

Definition advance_optimistic (now : timestamptz) (next : TripStatus)
    (t : TripWithRelations) : TripWithRelations :=
  mkTripWithRelations
    (Patch.apply
       {| Patch.customer_id := None; Patch.driver_id := None;
          Patch.load_description := None; Patch.pickup_location := None;
          Patch.dropoff_location := None; Patch.pickup_time := None;
          Patch.agreed_fare := None; Patch.platform_commission := None;
          Patch.status := Some next;
          Patch.customer_verified_amount := None;
          Patch.driver_verified_amount := None;
          Patch.commission_paid := None; Patch.commission_settled := None;
          Patch.created_at := None; Patch.updated_at := Some now |}
       (row t))
    (customer t) (driver t).

(** [handleAdvanceStatus(trip)]. *)
Definition handleAdvanceStatus (f : fault) (now : timestamptz)
    (trip : TripWithRelations) (s : state) (db : database)
  : settled * state * database :=
  match ADVANCE_CONFIG (Trip.status (row trip)) with
  | None => (Resolved, s, db)
  | Some cfg =>
      match trips_update f (eq_id (Trip.id (row trip)))
              (status_update (AdvanceConfig.next cfg)) db with
      | (Error message, db') => (Rejected message, s, db')
      | (Data _, db') =>
          (Resolved,
           set_trips
             (map_trip (Trip.id (row trip))
                (advance_optimistic now (AdvanceConfig.next cfg)) (trips s))
             s,
           db')
      end
  end.
End Dashboard.

Module MatchmakingModal.
(** The state of the modal; [parsedFare] is [parseFloat(fareInput)]. *)
Record state : Type := mk {
  selectedDriverId : string;
  parsedFare : number;
  submitting : bool;
  submitError : option string
}.

(** [drivers.find((d) => d.id === selectedDriverId) ?? null]. *)
Definition selectedDriver (drivers : list AvailableDriver) (m : state)
  : option AvailableDriver :=
  find (fun d => String.eqb (Driver.id (base d)) (selectedDriverId m)) drivers.

(** The commission previewed in the modal: [parsedFare * 0.12]. *)
Definition commission (m : state) : option float :=
  match parsedFare m with
  | Num q => if negb (isNaN (parsedFare m)) && gt_zero (parsedFare m)
             then Some (binary64 q * twelve_percent)%float else None
  | NaN => None
  end.

Definition canConfirm (drivers : list AvailableDriver) (m : state) : bool :=
  match selectedDriver drivers m with
  | Some _ => negb (isNaN (parsedFare m)) && gt_zero (parsedFare m)
  | None => false
  end.

(** [handleConfirm()], with [onConfirm = handleConfirmAssignment]. *)
Definition handleConfirm (f : fault) (now : timestamptz) (m : state)
    (s : Dashboard.state) (db : database)
  : state * Dashboard.state * database :=
  match selectedDriver (Dashboard.drivers s) m, parsedFare m with
  | Some d, Num fare =>
      if canConfirm (Dashboard.drivers s) m
      then
        match Dashboard.handleConfirmAssignment f now d fare s db with
        | (Resolved, s', db') =>
            (mk (selectedDriverId m) (parsedFare m) true None, s', db')
        | (Rejected message, s', db') =>
            (mk (selectedDriverId m) (parsedFare m) false (Some message), s', db')
        end
      else (m, s, db)
  | _, _ => (m, s, db)
  end.
End MatchmakingModal.

(* ================================================================== *)
(** * The new-trip modal ([NewTripModal.handleSubmit]) *)
(* ================================================================== *)

(** A computation over the database that may throw: the body of a [try]
    block whose awaited calls each yield [{ data, error }]. *)
Definition Store (A : Type) : Type := database -> response A * database.

Definition ret {A} (a : A) : Store A := fun db => (Data a, db).

Definition throw {A} (message : string) : Store A := fun db => (Error message, db).

Definition bind {A B} (c : Store A) (k : A -> Store B) : Store B :=
  fun db =>
    match c db with
    | (Data a, db') => k a db'
    | (Error message, db') => (Error message, db')
    end.

Notation "x <- c ;; k" := (bind c (fun x => k))
  (at level 61, c at next level, right associativity).

(** [.from('customers').select('id').eq('phone_number', phone).limit(1)]. *)
Definition customers_select_id (f : fault) (phone : string) : Store (list uuid) :=
  fun db =>
    match f with
    | Some message => (Error message, db)
    | None =>
        (Data (firstn 1
                 (map Customer.id
                    (filter (fun c => String.eqb (Customer.phone_number c) phone)
                       (customers db)))),
         db)
    end.

(** [.from('customers').insert({ full_name, phone_number, business_type })
    .select('id').single()]; [id] and [now] are the defaults
    [gen_random_uuid()] and [now()]. *)
Definition customers_insert (f : fault) (id : uuid) (now : timestamptz)
    (full_name phone_number : string) (business_type : option string)
  : Store uuid :=
  fun db =>
    match f with
    | Some message => (Error message, db)
    | None =>
        (Data id,
         mkDatabase
           (customers db
              ++ [Customer.mk id full_name phone_number business_type now now])
           (drivers db) (trips db) (audit_logs db))
    end.

(** The object passed to [.from('trips').insert(..)]. *)
Module TripInsert.
Record t : Type := mk {
  customer_id : uuid;
  load_description : string;
  pickup_location : string;
  dropoff_location : string;
  pickup_time : timestamptz;
  status : TripStatus;
  driver_id : option uuid;
  agreed_fare : option numeric;
  commission_paid : bool
}.

(** The proposed row: the columns left out take their defaults
    ([NULL], [false], [gen_random_uuid()], [now()]). *)
Definition proposed (id : uuid) (now : timestamptz) (v : t) : Trip.t :=
  Trip.mk id (customer_id v) (driver_id v) (load_description v)
    (pickup_location v) (dropoff_location v) (pickup_time v)
    (agreed_fare v) None (status v) None None (commission_paid v) false
    now now.
End TripInsert.

(** [.from('trips').insert(v)
    .select('*, customer:customers( * ), driver:drivers( * )').single()]. *)
Definition trips_insert (f : fault) (id : uuid) (now : timestamptz)
    (v : TripInsert.t) : Store TripWithRelations :=
  fun db =>
    match f with
    | Some message => (Error message, db)
    | None =>
        let r := insert_row (TripInsert.proposed id now v) in
        let db' := mkDatabase (customers db) (drivers db) (trips db ++ [r])
                     (audit_logs db) in
        (Data (with_relations db' r), db')
    end.

Module NewTripModal.
(** The fields and flags of the modal. *)
Record state : Type := mk {
  fullName : string;
  phoneNumber : string;
  businessType : string;
  loadDescription : string;
  pickupLocation : string;
  dropoffLocation : string;
  pickupTime : string;
  submitting : bool;
  submitError : option string
}.

Definition set_submit (b : bool) (e : option string) (m : state) : state :=
  mk (fullName m) (phoneNumber m) (businessType m) (loadDescription m)
     (pickupLocation m) (dropoffLocation m) (pickupTime m) b e.

Definition canSubmit (m : state) : bool :=
  truthy (trim (fullName m))
  && truthy (trim (phoneNumber m))
  && truthy (trim (loadDescription m))
  && truthy (trim (pickupLocation m))
  && truthy (trim (dropoffLocation m))
  && truthy (pickupTime m).

(** What the environment answers during one submission: the faults of the
    three calls, the generated keys, the clock, and
    [new Date(s).toISOString()] ([None] when the date is invalid and
    [toISOString] throws a [RangeError]). *)
Record env : Type := mkEnv {
  lookup_fault : fault;
  insert_customer_fault : fault;
  insert_trip_fault : fault;
  new_customer_id : uuid;
  new_trip_id : uuid;
  now : timestamptz;
  toISOString : string -> option timestamptz
}.

(** [businessType.trim() || null]. *)
Definition business_type_or_null (m : state) : option string :=
  if truthy (trim (businessType m)) then Some (trim (businessType m)) else None.

(** The body of the [try] block, up to the trip handed to [onTripCreated]. *)
Definition submit (e : env) (m : state) : Store TripWithRelations :=
  existing <- customers_select_id (lookup_fault e) (trim (phoneNumber m)) ;;
  customerId <-
    match existing with
    | id :: _ => ret id
    | [] =>
        customers_insert (insert_customer_fault e) (new_customer_id e) (now e)
          (trim (fullName m)) (trim (phoneNumber m)) (business_type_or_null m)
    end ;;
  pickup <-
    match toISOString e (pickupTime m) with
    | Some t => ret t
    | None => throw "Invalid time value"
    end ;;
  trips_insert (insert_trip_fault e) (new_trip_id e) (now e)
    (TripInsert.mk customerId (trim (loadDescription m))
       (trim (pickupLocation m)) (trim (dropoffLocation m)) pickup
       Pending None None false).

(** [handleSubmit(e)], with [onTripCreated = handleTripCreated]. *)
Definition handleSubmit (e : env) (m : state) (s : Dashboard.state)
    (db : database) : state * Dashboard.state * database :=
  if negb (canSubmit m) || submitting m then (m, s, db)
  else
    match submit e m db with
    | (Data newTrip, db') =>
        (set_submit true None m, Dashboard.handleTripCreated newTrip s, db')
    | (Error message, db') =>
        (set_submit false (Some message) m, s, db')
    end.
End NewTripModal.

(* ================================================================== *)
(** * The reconciliation page ([groupByDriver], [fetchData], [handleSettle]) *)
(* ================================================================== *)

Module DriverRef.
(** The embedded [driver:drivers(id, full_name, phone_number)]. *)
Record t : Type := mk {
  id : uuid;
  full_name : string;
  phone_number : string
}.
End DriverRef.

Module UnsettledTrip.
(** [interface UnsettledTrip]; [driver_id] may be [null] in the data. *)
Record t : Type := mk {
  id : uuid;
  driver_id : option uuid;
  load_description : string;
  pickup_location : string;
  dropoff_location : string;
  pickup_time : timestamptz;
  agreed_fare : option float;
  platform_commission : option float;
  driver : option DriverRef.t
}.
End UnsettledTrip.

Module DriverStatement.
Record t : Type := mk {
  driver : DriverRef.t;
  trips : list UnsettledTrip.t;
  totalFare : float;
  totalCommission : float
}.
End DriverStatement.

(** [a ?? b]. *)
Definition nullish {A} (a : option A) (b : A) : A :=
  match a with Some v => v | None => b end.

(** [Map<string, DriverStatement>]: the entries in insertion order. *)
Definition StatementMap : Type := list (string * DriverStatement.t).

Definition Map_has (key : string) (m : StatementMap) : bool :=
  existsb (fun kv => String.eqb (fst kv) key) m.

Definition Map_get (key : string) (m : StatementMap) : option DriverStatement.t :=
  option_map snd (find (fun kv => String.eqb (fst kv) key) m).

(** [map.set(key, v)]: a present key keeps its place, a new one goes last. *)
Fixpoint Map_set (key : string) (v : DriverStatement.t) (m : StatementMap)
  : StatementMap :=
  match m with
  | [] => [(key, v)]
  | (k, w) :: m' =>
      if String.eqb k key then (k, v) :: m' else (k, w) :: Map_set key v m'
  end.

Definition Map_values (m : StatementMap) : list DriverStatement.t := map snd m.

(** The fare and the commission one trip adds to its statement. *)
Definition fare_of (trip : UnsettledTrip.t) : float :=
  nullish (UnsettledTrip.agreed_fare trip) 0%float.

Definition commission_of (trip : UnsettledTrip.t) : float :=
  nullish (UnsettledTrip.platform_commission trip)
          (nullish (UnsettledTrip.agreed_fare trip) 0 * twelve_percent)%float.

(** [statement.trips.push(trip); statement.totalFare += ..;
    statement.totalCommission += ..]. *)
Definition add_trip (trip : UnsettledTrip.t) (statement : DriverStatement.t)
  : DriverStatement.t :=
  DriverStatement.mk
    (DriverStatement.driver statement)
    (DriverStatement.trips statement ++ [trip])
    (DriverStatement.totalFare statement + fare_of trip)%float
    (DriverStatement.totalCommission statement + commission_of trip)%float.

(** One iteration of the loop of [groupByDriver].  The statement object is
    shared with the map, so its mutation is written back under its key. *)
Definition groupByDriver_step (m : StatementMap) (trip : UnsettledTrip.t)
  : StatementMap :=
  match UnsettledTrip.driver_id trip, UnsettledTrip.driver trip with
  | Some driverId, Some driver =>
      if negb (truthy driverId) then m
      else
        let m1 :=
          if negb (Map_has driverId m)
          then Map_set driverId (DriverStatement.mk driver [] 0%float 0%float) m
          else m in
        match Map_get driverId m1 with
        | Some statement => Map_set driverId (add_trip trip statement) m1
        | None => m1
        end
  | _, _ => m
  end.

Definition groupByDriver (trips : list UnsettledTrip.t) : list DriverStatement.t :=
  Array_sort
    (fun a b =>
       (DriverStatement.totalCommission b
        - DriverStatement.totalCommission a)%float)
    (Map_values (fold_left groupByDriver_step trips [])).

Module Reconciliation.
(** The state of [ReconciliationPage]. *)
Record state : Type := mk {
  statements : list DriverStatement.t;
  loading : bool;
  fetchError : option string;
  toast : option string
}.

Definition showToast (message : string) (s : state) : state :=
  mk (statements s) (loading s) (fetchError s) (Some message).

Definition to_ref (d : Driver.t) : DriverRef.t :=
  DriverRef.mk (Driver.id d) (Driver.full_name d) (Driver.phone_number d).

(** A selected row with its embedded driver, as the page receives it: the
    amounts are the JS numbers their decimals parse to. *)
Definition to_unsettled (db : database) (r : Trip.t) : UnsettledTrip.t :=
  UnsettledTrip.mk (Trip.id r) (Trip.driver_id r) (Trip.load_description r)
    (Trip.pickup_location r) (Trip.dropoff_location r) (Trip.pickup_time r)
    (option_map binary64 (Trip.agreed_fare r))
    (option_map binary64 (Trip.platform_commission r))
    (option_map to_ref (driver_of db r)).

(** [.eq('status', 'Completed').eq('commission_settled', false)]. *)
Definition unsettled_completed (r : Trip.t) : bool :=
  TripStatus_eqb (Trip.status r) Completed
  && Bool.eqb (Trip.commission_settled r) false.

(** The query of [fetchData]. *)
Definition select_unsettled (db : database) : list UnsettledTrip.t :=
  map (to_unsettled db)
    (order_by_asc Trip.created_at (filter unsettled_completed (trips db))).

(** [fetchData()]. *)
Definition fetchData (f : fault) (db : database) (s : state) : state :=
  match f with
  | Some message => mk (statements s) false (Some message) (toast s)
  | None => mk (groupByDriver (select_unsettled db)) false None (toast s)
  end.

(** The object passed to [.update] by [handleSettle]. *)
Definition settle_update : Patch.t :=
  {| Patch.customer_id := None; Patch.driver_id := None;
     Patch.load_description := None; Patch.pickup_location := None;
     Patch.dropoff_location := None; Patch.pickup_time := None;
     Patch.agreed_fare := None; Patch.platform_commission := None;
     Patch.status := None;
     Patch.customer_verified_amount := None;
     Patch.driver_verified_amount := None;
     Patch.commission_paid := None; Patch.commission_settled := Some true;
     Patch.created_at := None; Patch.updated_at := None |}.

(** [handleSettle(driverId, tripIds)]. *)
Definition handleSettle (f : fault) (driverId : string) (tripIds : list uuid)
    (s : state) (db : database) : settled * state * database :=
  match trips_update f (in_id tripIds) settle_update db with
  | (Error message, db') =>
      (Rejected message,
       showToast "Error settling balance. Please try again." s, db')
  | (Data _, db') =>
      (Resolved,
       showToast "Balance settled successfully"
         (mk (filter (fun st => negb (String.eqb
                                        (DriverRef.id (DriverStatement.driver st))
                                        driverId))
                (statements s))
             (loading s) (fetchError s) (toast s)),
       db')
  end.

(** [DriverCard.handleSettle()]: settle the statement as displayed. *)
Definition DriverCard_handleSettle (f : fault) (statement : DriverStatement.t)
    (s : state) (db : database) : settled * state * database :=
  handleSettle f (DriverRef.id (DriverStatement.driver statement))
    (map UnsettledTrip.id (DriverStatement.trips statement)) s db.
End Reconciliation.

(* ================================================================== *)
(** * Specification-side notions *)
(* ================================================================== *)

(** The one-step successor in the order
    Pending, Confirmed, In Progress, Completed. *)
Definition successor (s : TripStatus) : option TripStatus :=
  match s with
  | Pending => Some Confirmed
  | Confirmed => Some InProgress
  | InProgress => Some Completed
  | Completed => None
  end.

(** The commission of a row is the one derived from its fare. *)
Definition commission_derived (r : Trip.t) : Prop :=
  Trip.platform_commission r = deriveCommission (Trip.agreed_fare r).

(** Two nullable amounts are the same value (not [IS DISTINCT FROM]). *)
Definition same_amount (a b : option numeric) : Prop :=
  match a, b with
  | None, None => True
  | Some x, Some y => (x == y)%Q
  | _, _ => False
  end.

(** The audit rows written by the verification safeguard. *)
Definition is_verification_event (e : AuditLog.t) : bool :=
  String.eqb (AuditLog.action e) VERIFICATION_MISMATCH
  || String.eqb (AuditLog.action e) VERIFICATION_MATCH.

Definition mismatch_event (id : uuid) (c d : numeric) : AuditLog.t :=
  AuditLog.mk "trips" id "VERIFICATION_MISMATCH" None
    (Some [("customer_amount", JNumber c); ("driver_amount", JNumber d)])
    (Some "Discrepancy detected! Customer and driver reported different amounts.").

Definition match_event (id : uuid) : AuditLog.t :=
  AuditLog.mk "trips" id "VERIFICATION_MATCH" None None
    (Some "Amounts verified successfully by both parties.").

(** The customer named by a phone number: the first row of the table with
    that number (the column is [UNIQUE], so the only one). *)
Definition customer_by_phone (phone : string) (db : database)
  : option Customer.t :=
  find (fun c => String.eqb (Customer.phone_number c) phone) (customers db).

(** The customer row that [handleSubmit] inserts for a new phone number. *)
Definition new_customer (e : NewTripModal.env) (m : NewTripModal.state)
  : Customer.t :=
  Customer.mk (NewTripModal.new_customer_id e)
    (trim (NewTripModal.fullName m)) (trim (NewTripModal.phoneNumber m))
    (NewTripModal.business_type_or_null m)
    (NewTripModal.now e) (NewTripModal.now e).

(** The trip row that [handleSubmit] stores for customer [cid]. *)
Definition new_trip (e : NewTripModal.env) (m : NewTripModal.state)
    (cid : uuid) (pickup : timestamptz) : Trip.t :=
  Trip.mk (NewTripModal.new_trip_id e) cid None
    (trim (NewTripModal.loadDescription m))
    (trim (NewTripModal.pickupLocation m))
    (trim (NewTripModal.dropoffLocation m))
    pickup None None Pending None None false false
    (NewTripModal.now e) (NewTripModal.now e).

(** The third step fails: the date is invalid, or the store refuses the trip. *)
Definition trip_step_fails (e : NewTripModal.env) (m : NewTripModal.state)
    (message : string) : Prop :=
  (NewTripModal.toISOString e (NewTripModal.pickupTime m) = None
   /\ message = "Invalid time value")
  \/ (exists pickup,
        NewTripModal.toISOString e (NewTripModal.pickupTime m) = Some pickup
        /\ NewTripModal.insert_trip_fault e = Some message).

(** What one run of the [try] block of [handleSubmit] does to the store. *)
Inductive submitted (e : NewTripModal.env) (m : NewTripModal.state)
    (db : database) : response TripWithRelations -> database -> Prop :=
| submitted_returning c pickup db' :
    NewTripModal.lookup_fault e = None ->
    customer_by_phone (trim (NewTripModal.phoneNumber m)) db = Some c ->
    NewTripModal.toISOString e (NewTripModal.pickupTime m) = Some pickup ->
    NewTripModal.insert_trip_fault e = None ->
    db' = mkDatabase (customers db) (drivers db)
            (trips db ++ [new_trip e m (Customer.id c) pickup]) (audit_logs db) ->
    submitted e m db
      (Data (with_relations db' (new_trip e m (Customer.id c) pickup))) db'
| submitted_new pickup db' :
    NewTripModal.lookup_fault e = None ->
    customer_by_phone (trim (NewTripModal.phoneNumber m)) db = None ->
    NewTripModal.insert_customer_fault e = None ->
    NewTripModal.toISOString e (NewTripModal.pickupTime m) = Some pickup ->
    NewTripModal.insert_trip_fault e = None ->
    db' = mkDatabase (customers db ++ [new_customer e m]) (drivers db)
            (trips db ++ [new_trip e m (NewTripModal.new_customer_id e) pickup])
            (audit_logs db) ->
    submitted e m db
      (Data (with_relations db'
               (new_trip e m (NewTripModal.new_customer_id e) pickup))) db'
| submitted_failed_before message :
    NewTripModal.lookup_fault e = Some message
    \/ (NewTripModal.lookup_fault e = None
        /\ customer_by_phone (trim (NewTripModal.phoneNumber m)) db = None
        /\ NewTripModal.insert_customer_fault e = Some message)
    \/ (NewTripModal.lookup_fault e = None
        /\ customer_by_phone (trim (NewTripModal.phoneNumber m)) db <> None
        /\ trip_step_fails e m message) ->
    submitted e m db (Error message) db
| submitted_failed_after message :
    NewTripModal.lookup_fault e = None ->
    customer_by_phone (trim (NewTripModal.phoneNumber m)) db = None ->
    NewTripModal.insert_customer_fault e = None ->
    trip_step_fails e m message ->
    submitted e m db (Error message)
      (mkDatabase (customers db ++ [new_customer e m]) (drivers db)
         (trips db) (audit_logs db)).

(** The guard of the loop: [!trip.driver_id || !trip.driver] is false. *)
Definition eligible (t : UnsettledTrip.t) : bool :=
  match UnsettledTrip.driver_id t, UnsettledTrip.driver t with
  | Some k, Some _ => truthy k
  | _, _ => false
  end.

(** The trips grouped under the driver id [k]. *)
Definition in_group (k : string) (t : UnsettledTrip.t) : bool :=
  eligible t
  && match UnsettledTrip.driver_id t with
     | Some k' => String.eqb k' k
     | None => false
     end.

(** A sum of JS numbers, accumulated from [0] in the order of the trips:
    each addition is a binary64 addition. *)
Definition sum_by (f : UnsettledTrip.t -> float) (l : list UnsettledTrip.t)
  : float :=
  fold_left (fun acc t => (acc + f t)%float) l 0%float.

(** [agreed_fare], with [null] as [0]. *)
Definition fare_or_zero (t : UnsettledTrip.t) : float :=
  match UnsettledTrip.agreed_fare t with Some f => f | None => 0%float end.

(** [platform_commission], or [(agreed_fare or 0) * 0.12] when it is [null]. *)
Definition commission_or_fallback (t : UnsettledTrip.t) : float :=
  match UnsettledTrip.platform_commission t with
  | Some c => c
  | None => (fare_or_zero t * twelve_percent)%float
  end.

(** A JS number that is not [NaN] and not below zero ([-0] included). *)
Definition not_negative (x : float) : bool :=
  negb (PrimFloat.is_nan x) && negb (x <? 0)%float.

(** The amounts of a trip, where it has them, are such numbers. *)
Definition amounts_not_negative (t : UnsettledTrip.t) : Prop :=
  (forall f, UnsettledTrip.agreed_fare t = Some f -> not_negative f = true)
  /\ (forall c, UnsettledTrip.platform_commission t = Some c ->
                not_negative c = true).

(** The place of a binary64 number other than [NaN] on the number line, in
    units of [2^-1074], the least positive binary64 number: an integer. *)
Definition ord (x : spec_float) : Z :=
  match x with
  | S754_zero _ => 0%Z
  | S754_nan => 0%Z
  | S754_infinity s => cond_Zopp s (2 ^ 2098)%Z
  | S754_finite s m e => cond_Zopp s (Zpos m * 2 ^ (e + 1074))%Z
  end.

Definition rank (x : float) : Z := ord (Prim2SF x).

(** A valid binary64 number other than [NaN]. *)
Definition is_number (x : spec_float) : Prop :=
  x <> S754_nan /\ valid_binary x = true.

(** The statement of a group of trips: the driver embedded in its first
    trip, the trips, and their totals. *)
Definition statement_of (ts : list UnsettledTrip.t) : option DriverStatement.t :=
  match ts with
  | [] => None
  | t :: _ =>
      match UnsettledTrip.driver t with
      | Some d =>
          Some (DriverStatement.mk d ts (sum_by fare_or_zero ts)
                  (sum_by commission_or_fallback ts))
      | None => None
      end
  end.

(** The map built by the loop agrees, key by key, with the groups of the
    trips seen so far. *)
Definition groups_of (seen : list UnsettledTrip.t) (m : StatementMap) : Prop :=
  NoDup (map fst m)
  /\ forall k, Map_get k m = statement_of (filter (in_group k) seen).

(** [r] with another status, everything else as it was. *)
Definition with_status (v : TripStatus) (r : Trip.t) : Trip.t :=
  Trip.mk (Trip.id r) (Trip.customer_id r) (Trip.driver_id r)
    (Trip.load_description r) (Trip.pickup_location r) (Trip.dropoff_location r)
    (Trip.pickup_time r) (Trip.agreed_fare r) (Trip.platform_commission r)
    v
    (Trip.customer_verified_amount r) (Trip.driver_verified_amount r)
    (Trip.commission_paid r) (Trip.commission_settled r)
    (Trip.created_at r) (Trip.updated_at r).

(** [r] assigned to a driver at a fare: status Confirmed, the driver, the
    fare, and the commission [fare * 0.12]; everything else as it was. *)
Definition assigned_row (driverId : uuid) (fare : Q) (r : Trip.t) : Trip.t :=
  Trip.mk (Trip.id r) (Trip.customer_id r) (Some driverId)
    (Trip.load_description r) (Trip.pickup_location r) (Trip.dropoff_location r)
    (Trip.pickup_time r) (Some fare) (Some (fare * (12 # 100))%Q)
    Confirmed
    (Trip.customer_verified_amount r) (Trip.driver_verified_amount r)
    (Trip.commission_paid r) (Trip.commission_settled r)
    (Trip.created_at r) (Trip.updated_at r).

(** The row an assigned card shows: as [assigned_row], but with the
    commission computed by the page, the binary64 product [fare * 0.12]. *)
Definition shown_assigned_row (driverId : uuid) (fare : Q) (r : Trip.t)
  : Trip.t :=
  Trip.mk (Trip.id r) (Trip.customer_id r) (Some driverId)
    (Trip.load_description r) (Trip.pickup_location r) (Trip.dropoff_location r)
    (Trip.pickup_time r) (Some fare)
    (number_value (binary64 fare * twelve_percent)%float)
    Confirmed
    (Trip.customer_verified_amount r) (Trip.driver_verified_amount r)
    (Trip.commission_paid r) (Trip.commission_settled r)
    (Trip.created_at r) (Trip.updated_at r).

(** [r] with [commission_settled = true], everything else as it was. *)
Definition settled_row (r : Trip.t) : Trip.t :=
  Trip.mk (Trip.id r) (Trip.customer_id r) (Trip.driver_id r)
    (Trip.load_description r) (Trip.pickup_location r) (Trip.dropoff_location r)
    (Trip.pickup_time r) (Trip.agreed_fare r) (Trip.platform_commission r)
    (Trip.status r)
    (Trip.customer_verified_amount r) (Trip.driver_verified_amount r)
    (Trip.commission_paid r) true
    (Trip.created_at r) (Trip.updated_at r).

(** [r] with [updated_at] set by the page. *)
Definition touched (now : timestamptz) (r : Trip.t) : Trip.t :=
  Trip.mk (Trip.id r) (Trip.customer_id r) (Trip.driver_id r)
    (Trip.load_description r) (Trip.pickup_location r) (Trip.dropoff_location r)
    (Trip.pickup_time r) (Trip.agreed_fare r) (Trip.platform_commission r)
    (Trip.status r)
    (Trip.customer_verified_amount r) (Trip.driver_verified_amount r)
    (Trip.commission_paid r) (Trip.commission_settled r)
    (Trip.created_at r) now.

(** The database after a successful settle of [tripIds]. *)
Definition settled_db (tripIds : list uuid) (db : database) : database :=
  mkDatabase (customers db) (drivers db)
    (map (fun r => if in_id tripIds r then settled_row r else r) (trips db))
    (audit_logs db).

(* ================================================================== *)
(** * Concrete data for the worked examples *)
(* ================================================================== *)

(** The worked example: two trips of driver A (fares 10000 and 5000) and one
    of driver B (fare 20000); [stored] tells whether the rows carry the
    commission stored by the trigger or [null]. *)
Definition driver_A : DriverRef.t := DriverRef.mk "A" "Driver A" "0700000001".

Definition driver_B : DriverRef.t := DriverRef.mk "B" "Driver B" "0700000002".

Definition example_trip (stored : bool) (id : uuid) (d : DriverRef.t) (fare : Q)
  : UnsettledTrip.t :=
  UnsettledTrip.mk id (Some (DriverRef.id d)) "cargo" "pickup" "dropoff" 0%Z
    (Some (binary64 fare))
    (if stored then Some (binary64 (fare * COMMISSION_RATE)) else None)
    (Some d).

Definition example_trips (stored : bool) : list UnsettledTrip.t :=
  [ example_trip stored "trip1" driver_A 10000;
    example_trip stored "trip2" driver_A 5000;
    example_trip stored "trip3" driver_B 20000 ].

(** A small store and dashboard: one customer, one driver, one Pending trip. *)
Definition example_customer : Customer.t :=
  Customer.mk "c1" "Jane Doe" "0711000000" None 0%Z 0%Z.

Definition example_driver : Driver.t :=
  Driver.mk "d1" "John Roe" "0722000000" "Lorry" "KAA 001A" None 100%Z 0%Z 0%Z.

Definition pending_trip : Trip.t :=
  Trip.mk "t1" "c1" None "Cement" "Nairobi" "Nakuru" 10%Z None None Pending
    None None false false 0%Z 0%Z.

Definition example_db : database :=
  mkDatabase [example_customer] [example_driver] [pending_trip] [].

Definition pending_card : TripWithRelations :=
  with_relations example_db pending_trip.

Definition example_page : Dashboard.state :=
  Dashboard.mk [pending_card] [mkAvailableDriver example_driver ["Nakuru"]]
    false None None false None.

(** An update that writes both a fare and a commission of its own. *)
Definition fare_and_commission_update : Patch.t :=
  {| Patch.customer_id := None; Patch.driver_id := None;
     Patch.load_description := None; Patch.pickup_location := None;
     Patch.dropoff_location := None; Patch.pickup_time := None;
     Patch.agreed_fare := Some (Some 1000);
     Patch.platform_commission := Some (Some 5);
     Patch.status := None;
     Patch.customer_verified_amount := None;
     Patch.driver_verified_amount := None;
     Patch.commission_paid := None; Patch.commission_settled := None;
     Patch.created_at := None; Patch.updated_at := None |}.

(** A completed trip whose driver reported 100, and the update by which the
    customer reports 90. *)
Definition completed_trip (id : uuid) (settled : bool) : Trip.t :=
  Trip.mk id "c1" (Some "d1") "Cement" "Nairobi" "Nakuru" 10%Z
    (Some 10000) (Some 1200) Completed None (Some 100) false settled 0%Z 0%Z.

Definition customer_reports_90 : Patch.t :=
  {| Patch.customer_id := None; Patch.driver_id := None;
     Patch.load_description := None; Patch.pickup_location := None;
     Patch.dropoff_location := None; Patch.pickup_time := None;
     Patch.agreed_fare := None; Patch.platform_commission := None;
     Patch.status := None;
     Patch.customer_verified_amount := Some (Some 90);
     Patch.driver_verified_amount := None;
     Patch.commission_paid := None; Patch.commission_settled := None;
     Patch.created_at := None; Patch.updated_at := None |}.

(** A confirmed trip on the dashboard. *)
Definition confirmed_trip : Trip.t :=
  Trip.mk "t2" "c1" (Some "d1") "Maize" "Eldoret" "Kisumu" 20%Z
    (Some 8000) (Some 960) Confirmed None None false false 0%Z 0%Z.

Definition confirmed_db : database :=
  mkDatabase [example_customer] [example_driver] [pending_trip; confirmed_trip] [].

Definition confirmed_card : TripWithRelations :=
  with_relations confirmed_db confirmed_trip.

Definition confirmed_page : Dashboard.state :=
  Dashboard.mk [pending_card; confirmed_card]
    [mkAvailableDriver example_driver ["Nakuru"]] false None None false None.

(** The matchmaking modal with driver [d1] selected and a typed fare. *)
Definition modal_with_fare (fare : number) : MatchmakingModal.state :=
  MatchmakingModal.mk "d1" fare false None.

(** Two completed, unsettled trips of driver [d1]. *)
Definition unsettled_db : database :=
  mkDatabase [example_customer] [example_driver]
    [completed_trip "t3" false; completed_trip "t4" false] [].

Definition empty_reconciliation : Reconciliation.state :=
  Reconciliation.mk [] false None None.

(** A form for the phone number of [example_customer], under another name. *)
Definition returning_form : NewTripModal.state :=
  NewTripModal.mk "  J. Doe " " 0711000000 " "Hardware" "Steel bars"
    "Thika" "Mombasa " "2025-01-01T08:00" false None.

Definition working_env : NewTripModal.env :=
  NewTripModal.mkEnv None None None "c2" "t5" 50%Z (fun _ => Some 60%Z).

(* ================================================================== *)
(** * More of the pages *)
(* ================================================================== *)

(** ** The dashboard: cards and their actions ([KanbanColumn], [TripCard]) *)

(** The [onAdvance] prop of a column: [handleAdvanceStatus] for the
    Confirmed and In Progress columns, [undefined] for the others. *)
Definition column_onAdvance (column : TripStatus) : bool :=
  match column with
  | Confirmed | InProgress => true
  | _ => false
  end.

(** The [onCardClick] prop of a column: [setSelectedTrip] for Pending only. *)
Definition column_onCardClick (column : TripStatus) : bool :=
  match column with
  | Pending => true
  | _ => false
  end.

(** [advanceCfg && onAdvance]: the card of [trip], in [column], shows the
    advance button. *)
Definition advance_button (column : TripStatus) (trip : TripWithRelations)
  : bool :=
  match ADVANCE_CONFIG (Trip.status (row trip)) with
  | Some _ => column_onAdvance column
  | None => false
  end.

(** ** The dashboard: [fetchData] *)

Module Corridor.
Record t : Type := mk {
  id : uuid;
  name : string;
  created_at : timestamptz;
  updated_at : timestamptz
}.
End Corridor.

Module DriverCorridor.
Record t : Type := mk {
  driver_id : uuid;
  corridor_id : uuid;
  created_at : timestamptz;
  updated_at : timestamptz
}.
End DriverCorridor.

(** The tables [corridors] and [driver_corridors], beside [database]. *)
Record corridor_tables : Type := mkCorridorTables {
  corridors_table : list Corridor.t;
  driver_corridors_table : list DriverCorridor.t
}.

(** A row of [.from('drivers').select('*, driver_corridors(corridor:corridors(name))')]:
    the driver and, for each of its rows of [driver_corridors], the embedded
    [corridor] with its [name] ([None] when the corridor is not found). *)
Record DriverWithCorridors : Type := mkDriverWithCorridors {
  driver_row : Driver.t;
  driver_corridors : option (list (option string))
}.

(** [.order(key, { ascending: false })] on an integer column. *)
Definition order_by_desc {A} (key : A -> Z) (rows : list A) : list A :=
  stable_sort (fun a b => (key b <=? key a)%Z) rows.

Definition corridor_name (ct : corridor_tables) (dc : DriverCorridor.t)
  : option string :=
  option_map Corridor.name
    (find (fun c => String.eqb (Corridor.id c) (DriverCorridor.corridor_id dc))
       (corridors_table ct)).

Definition embed_corridors (ct : corridor_tables) (d : Driver.t)
  : DriverWithCorridors :=
  mkDriverWithCorridors d
    (Some (map (corridor_name ct)
             (filter (fun dc =>
                        String.eqb (DriverCorridor.driver_id dc) (Driver.id d))
                (driver_corridors_table ct)))).

(** The two queries of the dashboard's [fetchData]. *)
Definition trips_select_all (f : fault) (db : database)
  : response (list TripWithRelations) :=
  match f with
  | Some message => Error message
  | None => Data (map (with_relations db) (order_by_asc Trip.pickup_time (trips db)))
  end.

Definition drivers_select_all (f : fault) (ct : corridor_tables) (db : database)
  : response (list DriverWithCorridors) :=
  match f with
  | Some message => Error message
  | None =>
      Data (map (embed_corridors ct)
              (order_by_desc Driver.reliability_score (drivers db)))
  end.

(** [(d.driver_corridors ?? []).map((dc) => dc.corridor?.name).filter(Boolean)]:
    a missing corridor gives [undefined], dropped like an empty name. *)
Definition flatten_corridors (d : DriverWithCorridors) : list string :=
  flat_map (fun name =>
              match name with
              | Some n => if truthy n then [n] else []
              | None => []
              end)
    (nullish (driver_corridors d) []).

(** [fetchData()] of [DashboardPage]. *)
Definition Dashboard_fetchData (trips_fault drivers_fault : fault)
    (ct : corridor_tables) (db : database) (s : Dashboard.state)
  : Dashboard.state :=
  match trips_select_all trips_fault db,
        drivers_select_all drivers_fault ct db with
  | Data tripsData, Data driversData =>
      Dashboard.mk tripsData
        (map (fun d => mkAvailableDriver (driver_row d) (flatten_corridors d))
           driversData)
        false None
        (Dashboard.selectedTrip s) (Dashboard.showNewTripModal s)
        (Dashboard.toast s)
  | Error message, _ | Data _, Error message =>
      Dashboard.mk (Dashboard.trips s) (Dashboard.drivers s) false (Some message)
        (Dashboard.selectedTrip s) (Dashboard.showNewTripModal s)
        (Dashboard.toast s)
  end.

(** ** The reconciliation page: the totals of the header *)

(** [statements.reduce((sum, s) => sum + s.totalCommission, 0)]. *)
Definition totalCommission (statements : list DriverStatement.t) : float :=
  fold_left (fun sum s => (sum + DriverStatement.totalCommission s)%float)
    statements 0%float.

(** [statements.reduce((sum, s) => sum + s.trips.length, 0)]. *)
Definition totalTrips (statements : list DriverStatement.t) : nat :=
  fold_left (fun sum s => (sum + List.length (DriverStatement.trips s))%nat)
    statements 0%nat.

(** ** The tracking page ([TripTrackingPage], [StatusTimeline]) *)

Definition STATUS_ORDER : list TripStatus :=
  [Pending; Confirmed; InProgress; Completed].

Definition STATUS_LABELS (s : TripStatus) : string :=
  match s with
  | Pending => "Finding Driver"
  | Confirmed => "Driver Assigned"
  | InProgress => "On The Road"
  | Completed => "Delivered"
  end.

Definition STATUS_DESCRIPTIONS (s : TripStatus) : string :=
  match s with
  | Pending => "We are matching your load with the best available truck."
  | Confirmed =>
      "A driver has been assigned and will collect your load at the scheduled time."
  | InProgress => "Your load is currently in transit."
  | Completed => "Your load has been delivered successfully."
  end.

(** [arr.indexOf(x)]: the first index of [x], or [-1]. *)
Fixpoint indexOf (x : TripStatus) (arr : list TripStatus) : Z :=
  match arr with
  | [] => (-1)%Z
  | y :: arr' =>
      if TripStatus_eqb y x then 0%Z
      else let i := indexOf x arr' in
           if (i <? 0)%Z then (-1)%Z else (i + 1)%Z
  end.

(** [arr.map((x, index) => f x index)], counting from [i]. *)
Fixpoint map_indexed {A B} (f : A -> Z -> B) (i : Z) (arr : list A) : list B :=
  match arr with
  | [] => []
  | x :: arr' => f x i :: map_indexed f (i + 1)%Z arr'
  end.

Module TimelineStep.
(** What one step of the timeline renders from: its three flags, whether
    it has a connector line below, its label, and the description shown
    under the current step only. *)
Record t : Type := mk {
  status : TripStatus;
  isCompleted : bool;
  isCurrent : bool;
  isUpcoming : bool;
  connector : bool;
  label : string;
  description : option string
}.
End TimelineStep.

(** [StatusTimeline({ currentStatus })]. *)
Definition StatusTimeline (currentStatus : TripStatus) : list TimelineStep.t :=
  let currentIndex := indexOf currentStatus STATUS_ORDER in
  map_indexed
    (fun status index =>
       let isCurrent := (index =? currentIndex)%Z in
       TimelineStep.mk status
         (index <? currentIndex)%Z
         isCurrent
         (currentIndex <? index)%Z
         (index <? Z.of_nat (List.length STATUS_ORDER) - 1)%Z
         (STATUS_LABELS status)
         (if isCurrent then Some (STATUS_DESCRIPTIONS status) else None))
    0%Z STATUS_ORDER.

Module TripForTracking.
(** [interface TripForTracking]; [driver] holds [full_name] and
    [phone_number]. *)
Record t : Type := mk {
  id : uuid;
  load_description : string;
  pickup_location : string;
  dropoff_location : string;
  pickup_time : timestamptz;
  status : TripStatus;
  agreed_fare : option numeric;
  driver : option (string * string)
}.
End TripForTracking.

(** [.from('trips').select(..).eq('id', id).single()]: the data is the row
    when exactly one row matches, else [null] (as when the call fails). *)
Definition trips_select_single (f : fault) (id : uuid) (db : database)
  : option TripForTracking.t :=
  match f with
  | Some _ => None
  | None =>
      match filter (eq_id id) (trips db) with
      | [r] =>
          Some (TripForTracking.mk (Trip.id r) (Trip.load_description r)
                  (Trip.pickup_location r) (Trip.dropoff_location r)
                  (Trip.pickup_time r) (Trip.status r) (Trip.agreed_fare r)
                  (option_map
                     (fun d => (Driver.full_name d, Driver.phone_number d))
                     (driver_of db r)))
      | _ => None
      end
  end.

(** What [TripTrackingPage] renders: [<NotFound />], or the trip with its
    status badge, its timeline, and the driver section, which shows the
    driver's name and phone when [hasDriver && trip.driver]. *)
Inductive TrackingView : Type :=
| NotFound
| Tracking (trip : TripForTracking.t) (badge : string)
    (timeline : list TimelineStep.t) (driverShown : option (string * string)).

Definition TripTrackingPage (f : fault) (id : uuid) (db : database)
  : TrackingView :=
  match trips_select_single f id db with
  | None => NotFound
  | Some trip =>
      let hasDriver :=
        match TripForTracking.driver trip with
        | Some _ => negb (TripStatus_eqb (TripForTracking.status trip) Pending)
        | None => false
        end in
      Tracking trip (STATUS_LABELS (TripForTracking.status trip))
        (StatusTimeline (TripForTracking.status trip))
        (if hasDriver then TripForTracking.driver trip else None)
  end.

(* ================================================================== *)
(** * Notions for the further properties *)
(* ================================================================== *)

(** The audit rows written by the status trigger. *)
Definition is_status_event (e : AuditLog.t) : bool :=
  String.eqb (AuditLog.action e) STATUS_UPDATE.

Definition status_event (id : uuid) (old new : TripStatus) : AuditLog.t :=
  AuditLog.mk "trips" id "STATUS_UPDATE"
    (Some [("status", JString (status_text old))])
    (Some [("status", JString (status_text new))])
    (Some ("Trip status changed from " ++ status_text old ++ " to "
           ++ status_text new)%string).

(** The columns no page action writes: two rows describe the same booking. *)
Definition same_booking (r r' : Trip.t) : Prop :=
  Trip.id r' = Trip.id r
  /\ Trip.customer_id r' = Trip.customer_id r
  /\ Trip.load_description r' = Trip.load_description r
  /\ Trip.pickup_location r' = Trip.pickup_location r
  /\ Trip.dropoff_location r' = Trip.dropoff_location r
  /\ Trip.pickup_time r' = Trip.pickup_time r
  /\ Trip.customer_verified_amount r' = Trip.customer_verified_amount r
  /\ Trip.driver_verified_amount r' = Trip.driver_verified_amount r
  /\ Trip.commission_paid r' = Trip.commission_paid r
  /\ Trip.created_at r' = Trip.created_at r.

(** A [SET] list that mentions none of those columns. *)
Definition keeps_booking (p : Patch.t) : bool :=
  negb (Patch.mentions (Patch.customer_id p)
        || Patch.mentions (Patch.load_description p)
        || Patch.mentions (Patch.pickup_location p)
        || Patch.mentions (Patch.dropoff_location p)
        || Patch.mentions (Patch.pickup_time p)
        || Patch.mentions (Patch.customer_verified_amount p)
        || Patch.mentions (Patch.driver_verified_amount p)
        || Patch.mentions (Patch.commission_paid p)
        || Patch.mentions (Patch.created_at p)).

(** The card of a trip after the optimistic update of an assignment. *)
Definition assigned_card (now : timestamptz) (d : AvailableDriver) (fare : Q)
    (t : TripWithRelations) : TripWithRelations :=
  mkTripWithRelations
    (touched now (shown_assigned_row (Driver.id (base d)) fare (row t)))
    (customer t) (Some (base d)).

(** The card of a trip after the optimistic update of an advance. *)
Definition advanced_card (now : timestamptz) (next : TripStatus)
    (t : TripWithRelations) : TripWithRelations :=
  mkTripWithRelations (touched now (with_status next (row t)))
    (customer t) (driver t).

(** The cards of a list other than those of the trip [id]. *)
Definition other_cards (id : uuid) (cards : list TripWithRelations)
  : list TripWithRelations :=
  filter (fun t => negb (String.eqb (Trip.id (row t)) id)) cards.

(** A Completed, unsettled row whose driver is known: a row that
    [fetchData] puts in a statement. *)
Definition reconcilable (db : database) (r : Trip.t) : bool :=
  Reconciliation.unsettled_completed r
  && eligible (Reconciliation.to_unsettled db r).

(** The loop keeps the number of trips held by the map equal to the number
    of trips that passed the guard. *)
Definition totals_of (seen : list UnsettledTrip.t) (m : StatementMap) : Prop :=
  list_sum (map (fun s => List.length (DriverStatement.trips s)) (Map_values m))
  = List.length (filter eligible seen).

(** The embedded driver of a trip is the one its [driver_id] names. *)
Definition driver_matches (t : UnsettledTrip.t) : Prop :=
  forall d, UnsettledTrip.driver t = Some d ->
            UnsettledTrip.driver_id t = Some (DriverRef.id d).

(** A string made of white space only (the empty string included). *)
Fixpoint all_white_space (s : string) : bool :=
  match s with
  | EmptyString => true
  | String c s' => is_white_space c && all_white_space s'
  end.

Fixpoint last_char (s : string) : option ascii :=
  match s with
  | EmptyString => None
  | String c EmptyString => Some c
  | String _ s' => last_char s'
  end.

(** A text with no white space at either end. *)
Definition trimmed (s : string) : Prop :=
  match s with
  | EmptyString => True
  | String c _ => is_white_space c = false
  end
  /\ match last_char s with
     | Some c => is_white_space c = false
     | None => True
     end.

(** A required text as the forms store it: not empty, no white space at
    either end. *)
Definition clean_text (s : string) : Prop := s <> EmptyString /\ trimmed s.

(** Amounts that are not binary64 numbers: one trip of driver B with a
    commission of 96.96, then three of driver A with 12.12, 84.84 and 0,
    and fares 12345, 0.1 and 0.2. *)
Definition cents_trip (id : uuid) (d : DriverRef.t) (fare commission : Q)
  : UnsettledTrip.t :=
  UnsettledTrip.mk id (Some (DriverRef.id d)) "cargo" "pickup" "dropoff" 0%Z
    (Some (binary64 fare)) (Some (binary64 commission)) (Some d).

Definition cents_trips : list UnsettledTrip.t :=
  [ cents_trip "trip1" driver_B 808 (9696 # 100);
    cents_trip "trip2" driver_A 12345 (1212 # 100);
    cents_trip "trip3" driver_A (1 # 10) (8484 # 100);
    cents_trip "trip4" driver_A (2 # 10) 0 ].

(** One trip of driver B with a commission of 0.1, then two of driver A
    with 0.2 and 0.3. *)
Definition tenths_trips : list UnsettledTrip.t :=
  [ cents_trip "trip1" driver_B 1 (1 # 10);
    cents_trip "trip2" driver_A 2 (2 # 10);
    cents_trip "trip3" driver_A 3 (3 # 10) ].

(* ================================================================== *)
(** * Updates of the trips table *)
(* ================================================================== *)

Lemma update_rows_fst cond p rows :
  fst (update_rows cond p rows)
  = map (fun r => if cond r then stored_row p r else r) rows.
Proof.
  induction rows as [|r rows IH]; simpl; [reflexivity|].
  destruct (update_rows cond p rows) as [rest' logs'].
  simpl in IH. destruct (cond r); simpl; now rewrite IH.
Qed.

Lemma update_rows_snd cond p rows :
  snd (update_rows cond p rows)
  = flat_map (fun r => if cond r then snd (update_row p r) else []) rows.
Proof.
  induction rows as [|r rows IH]; simpl; [reflexivity|].
  destruct (update_rows cond p rows) as [rest' logs'].
  simpl in IH. destruct (cond r); simpl; now rewrite IH.
Qed.

Lemma trips_update_ok cond p db :
  trips_update None cond p db
  = (Data tt,
     mkDatabase (customers db) (drivers db)
       (map (fun r => if cond r then stored_row p r else r) (trips db))
       (audit_logs db
        ++ flat_map (fun r => if cond r then snd (update_row p r) else [])
             (trips db))).
Proof.
  unfold trips_update.
  rewrite <- update_rows_fst, <- update_rows_snd.
  now destruct (update_rows cond p (trips db)).
Qed.

(** An update that mentions none of the trigger columns writes no audit row. *)
Lemma quiet_update_logs (cond : Trip.t -> bool) p (rows : list Trip.t) :
  fires_check_verification_amounts p = false ->
  fires_track_trip_status p = false ->
  flat_map (fun r => if cond r then snd (update_row p r) else []) rows = [].
Proof.
  intros Hv Hs. induction rows as [|r rows IH]; [reflexivity|].
  cbn [flat_map]. rewrite IH, app_nil_r.
  destruct (cond r); [|reflexivity].
  unfold update_row, verification_events, status_events. cbn [snd].
  now rewrite Hv, Hs.
Qed.

(* ================================================================== *)
(** * Commission engine *)
(* ================================================================== *)

Lemma calculate_trip_commission_derived NEW :
  commission_derived (calculate_trip_commission NEW).
Proof.
  unfold commission_derived, calculate_trip_commission.
  destruct NEW as [i c d l pl dl pt fare pc st cv dv cp cs ca ua].
  destruct fare; reflexivity.
Qed.

Lemma calculate_trip_commission_fare NEW :
  Trip.agreed_fare (calculate_trip_commission NEW) = Trip.agreed_fare NEW.
Proof.
  unfold calculate_trip_commission.
  destruct NEW as [i c d l pl dl pt fare pc st cv dv cp cs ca ua].
  now destruct fare.
Qed.

(** An update keeps the commission derived unless it writes
    [platform_commission] without mentioning [agreed_fare]. *)
Lemma stored_row_derived p OLD :
  Patch.mentions (Patch.agreed_fare p) = true
  \/ (Patch.platform_commission p = None /\ commission_derived OLD) ->
  commission_derived (stored_row p OLD).
Proof.
  unfold stored_row, fires_set_trip_commission.
  destruct (Patch.mentions (Patch.agreed_fare p)) eqn:Hm.
  - intros _. apply calculate_trip_commission_derived.
  - intros [Habs | [Hpc Hold]]; [discriminate|].
    unfold commission_derived in *. simpl. rewrite Hpc. simpl.
    destruct (Patch.agreed_fare p); [discriminate|]. simpl. exact Hold.
Qed.

Lemma update_keeps_derived (cond : Trip.t -> bool) p (rows : list Trip.t) :
  Patch.mentions (Patch.agreed_fare p) = true
  \/ Patch.platform_commission p = None ->
  Forall commission_derived rows ->
  Forall commission_derived
    (map (fun r => if cond r then stored_row p r else r) rows).
Proof.
  intros Hp Hall. induction Hall as [|r rows Hr _ IH]; simpl; constructor; auto.
  destruct (cond r); [|exact Hr].
  apply stored_row_derived. destruct Hp as [Hp | Hp]; auto.
Qed.

Lemma update_table_derived (cond : Trip.t -> bool) p (rows : list Trip.t) :
  Patch.mentions (Patch.agreed_fare p) = true ->
  Forall2 (fun OLD NEW => if cond OLD then commission_derived NEW else NEW = OLD)
    rows (map (fun r => if cond r then stored_row p r else r) rows).
Proof.
  intros Hp. induction rows as [|r rows IH]; simpl; constructor; auto.
  destruct (cond r); [|reflexivity].
  apply stored_row_derived. now left.
Qed.

Lemma trips_update_keeps_derived fl (cond : Trip.t -> bool) p db :
  Patch.mentions (Patch.agreed_fare p) = true
  \/ Patch.platform_commission p = None ->
  Forall commission_derived (trips db) ->
  Forall commission_derived (trips (snd (trips_update fl cond p db))).
Proof.
  intros Hp Hall. destruct fl as [message|].
  - exact Hall.
  - rewrite trips_update_ok. simpl. now apply update_keeps_derived.
Qed.

Lemma trips_insert_data fl id now v db r db' :
  trips_insert fl id now v db = (Data r, db') ->
  fl = None
  /\ row r = insert_row (TripInsert.proposed id now v)
  /\ db' = mkDatabase (customers db) (drivers db) (trips db ++ [row r])
             (audit_logs db)
  /\ r = with_relations db' (row r).
Proof.
  unfold trips_insert. destruct fl; [discriminate|].
  intros H. injection H as Hr Hdb. subst r. simpl. rewrite <- Hdb. auto.
Qed.

(** The rows of the trips table after each page action. *)
Lemma handleConfirmAssignment_db fl now d fare s db :
  snd (Dashboard.handleConfirmAssignment fl now d fare s db) = db
  \/ exists sel,
       Dashboard.selectedTrip s = Some sel
       /\ snd (Dashboard.handleConfirmAssignment fl now d fare s db)
          = snd (trips_update None (eq_id (Trip.id (row sel)))
                   (Dashboard.assignment_update d fare) db).
Proof.
  unfold Dashboard.handleConfirmAssignment.
  destruct (Dashboard.selectedTrip s) as [sel|]; [|now left].
  destruct fl as [message|]; [now left|].
  right. exists sel. split; [reflexivity|].
  now destruct (trips_update None _ _ db) as [[u|message] db'].
Qed.

Lemma handleAdvanceStatus_db fl now trip s db :
  snd (Dashboard.handleAdvanceStatus fl now trip s db) = db
  \/ exists cfg,
       ADVANCE_CONFIG (Trip.status (row trip)) = Some cfg
       /\ snd (Dashboard.handleAdvanceStatus fl now trip s db)
          = snd (trips_update None (eq_id (Trip.id (row trip)))
                   (Dashboard.status_update (AdvanceConfig.next cfg)) db).
Proof.
  unfold Dashboard.handleAdvanceStatus.
  destruct (ADVANCE_CONFIG (Trip.status (row trip))) as [cfg|]; [|now left].
  destruct fl as [message|]; [now left|].
  right. exists cfg. split; [reflexivity|].
  now destruct (trips_update None _ _ db) as [[u|message] db'].
Qed.

Lemma handleSettle_db fl driverId tripIds s db :
  snd (Reconciliation.handleSettle fl driverId tripIds s db)
  = snd (trips_update fl (in_id tripIds) Reconciliation.settle_update db).
Proof.
  unfold Reconciliation.handleSettle.
  now destruct (trips_update fl _ _ db) as [[u|message] db'].
Qed.

(* ================================================================== *)
(** * Creating a trip *)
(* ================================================================== *)

Lemma limit_1_is_find {A B} (f : A -> B) (p : A -> bool) (l : list A) :
  firstn 1 (map f (filter p l))
  = match find p l with Some a => [f a] | None => [] end.
Proof.
  induction l as [|a l IH]; simpl; [reflexivity|].
  destruct (p a); simpl; [reflexivity | exact IH].
Qed.

Lemma submit_submitted e m db :
  submitted e m db (fst (NewTripModal.submit e m db))
                   (snd (NewTripModal.submit e m db)).
Proof.
  unfold NewTripModal.submit, bind, customers_select_id.
  destruct (NewTripModal.lookup_fault e) as [msg|] eqn:Hl.
  { simpl. apply submitted_failed_before. now left. }
  rewrite limit_1_is_find.
  fold (customer_by_phone (trim (NewTripModal.phoneNumber m)) db).
  destruct (customer_by_phone (trim (NewTripModal.phoneNumber m)) db)
    as [c|] eqn:Hc.
  - cbn [ret].
    destruct (NewTripModal.toISOString e (NewTripModal.pickupTime m))
      as [pickup|] eqn:Ht; cbn [ret throw].
    + unfold trips_insert.
      destruct (NewTripModal.insert_trip_fault e) as [msg|] eqn:Hi; cbn [fst snd].
      * apply submitted_failed_before. right. right.
        split; [exact Hl|]. split; [congruence|]. right. eauto.
      * eapply submitted_returning; eauto.
    + cbn [fst snd]. apply submitted_failed_before. right. right.
      split; [exact Hl|]. split; [congruence|]. now left.
  - unfold customers_insert.
    destruct (NewTripModal.insert_customer_fault e) as [msg|] eqn:Hn.
    { cbn [fst snd]. apply submitted_failed_before. right. left. auto. }
    destruct (NewTripModal.toISOString e (NewTripModal.pickupTime m))
      as [pickup|] eqn:Ht; cbn [ret throw].
    + unfold trips_insert.
      destruct (NewTripModal.insert_trip_fault e) as [msg|] eqn:Hi; cbn [fst snd].
      * apply submitted_failed_after; auto. right. eauto.
      * eapply submitted_new; eauto.
    + cbn [fst snd]. apply submitted_failed_after; auto. now left.
Qed.

Lemma trip_step_works e m message :
  NewTripModal.insert_trip_fault e = None ->
  NewTripModal.toISOString e (NewTripModal.pickupTime m) <> None ->
  ~ trip_step_fails e m message.
Proof.
  intros Hi Ht [[H _] | (pickup & _ & H)]; congruence.
Qed.

Lemma handleSubmit_cases e m s db :
  (negb (NewTripModal.canSubmit m) || NewTripModal.submitting m = true
   /\ NewTripModal.handleSubmit e m s db = (m, s, db))
  \/ (negb (NewTripModal.canSubmit m) || NewTripModal.submitting m = false
      /\ exists res db',
           submitted e m db res db'
           /\ NewTripModal.handleSubmit e m s db
              = match res with
                | Data newTrip =>
                    (NewTripModal.set_submit true None m,
                     Dashboard.handleTripCreated newTrip s, db')
                | Error message =>
                    (NewTripModal.set_submit false (Some message) m, s, db')
                end).
Proof.
  unfold NewTripModal.handleSubmit.
  destruct (negb (NewTripModal.canSubmit m) || NewTripModal.submitting m);
    [now left|].
  right. split; [reflexivity|].
  pose proof (submit_submitted e m db) as H.
  destruct (NewTripModal.submit e m db) as [[t|message] db']; eauto.
Qed.

Lemma handleSubmit_submitted e m s db :
  snd (NewTripModal.handleSubmit e m s db) = db
  \/ exists res, submitted e m db res (snd (NewTripModal.handleSubmit e m s db)).
Proof.
  destruct (handleSubmit_cases e m s db) as [[_ ->] | [_ (res & db' & H & ->)]];
    [now left|].
  right. exists res. now destruct res.
Qed.

Lemma submitted_keeps_derived e m db res db' :
  submitted e m db res db' ->
  Forall commission_derived (trips db) ->
  Forall commission_derived (trips db').
Proof.
  intros H Hall.
  destruct H as [c pickup db' _ _ _ _ -> | pickup db' _ _ _ _ _ -> | |];
    simpl; auto; apply Forall_app; split; auto; repeat constructor.
Qed.

(** C2. [deriveCommission null = null] and [deriveCommission f = f * 0.12];
    the row stored by every insert of a trip, and by every update whose
    [SET] list mentions [agreed_fare], has
    [platform_commission = deriveCommission agreed_fare], whatever the
    statement itself assigns to [platform_commission]; an update that does
    not write [platform_commission] keeps it derived; and so do the four
    page actions (create, assign, advance, settle), none of which sets it
    independently of [agreed_fare]. *)
Theorem commission_follows_agreed_fare :
  deriveCommission None = None
  /\ (forall f : numeric, deriveCommission (Some f) = Some (f * (12 # 100))%Q)
  /\ (forall NEW : Trip.t,
        commission_derived (insert_row NEW)
        /\ Trip.agreed_fare (insert_row NEW) = Trip.agreed_fare NEW)
  /\ (forall (fl : fault) id now v db r db',
        trips_insert fl id now v db = (Data r, db') ->
        trips db' = trips db ++ [row r]
        /\ commission_derived (row r)
        /\ Trip.agreed_fare (row r) = TripInsert.agreed_fare v)
  /\ (forall (p : Patch.t) (OLD : Trip.t),
        Patch.mentions (Patch.agreed_fare p) = true ->
        commission_derived (stored_row p OLD)
        /\ Trip.agreed_fare (stored_row p OLD)
           = Patch.or_old (Patch.agreed_fare p) (Trip.agreed_fare OLD))
  /\ (forall (cond : Trip.t -> bool) p db,
        Patch.mentions (Patch.agreed_fare p) = true ->
        Forall2 (fun OLD NEW =>
                   if cond OLD then commission_derived NEW else NEW = OLD)
          (trips db) (trips (snd (trips_update None cond p db))))
  /\ (forall (fl : fault) (cond : Trip.t -> bool) p db,
        Patch.mentions (Patch.agreed_fare p) = true
        \/ Patch.platform_commission p = None ->
        Forall commission_derived (trips db) ->
        Forall commission_derived (trips (snd (trips_update fl cond p db))))
  /\ (forall db, Forall commission_derived (trips db) ->
        (forall e m s,
           Forall commission_derived
             (trips (snd (NewTripModal.handleSubmit e m s db))))
        /\ (forall fl now m s,
              Forall commission_derived
                (trips (snd (MatchmakingModal.handleConfirm fl now m s db))))
        /\ (forall fl now trip s,
              Forall commission_derived
                (trips (snd (Dashboard.handleAdvanceStatus fl now trip s db))))
        /\ (forall fl driverId tripIds s,
              Forall commission_derived
                (trips (snd (Reconciliation.handleSettle fl driverId tripIds
                               s db))))).
Proof.
  split; [reflexivity|]. split; [reflexivity|].
  split.
  { intros NEW. split.
    - apply calculate_trip_commission_derived.
    - apply calculate_trip_commission_fare. }
  split.
  { intros fl id now v db r db' H.
    apply trips_insert_data in H. destruct H as (_ & Hr & Hdb & _).
    split; [now rewrite Hdb|]. rewrite Hr. split.
    - apply calculate_trip_commission_derived.
    - unfold insert_row. now rewrite calculate_trip_commission_fare. }
  split.
  { intros p OLD Hp. split.
    - apply stored_row_derived. now left.
    - unfold stored_row, fires_set_trip_commission. rewrite Hp.
      now rewrite calculate_trip_commission_fare. }
  split.
  { intros cond p db Hp. rewrite trips_update_ok. simpl.
    now apply update_table_derived. }
  split.
  { intros fl cond p db Hp Hall. now apply trips_update_keeps_derived. }
  intros db Hall. repeat split.
  - intros e m s.
    destruct (handleSubmit_submitted e m s db) as [-> | [res H]]; auto.
    eapply submitted_keeps_derived; eauto.
  - intros fl now m s. unfold MatchmakingModal.handleConfirm.
    destruct (MatchmakingModal.selectedDriver (Dashboard.drivers s) m) as [d|];
      [|exact Hall].
    destruct (MatchmakingModal.parsedFare m) as [|fare]; [exact Hall|].
    destruct (MatchmakingModal.canConfirm (Dashboard.drivers s) m);
      [|exact Hall].
    pose proof (handleConfirmAssignment_db fl now d fare s db) as H.
    destruct (Dashboard.handleConfirmAssignment fl now d fare s db)
      as [[[|message] s'] db']; cbn [snd] in *;
      (destruct H as [-> | [sel [_ ->]]]; auto;
       apply trips_update_keeps_derived; auto).
  - intros fl now trip s.
    destruct (handleAdvanceStatus_db fl now trip s db) as [-> | [cfg [_ ->]]];
      auto.
    apply trips_update_keeps_derived; auto.
  - intros fl driverId tripIds s. rewrite handleSettle_db.
    apply trips_update_keeps_derived; auto.
Qed.

(* ================================================================== *)
(** * Verification safeguard *)
(* ================================================================== *)

Lemma is_distinct_from_same a b :
  is_distinct_from a b = false <-> same_amount a b.
Proof.
  destruct a as [x|], b as [y|]; simpl; try tauto; try (split; [discriminate|tauto]).
  rewrite negb_false_iff. apply Qeq_bool_iff.
Qed.

Lemma is_distinct_from_changed a b :
  is_distinct_from a b = true <-> ~ same_amount a b.
Proof.
  rewrite <- is_distinct_from_same. destruct (is_distinct_from a b); split;
    congruence.
Qed.

Lemma same_amount_refl a : same_amount a a.
Proof. destruct a; simpl; [reflexivity | exact I]. Qed.

(** The verified amounts of the stored row are those of the statement, or
    the old ones: no trigger touches them. *)
Lemma stored_row_customer_verified p OLD :
  Trip.customer_verified_amount (stored_row p OLD)
  = Patch.or_old (Patch.customer_verified_amount p)
      (Trip.customer_verified_amount OLD).
Proof.
  unfold stored_row. destruct (fires_set_trip_commission p); [|reflexivity].
  unfold calculate_trip_commission.
  now destruct (Trip.agreed_fare (Patch.apply p OLD)).
Qed.

Lemma stored_row_driver_verified p OLD :
  Trip.driver_verified_amount (stored_row p OLD)
  = Patch.or_old (Patch.driver_verified_amount p)
      (Trip.driver_verified_amount OLD).
Proof.
  unfold stored_row. destruct (fires_set_trip_commission p); [|reflexivity].
  unfold calculate_trip_commission.
  now destruct (Trip.agreed_fare (Patch.apply p OLD)).
Qed.

Lemma stored_row_id p OLD : Trip.id (stored_row p OLD) = Trip.id OLD.
Proof.
  unfold stored_row. destruct (fires_set_trip_commission p); [|reflexivity].
  unfold calculate_trip_commission.
  now destruct (Trip.agreed_fare (Patch.apply p OLD)).
Qed.

(** A verified amount that changed was mentioned by the statement, so the
    trigger fired. *)
Lemma changed_amount_fires p OLD :
  ~ same_amount (Trip.customer_verified_amount (stored_row p OLD))
                (Trip.customer_verified_amount OLD)
  \/ ~ same_amount (Trip.driver_verified_amount (stored_row p OLD))
                   (Trip.driver_verified_amount OLD) ->
  fires_check_verification_amounts p = true.
Proof.
  rewrite stored_row_customer_verified, stored_row_driver_verified.
  unfold fires_check_verification_amounts.
  destruct (Patch.customer_verified_amount p); [reflexivity|].
  destruct (Patch.driver_verified_amount p); [reflexivity|].
  simpl. intros [H | H]; exfalso; apply H; apply same_amount_refl.
Qed.

Lemma status_events_not_verification p OLD :
  filter is_verification_event (status_events p OLD) = [].
Proof.
  unfold status_events, log_trip_status_change.
  destruct (fires_track_trip_status p); [|reflexivity].
  now destruct (negb (TripStatus_eqb _ _)).
Qed.

Lemma verification_events_all p OLD :
  filter is_verification_event (verification_events p OLD)
  = verification_events p OLD.
Proof.
  unfold verification_events, verify_trip_amounts.
  destruct (fires_check_verification_amounts p); [|reflexivity].
  destruct (Trip.customer_verified_amount (stored_row p OLD)); [|reflexivity].
  destruct (Trip.driver_verified_amount (stored_row p OLD)); [|reflexivity].
  destruct (_ || _); [|reflexivity].
  now destruct (negb (Qeq_bool _ _)).
Qed.

Lemma update_row_verification_events p OLD :
  filter is_verification_event (snd (update_row p OLD))
  = verification_events p OLD.
Proof.
  unfold update_row. cbn [snd]. rewrite filter_app.
  now rewrite status_events_not_verification, verification_events_all,
    app_nil_r.
Qed.

Lemma filter_flat_map {A B} (f : B -> bool) (g : A -> list B) (l : list A) :
  filter f (flat_map g l) = flat_map (fun x => filter f (g x)) l.
Proof.
  induction l as [|a l IH]; simpl; [reflexivity|].
  now rewrite filter_app, IH.
Qed.

(** C3. For an [UPDATE] of trips with any [SET] list [p]: the write goes
    through, the table after it holds the statement's rows and its new audit rows hold, as verification
    events, exactly those of the safeguard, row by row.  For each updated
    row [OLD], with [NEW] the row stored: the stored row is the statement's row (with the
    commission recomputed when the fare is mentioned), so the safeguard
    neither changes it nor blocks it; the audit rows of the update that are
    verification events are exactly those of the safeguard; when both
    verified amounts of [NEW] are non-null and at least one differs from
    [OLD], that is exactly one event, [VERIFICATION_MISMATCH] with payload
    [{customer_amount, driver_amount}] and its message when the amounts
    differ, [VERIFICATION_MATCH] with its message when they are equal; and
    when an amount of [NEW] is null, or neither differs from [OLD], there
    is none. *)
Theorem verification_safeguard_events (p : Patch.t) :
  (forall (cond : Trip.t -> bool) (db : database),
     let db' := snd (trips_update None cond p db) in
     fst (trips_update None cond p db) = Data tt
     /\ trips db' = map (fun r => if cond r then stored_row p r else r) (trips db)
     /\ exists logs,
          audit_logs db' = audit_logs db ++ logs
          /\ filter is_verification_event logs
             = flat_map (fun r => if cond r then verification_events p r else [])
                 (trips db))
  /\ forall OLD : Trip.t,
  let NEW := stored_row p OLD in
  fst (update_row p OLD) = NEW
  /\ NEW = (if Patch.mentions (Patch.agreed_fare p)
            then calculate_trip_commission (Patch.apply p OLD)
            else Patch.apply p OLD)
  /\ filter is_verification_event (snd (update_row p OLD))
     = verification_events p OLD
  /\ (forall c d : numeric,
        Trip.customer_verified_amount NEW = Some c ->
        Trip.driver_verified_amount NEW = Some d ->
        ~ same_amount (Trip.customer_verified_amount NEW)
                      (Trip.customer_verified_amount OLD)
        \/ ~ same_amount (Trip.driver_verified_amount NEW)
                         (Trip.driver_verified_amount OLD) ->
        (~ (c == d)%Q ->
         verification_events p OLD = [mismatch_event (Trip.id OLD) c d])
        /\ ((c == d)%Q ->
            verification_events p OLD = [match_event (Trip.id OLD)]))
  /\ (Trip.customer_verified_amount NEW = None
      \/ Trip.driver_verified_amount NEW = None
      \/ (same_amount (Trip.customer_verified_amount NEW)
                      (Trip.customer_verified_amount OLD)
          /\ same_amount (Trip.driver_verified_amount NEW)
                         (Trip.driver_verified_amount OLD)) ->
      verification_events p OLD = []).
Proof.
  split.
  { intros cond db db'. subst db'. rewrite trips_update_ok.
    cbn [fst snd trips audit_logs].
    split; [reflexivity|]. split; [reflexivity|].
    eexists. split; [reflexivity|].
    rewrite filter_flat_map. apply flat_map_ext. intros r.
    destruct (cond r); [|reflexivity]. apply update_row_verification_events. }
  intros OLD NEW. split; [reflexivity|]. split; [reflexivity|]. split.
  { apply update_row_verification_events. }
  split.
  - intros c d Hc Hd Hchanged.
    pose proof (changed_amount_fires p OLD Hchanged) as Hfires.
    assert (Hdistinct :
              is_distinct_from (Trip.customer_verified_amount NEW)
                               (Trip.customer_verified_amount OLD)
              || is_distinct_from (Trip.driver_verified_amount NEW)
                                  (Trip.driver_verified_amount OLD) = true).
    { apply orb_true_iff.
      destruct Hchanged as [H | H]; [left | right];
        now apply is_distinct_from_changed. }
    unfold verification_events, verify_trip_amounts. rewrite Hfires.
    fold NEW. rewrite Hc, Hd. rewrite <- Hc, <- Hd, Hdistinct.
    assert (Hid : Trip.id NEW = Trip.id OLD) by apply stored_row_id.
    rewrite Hid.
    split; intros Hcd.
    + assert (Qeq_bool c d = false) as ->.
      { destruct (Qeq_bool c d) eqn:E; [|reflexivity].
        apply Qeq_bool_iff in E. contradiction. }
      reflexivity.
    + assert (Qeq_bool c d = true) as -> by now apply Qeq_bool_iff.
      reflexivity.
  - intros H. unfold verification_events, verify_trip_amounts.
    destruct (fires_check_verification_amounts p); [|reflexivity].
    fold NEW.
    destruct (Trip.customer_verified_amount NEW) as [c|] eqn:Hc;
      [|reflexivity].
    destruct (Trip.driver_verified_amount NEW) as [d|] eqn:Hd;
      [|reflexivity].
    destruct H as [H | [H | [H1 H2]]]; try discriminate.
    apply is_distinct_from_same in H1, H2. now rewrite H1, H2.
Qed.

(* ================================================================== *)
(** * Binary64 numbers *)
(* ================================================================== *)

(** The comparisons and the subtraction of binary64 numbers, read on the
    number line: [rank] maps the numbers other than [NaN] to integers,
    keeping their order, and [y - x] is positive exactly when [x] is below
    [y].  Proved from the bit-level specification of the operations. *)
Section Binary64.
Local Open Scope Z_scope.

Lemma digits2_pos_bounds m :
  2 ^ (Zpos (digits2_pos m) - 1) <= Zpos m < 2 ^ Zpos (digits2_pos m).
Proof.
  induction m as [m IH | m IH |]; cbn [digits2_pos].
  - rewrite Pos2Z.inj_succ. replace (Z.succ (Zpos (digits2_pos m)) - 1)
      with (Z.succ (Zpos (digits2_pos m) - 1)) by lia.
    rewrite !Z.pow_succ_r by lia. lia.
  - rewrite Pos2Z.inj_succ. replace (Z.succ (Zpos (digits2_pos m)) - 1)
      with (Z.succ (Zpos (digits2_pos m) - 1)) by lia.
    rewrite !Z.pow_succ_r by lia. lia.
  - simpl. lia.
Qed.

Lemma bounded_inv m e :
  bounded prec emax m e = true ->
  -1074 <= e <= 971
  /\ Zpos m < 2 ^ 53
  /\ (-1074 < e -> 2 ^ 52 <= Zpos m).
Proof.
  unfold bounded, canonical_mantissa, fexp, emin, prec, emax.
  intros H. apply andb_true_iff in H. destruct H as [Hc Hb].
  apply Z.eqb_eq in Hc. apply Z.leb_le in Hb.
  pose proof (digits2_pos_bounds m) as [Hlo Hhi].
  assert (Hd : Zpos (digits2_pos m) <= 53) by lia.
  split; [lia|]. split.
  - eapply Z.lt_le_trans; [exact Hhi|]. apply Z.pow_le_mono_r; lia.
  - intros He. assert (Zpos (digits2_pos m) = 53) as E by lia.
    rewrite E in Hlo. exact Hlo.
Qed.

Lemma ord_finite_bounds m e :
  bounded prec emax m e = true ->
  0 < Zpos m * 2 ^ (e + 1074) < 2 ^ 2098.
Proof.
  intros H. apply bounded_inv in H. destruct H as (He & Hm & _).
  assert (0 < 2 ^ (e + 1074)) by (apply Z.pow_pos_nonneg; lia).
  split; [lia|].
  apply Z.lt_le_trans with (2 ^ 53 * 2 ^ (e + 1074)).
  - apply Z.mul_lt_mono_pos_r; lia.
  - rewrite <- Z.pow_add_r by lia. apply Z.pow_le_mono_r; lia.
Qed.

Lemma canonical_lt m1 e1 m2 e2 :
  bounded prec emax m1 e1 = true -> bounded prec emax m2 e2 = true ->
  e1 < e2 ->
  Zpos m1 * 2 ^ (e1 + 1074) < Zpos m2 * 2 ^ (e2 + 1074).
Proof.
  intros H1 H2 Hlt.
  apply bounded_inv in H1, H2.
  destruct H1 as (He1 & Hm1 & _), H2 as (He2 & _ & Hm2).
  specialize (Hm2 ltac:(lia)).
  assert (HP : 0 < 2 ^ (e1 + 1074)) by (apply Z.pow_pos_nonneg; lia).
  replace (e2 + 1074) with ((e1 + 1074) + (e2 - e1)) by lia.
  rewrite (Z.pow_add_r 2 (e1 + 1074) (e2 - e1)) by lia.
  assert (HK : 2 ^ 1 <= 2 ^ (e2 - e1)) by (apply Z.pow_le_mono_r; lia).
  change (2 ^ 1) with 2 in HK.
  change (2 ^ 53) with (2 * 2 ^ 52) in Hm1.
  set (P := 2 ^ (e1 + 1074)) in *. set (K := 2 ^ (e2 - e1)) in *.
  set (T := 2 ^ 52) in *. clearbody P K T.
  assert (H1 : Z.pos m1 * P < 2 * T * P)
    by (apply Z.mul_lt_mono_pos_r; lia).
  assert (H2 : T * P <= Z.pos m2 * P)
    by (apply Z.mul_le_mono_nonneg_r; lia).
  assert (H3 : Z.pos m2 * P * 2 <= Z.pos m2 * P * K)
    by (apply Z.mul_le_mono_nonneg_l; lia).
  lia.
Qed.

Lemma compare_ord x y :
  is_number x -> is_number y ->
  SFcompare x y = Some (ord x ?= ord y).
Proof.
  intros [Hx Vx] [Hy Vy].
  assert (HT : 0 < 2 ^ 2098) by (apply Z.pow_pos_nonneg; lia).
  destruct x as [sx | sx | | sx mx ex]; [| | congruence |];
  destruct y as [sy | sy | | sy my ey]; try congruence;
    cbn [SFcompare ord valid_binary] in *;
    try (pose proof (ord_finite_bounds _ _ Vx) as Bx);
    try (pose proof (ord_finite_bounds _ _ Vy) as By);
    set (T := 2 ^ 2098) in *; clearbody T.
  all: try solve
    [ repeat match goal with s : bool |- _ => destruct s end;
      cbn [cond_Zopp]; f_equal; symmetry;
      first [ apply Z.compare_eq_iff; lia | apply Z.compare_lt_iff; lia
            | apply Z.compare_gt_iff; lia ] ].
  f_equal.
    set (X := Zpos mx * 2 ^ (ex + 1074)) in *.
    set (Y := Zpos my * 2 ^ (ey + 1074)) in *.
    assert (Hlt : ex < ey -> X < Y) by (now apply canonical_lt).
    assert (Hgt : ey < ex -> Y < X) by (now apply canonical_lt).
    assert (Heq : ex = ey -> (X ?= Y) = (Zpos mx ?= Zpos my)).
    { intros ->. subst X Y. symmetry. apply Zmult_compare_compat_r.
      apply bounded_inv in Vy. apply Z.lt_gt, Z.pow_pos_nonneg; lia. }
    rewrite Pos.compare_cont_spec. cbn [Pos.switch_Eq].
    destruct sx, sy; cbn [cond_Zopp]; symmetry.
    + destruct (Z.compare_spec ex ey) as [E | E | E].
      * rewrite Z.compare_opp, (Z.compare_antisym X Y), (Heq E).
        change (Z.pos mx ?= Z.pos my) with (mx ?= my)%positive.
        now destruct (mx ?= my)%positive.
      * apply Z.compare_gt_iff. specialize (Hlt E). lia.
      * apply Z.compare_lt_iff. specialize (Hgt E). lia.
    + apply Z.compare_lt_iff. lia.
    + apply Z.compare_gt_iff. lia.
    + destruct (Z.compare_spec ex ey) as [E | E | E].
      * rewrite (Heq E).
        change (Z.pos mx ?= Z.pos my) with (mx ?= my)%positive.
        now destruct (mx ?= my)%positive.
      * apply Z.compare_lt_iff. auto.
      * apply Z.compare_gt_iff. auto.
Qed.

Lemma iter_pos_iter {A} (f : A -> A) p x : iter_pos f p x = Pos.iter f x p.
Proof.
  revert x. induction p as [p IH | p IH |]; intros x; cbn [iter_pos Pos.iter].
  - rewrite !IH. now rewrite !Pos.iter_swap.
  - now rewrite !IH.
  - reflexivity.
Qed.

Lemma shr_1_div2 mrs :
  0 <= shr_m mrs -> shr_m (shr_1 mrs) = Z.div2 (shr_m mrs).
Proof.
  destruct mrs as [m r s]. cbn [shr_m shr_1].
  destruct m as [|[p | p |]|p]; intros H; try reflexivity; lia.
Qed.

Lemma iter_shr_1 p mrs :
  0 <= shr_m mrs ->
  shr_m (Pos.iter shr_1 mrs p) = shr_m mrs / 2 ^ Zpos p.
Proof.
  intros H.
  assert (G : 0 <= shr_m (Pos.iter shr_1 mrs p)
              /\ shr_m (Pos.iter shr_1 mrs p) = Z.shiftr (shr_m mrs) (Zpos p)).
  { induction p as [|p [IH0 IH]] using Pos.peano_ind.
    - cbn [Pos.iter]. rewrite shr_1_div2 by exact H.
      split; [apply Z.div2_nonneg; exact H | reflexivity].
    - rewrite Pos.iter_succ. rewrite shr_1_div2 by exact IH0.
      split; [apply Z.div2_nonneg; exact IH0|].
      rewrite IH. unfold Z.shiftr, Z.shiftl. cbn [Z.opp].
      now rewrite Pos.iter_succ. }
  destruct G as [_ ->]. apply Z.shiftr_div_pow2. lia.
Qed.

Lemma shr_record_of_loc_m m l : shr_m (shr_record_of_loc m l) = m.
Proof. destruct l as [|[| |]]; reflexivity. Qed.

Lemma shr_fexp_positive m e l :
  0 < m -> -1074 <= e ->
  0 < shr_m (fst (shr_fexp prec emax m e l))
  /\ -1074 <= snd (shr_fexp prec emax m e l).
Proof.
  intros Hm He. unfold shr_fexp, shr.
  destruct m as [|p|p]; try lia. cbn [Zdigits2].
  pose proof (digits2_pos_bounds p) as [Hlo _].
  set (d := Zpos (digits2_pos p)) in *.
  assert (Hd : 0 < d) by (subst d; lia).
  destruct (fexp prec emax (d + e) - e) as [|k|k] eqn:En;
    cbn [fst snd]; rewrite ?shr_record_of_loc_m; try (split; lia).
  unfold fexp, FloatOps.emin, SpecFloat.emin, prec, emax in En.
  assert (Hk : Zpos k = d - 53) by lia.
  rewrite iter_pos_iter, iter_shr_1 by (rewrite shr_record_of_loc_m; lia).
  rewrite shr_record_of_loc_m. split; [|lia].
  apply Z.div_str_pos. split; [apply Z.pow_pos_nonneg; lia|].
  eapply Z.le_trans; [|exact Hlo]. apply Z.pow_le_mono_r; lia.
Qed.

Lemma round_nearest_even_positive m l : 0 < m -> 0 < round_nearest_even m l.
Proof.
  intros H. destruct l as [|[| |]]; cbn [round_nearest_even]; try lia.
  destruct (Z.even m); lia.
Qed.

Lemma binary_round_aux_sign s m e l :
  0 < m -> -1074 <= e ->
  (exists m' e', binary_round_aux prec emax s m e l = S754_finite s m' e')
  \/ binary_round_aux prec emax s m e l = S754_infinity s.
Proof.
  intros Hm He. unfold binary_round_aux.
  destruct (shr_fexp_positive m e l Hm He) as [H1 H1'].
  destruct (shr_fexp prec emax m e l) as [mrs' e']. cbn [fst snd] in H1, H1'.
  pose proof (round_nearest_even_positive _ (loc_of_shr_record mrs') H1) as H2.
  destruct (shr_fexp_positive _ e' loc_Exact H2 H1') as [H3 _].
  destruct (shr_fexp prec emax _ e' loc_Exact) as [mrs'' e''].
  cbn [fst] in H3.
  destruct (shr_m mrs'') as [|p|p]; try lia.
  destruct (e'' <=? emax - prec); [left; eauto | now right].
Qed.

Lemma binary_round_sign s m e :
  -1074 <= e ->
  (exists m' e', binary_round prec emax s m e = S754_finite s m' e')
  \/ binary_round prec emax s m e = S754_infinity s.
Proof.
  intros He. unfold binary_round, shl_align.
  set (t := fexp prec emax (Zpos (digits2_pos m) + e)).
  assert (Ht : -1074 <= t).
  { subst t. unfold fexp, FloatOps.emin, SpecFloat.emin, prec, emax. lia. }
  destruct (t - e) as [|k|k]; apply binary_round_aux_sign; lia.
Qed.

Lemma iter_xO m d : Zpos (Pos.iter xO m d) = Zpos m * 2 ^ Zpos d.
Proof.
  induction d as [|d IH] using Pos.peano_ind.
  - cbn [Pos.iter]. rewrite Z.pow_1_r. lia.
  - rewrite Pos.iter_succ, Pos2Z.inj_succ, Z.pow_succ_r by lia.
    rewrite Pos2Z.inj_xO, IH. lia.
Qed.

Lemma shl_align_value m e ez :
  ez <= e -> Zpos (fst (shl_align m e ez)) = Zpos m * 2 ^ (e - ez).
Proof.
  intros H. unfold shl_align.
  destruct (ez - e) as [|k|k] eqn:E; cbn [fst]; try lia.
  - replace (e - ez) with 0 by lia. rewrite Z.pow_0_r. lia.
  - rewrite iter_xO. f_equal. f_equal. lia.
Qed.

Lemma ord_aligned s m e ez :
  -1074 <= ez <= e ->
  cond_Zopp s (Zpos m * 2 ^ (e + 1074))
  = cond_Zopp s (Zpos (fst (shl_align m e ez))) * 2 ^ (ez + 1074).
Proof.
  intros H. rewrite shl_align_value by lia.
  replace (e + 1074) with ((e - ez) + (ez + 1074)) by lia.
  rewrite Z.pow_add_r by lia. destruct s; cbn [cond_Zopp]; lia.
Qed.

Lemma sub_ord x y :
  is_number x -> is_number y ->
  SFltb (S754_zero false) (SFsub prec emax y x) = (ord x <? ord y).
Proof.
  intros [Hx Vx] [Hy Vy].
  assert (HT : 0 < 2 ^ 2098) by (apply Z.pow_pos_nonneg; lia).
  destruct x as [sx | sx | | sx mx ex]; [| | congruence |];
  destruct y as [sy | sy | | sy my ey]; try congruence;
    cbn [SFsub ord valid_binary] in *;
    try (pose proof (ord_finite_bounds _ _ Vx) as Bx);
    try (pose proof (ord_finite_bounds _ _ Vy) as By);
    set (T := 2 ^ 2098) in *; clearbody T.
  all: try solve
    [ repeat match goal with s : bool |- _ => destruct s end;
      cbn [cond_Zopp negb SFltb SFcompare]; symmetry;
      first [ apply Z.ltb_lt; lia | apply Z.ltb_ge; lia ] ].
  pose proof (bounded_inv _ _ Vx) as (Hex & _).
  pose proof (bounded_inv _ _ Vy) as (Hey & _).
  set (ez := Z.min ey ex).
  assert (Hez : -1074 <= ez) by (subst ez; lia).
  rewrite (ord_aligned sx mx ex ez), (ord_aligned sy my ey ez)
    by (subst ez; lia).
  set (A := cond_Zopp sy (Zpos (fst (shl_align my ey ez)))).
  set (B := cond_Zopp sx (Zpos (fst (shl_align mx ex ez)))).
  assert (HQ : 0 < 2 ^ (ez + 1074)) by (apply Z.pow_pos_nonneg; lia).
  set (Q := 2 ^ (ez + 1074)) in *. clearbody Q.
  unfold binary_normalize.
  destruct (A - B) as [|p|p] eqn:D.
  - cbn [SFltb SFcompare]. symmetry. apply Z.ltb_ge. nia.
  - destruct (binary_round_sign false p ez Hez) as [(m' & e' & ->) | ->];
      cbn [SFltb SFcompare]; symmetry; apply Z.ltb_lt; nia.
  - destruct (binary_round_sign true p ez Hez) as [(m' & e' & ->) | ->];
      cbn [SFltb SFcompare]; symmetry; apply Z.ltb_ge; nia.
Qed.

Lemma is_nan_number x : PrimFloat.is_nan x = false -> is_number (Prim2SF x).
Proof.
  intros H. split; [|apply Prim2SF_valid].
  intros E. unfold PrimFloat.is_nan in H. rewrite FloatAxioms.eqb_spec, E in H.
  discriminate H.
Qed.

Lemma ltb_rank x y :
  PrimFloat.is_nan x = false -> PrimFloat.is_nan y = false ->
  (x <? y)%float = (rank x <? rank y).
Proof.
  intros Hx Hy. rewrite ltb_spec. unfold SFltb, rank.
  rewrite (compare_ord _ _ (is_nan_number x Hx) (is_nan_number y Hy)).
  unfold Z.ltb. now destruct (_ ?= _).
Qed.

Lemma leb_rank x y :
  PrimFloat.is_nan x = false -> PrimFloat.is_nan y = false ->
  (x <=? y)%float = (rank x <=? rank y).
Proof.
  intros Hx Hy. rewrite leb_spec. unfold SFleb, rank.
  rewrite (compare_ord _ _ (is_nan_number x Hx) (is_nan_number y Hy)).
  unfold Z.leb. now destruct (_ ?= _).
Qed.

Lemma sub_rank x y :
  PrimFloat.is_nan x = false -> PrimFloat.is_nan y = false ->
  (0 <? y - x)%float = (rank x <? rank y).
Proof.
  intros Hx Hy. rewrite ltb_spec, sub_spec.
  change (Prim2SF 0) with (S754_zero false).
  apply sub_ord; now apply is_nan_number.
Qed.

Lemma number_is_nan x : Prim2SF x <> S754_nan -> PrimFloat.is_nan x = false.
Proof.
  intros H. unfold PrimFloat.is_nan. rewrite FloatAxioms.eqb_spec.
  unfold SFeqb.
  rewrite (compare_ord (Prim2SF x) (Prim2SF x))
    by (split; [exact H | apply Prim2SF_valid]).
  now rewrite Z.compare_refl.
Qed.

Lemma not_negative_rank x :
  not_negative x = true <-> PrimFloat.is_nan x = false /\ 0 <= rank x.
Proof.
  unfold not_negative. rewrite andb_true_iff, !negb_true_iff. split.
  - intros [Hn Hlt]. split; [exact Hn|].
    rewrite (ltb_rank x 0 Hn eq_refl) in Hlt.
    change (rank 0) with 0 in Hlt. now apply Z.ltb_ge in Hlt.
  - intros [Hn Hr]. split; [exact Hn|].
    rewrite (ltb_rank x 0 Hn eq_refl). change (rank 0) with 0.
    now apply Z.ltb_ge.
Qed.

(** The numbers that are not negative, among the valid ones. *)
Lemma not_negative_cases s :
  valid_binary s = true -> s <> S754_nan -> 0 <= ord s ->
  match s with
  | S754_zero _ => True
  | S754_infinity b | S754_finite b _ _ => b = false
  | S754_nan => False
  end.
Proof.
  intros V Hn Ho. destruct s as [b | b | | b m e]; cbn [ord valid_binary] in *.
  - exact I.
  - destruct b; [|reflexivity]. cbn [cond_Zopp] in Ho.
    assert (0 < 2 ^ 2098) by (apply Z.pow_pos_nonneg; lia). lia.
  - congruence.
  - destruct b; [|reflexivity]. cbn [cond_Zopp] in Ho.
    pose proof (ord_finite_bounds _ _ V). lia.
Qed.

Lemma shr_fexp_nonneg m e l :
  0 <= m -> 0 <= shr_m (fst (shr_fexp prec emax m e l)).
Proof.
  intros Hm. unfold shr_fexp, shr.
  destruct (fexp prec emax (Zdigits2 m + e) - e) as [|k|k];
    cbn [fst]; rewrite ?shr_record_of_loc_m; try exact Hm.
  rewrite iter_pos_iter, iter_shr_1 by (rewrite shr_record_of_loc_m; lia).
  rewrite shr_record_of_loc_m. apply Z.div_pos; [exact Hm|].
  apply Z.pow_pos_nonneg; lia.
Qed.

Lemma round_nearest_even_nonneg m l : 0 <= m -> 0 <= round_nearest_even m l.
Proof.
  intros H. destruct l as [|[| |]]; cbn [round_nearest_even]; try lia.
  destruct (Z.even m); lia.
Qed.

Lemma binary_round_aux_nonneg m e l :
  0 <= m ->
  match binary_round_aux prec emax false m e l with
  | S754_zero b | S754_infinity b | S754_finite b _ _ => b = false
  | S754_nan => False
  end.
Proof.
  intros Hm. unfold binary_round_aux.
  pose proof (shr_fexp_nonneg m e l Hm) as H1.
  destruct (shr_fexp prec emax m e l) as [mrs' e']. cbn [fst] in H1.
  pose proof (round_nearest_even_nonneg _ (loc_of_shr_record mrs') H1) as H2.
  pose proof (shr_fexp_nonneg _ e' loc_Exact H2) as H3.
  destruct (shr_fexp prec emax _ e' loc_Exact) as [mrs'' e''].
  cbn [fst] in H3.
  destruct (shr_m mrs'') as [|p|p];
    [reflexivity | now destruct (e'' <=? emax - prec) | lia].
Qed.

Lemma add_not_negative x y :
  not_negative x = true -> not_negative y = true ->
  not_negative (x + y) = true.
Proof.
  rewrite !not_negative_rank. intros [Hx Rx] [Hy Ry].
  pose proof (is_nan_number x Hx) as [Nx Vx].
  pose proof (is_nan_number y Hy) as [Ny Vy].
  pose proof (not_negative_cases _ Vx Nx Rx) as Cx.
  pose proof (not_negative_cases _ Vy Ny Ry) as Cy.
  unfold rank in *. rewrite add_spec.
  assert (G : SF64add (Prim2SF x) (Prim2SF y) <> S754_nan
              /\ 0 <= ord (SF64add (Prim2SF x) (Prim2SF y))).
  { unfold SF64add.
    destruct (Prim2SF x) as [bx | bx | | bx mx ex];
      destruct (Prim2SF y) as [b' | b' | | b' my ey];
      try contradiction; subst;
      repeat match goal with b : bool |- _ => destruct b end;
      cbn [SFadd];
      try (split; [discriminate | assumption]);
      try (split; [discriminate | cbn [ord]; lia]).
    cbn [valid_binary] in Vx, Vy.
    pose proof (bounded_inv _ _ Vx) as (Hex & _).
    pose proof (bounded_inv _ _ Vy) as (Hey & _).
    cbn [cond_Zopp Z.add binary_normalize].
    destruct (binary_round_sign false
                (fst (shl_align mx ex (Z.min ex ey))
                 + fst (shl_align my ey (Z.min ex ey)))%positive
                (Z.min ex ey)) as [(m' & e' & ->) | ->]; [lia | |];
      (split; [discriminate|]); cbn [ord cond_Zopp].
    - apply Z.mul_nonneg_nonneg; [lia|]. apply Z.pow_nonneg. lia.
    - apply Z.pow_nonneg. lia. }
  destruct G as [G1 G2]. split; [|exact G2].
  apply number_is_nan. now rewrite add_spec.
Qed.

Lemma times_twelve_percent_not_negative x :
  not_negative x = true -> not_negative (x * twelve_percent) = true.
Proof.
  rewrite !not_negative_rank. intros [Hx Rx].
  pose proof (is_nan_number x Hx) as [Nx Vx].
  pose proof (not_negative_cases _ Vx Nx Rx) as Cx.
  unfold rank in *. rewrite mul_spec.
  change (Prim2SF twelve_percent)
    with (S754_finite false 8646911284551352 (-56)).
  assert (G : SF64mul (Prim2SF x) (S754_finite false 8646911284551352 (-56))
              <> S754_nan
              /\ 0 <= ord (SF64mul (Prim2SF x)
                             (S754_finite false 8646911284551352 (-56)))).
  { unfold SF64mul.
    destruct (Prim2SF x) as [bx | bx | | bx mx ex];
      try contradiction; subst; cbn [SFmul xorb];
      try (split; [discriminate | cbn [ord cond_Zopp];
                   first [lia | apply Z.pow_nonneg; lia]]).
    pose proof (binary_round_aux_nonneg
                    (Zpos (mx * 8646911284551352)) (ex + -56) loc_Exact
                    ltac:(lia)) as H.
    destruct (binary_round_aux prec emax false _ _ loc_Exact)
        as [b | b | | b m e]; try contradiction; subst;
        (split; [discriminate|]); cbn [ord cond_Zopp];
        first [ lia | apply Z.pow_nonneg; lia
              | apply Z.mul_nonneg_nonneg; [lia | apply Z.pow_nonneg; lia] ]. }
  destruct G as [G1 G2]. split; [|exact G2].
  apply number_is_nan. now rewrite mul_spec.
Qed.

End Binary64.

(* ================================================================== *)
(** * Sorting *)
(* ================================================================== *)

Section SortFacts.
Context {A : Type} (leb : A -> A -> bool).

Lemma insert_sorted_perm x l : Permutation (insert_sorted leb x l) (x :: l).
Proof.
  induction l as [|y l IH]; simpl; [reflexivity|].
  destruct (leb x y); [reflexivity|].
  rewrite IH. apply perm_swap.
Qed.

Lemma stable_sort_perm l : Permutation (stable_sort leb l) l.
Proof.
  induction l as [|x l IH]; simpl; [reflexivity|].
  rewrite insert_sorted_perm. now constructor.
Qed.

Lemma stable_sort_In x l : In x (stable_sort leb l) <-> In x l.
Proof.
  split; apply Permutation_in;
    [apply stable_sort_perm | symmetry; apply stable_sort_perm].
Qed.

Hypothesis leb_total : forall x y, leb x y = true \/ leb y x = true.
Hypothesis leb_trans :
  forall x y z, leb x y = true -> leb y z = true -> leb x z = true.

Lemma insert_sorted_sorted x l :
  StronglySorted (fun a b => leb a b = true) l ->
  StronglySorted (fun a b => leb a b = true) (insert_sorted leb x l).
Proof.
  induction 1 as [|y l Hs IH Hy]; simpl.
  - repeat constructor.
  - destruct (leb x y) eqn:E.
    + constructor; [now constructor|].
      constructor; [exact E|].
      eapply Forall_impl; [|exact Hy]. intros z Hz. eauto.
    + constructor; [exact IH|].
      eapply Permutation_Forall; [symmetry; apply insert_sorted_perm|].
      constructor; [|exact Hy].
      destruct (leb_total x y); congruence.
Qed.

Lemma stable_sort_sorted l :
  StronglySorted (fun a b => leb a b = true) (stable_sort leb l).
Proof.
  induction l as [|x l IH]; simpl; [constructor|].
  now apply insert_sorted_sorted.
Qed.
End SortFacts.

Lemma StronglySorted_weaken {A} (R S : A -> A -> Prop) (l : list A) :
  (forall a b, R a b -> S a b) -> StronglySorted R l -> StronglySorted S l.
Proof.
  intros HRS. induction 1 as [|x l _ IH Hx]; constructor; auto.
  eapply Forall_impl; [|exact Hx]. auto.
Qed.

(** Sorting elements on which the comparison is an order. *)
Section SortOn.
Context {A : Type} (leb : A -> A -> bool) (P : A -> Prop) (R : A -> A -> Prop).
Hypothesis leb_true : forall x y, P x -> P y -> leb x y = true -> R x y.
Hypothesis leb_false : forall x y, P x -> P y -> leb x y = false -> R y x.
Hypothesis R_trans :
  forall x y z, P x -> P y -> P z -> R x y -> R y z -> R x z.

Lemma insert_sorted_on x l :
  P x -> Forall P l -> StronglySorted R l ->
  StronglySorted R (insert_sorted leb x l).
Proof.
  intros Hx HP Hs. induction Hs as [|y l Hs IH Hy]; simpl.
  - repeat constructor.
  - inversion HP as [|? ? Py Pl]; subst.
    destruct (leb x y) eqn:E.
    + constructor; [now constructor|].
      constructor; [now apply leb_true|].
      rewrite Forall_forall in *. intros z Hz.
      apply (R_trans x y z); auto.
    + constructor; [now apply IH|].
      eapply Permutation_Forall; [symmetry; apply insert_sorted_perm|].
      constructor; [now apply leb_false | exact Hy].
Qed.

Lemma stable_sort_on l :
  Forall P l -> StronglySorted R (stable_sort leb l).
Proof.
  induction 1 as [|x l Hx Hl IH]; simpl; [constructor|].
  apply insert_sorted_on; [exact Hx | | exact IH].
  eapply Permutation_Forall; [symmetry; apply stable_sort_perm | exact Hl].
Qed.
End SortOn.

(** The comparator of [groupByDriver], [b.totalCommission -
    a.totalCommission], orders statements whose totals are numbers. *)
Lemma Array_sort_by_commission_sorted l :
  Forall (fun st =>
            PrimFloat.is_nan (DriverStatement.totalCommission st) = false) l ->
  StronglySorted
    (fun a b =>
       (DriverStatement.totalCommission b
        <=? DriverStatement.totalCommission a)%float = true)
    (Array_sort
       (fun a b =>
          (DriverStatement.totalCommission b
           - DriverStatement.totalCommission a)%float) l).
Proof.
  intros H. unfold Array_sort.
  apply (stable_sort_on _
           (fun st =>
              PrimFloat.is_nan (DriverStatement.totalCommission st) = false));
    [| | | exact H].
  - intros x y Hx Hy E. apply negb_true_iff in E.
    rewrite (sub_rank _ _ Hx Hy) in E. rewrite (leb_rank _ _ Hy Hx).
    apply Z.ltb_ge in E. now apply Z.leb_le.
  - intros x y Hx Hy E. apply negb_false_iff in E.
    rewrite (sub_rank _ _ Hx Hy) in E. rewrite (leb_rank _ _ Hx Hy).
    apply Z.ltb_lt in E. apply Z.leb_le. lia.
  - intros x y z Hx Hy Hz. rewrite (leb_rank _ _ Hy Hx), (leb_rank _ _ Hz Hy),
      (leb_rank _ _ Hz Hx), !Z.leb_le. lia.
Qed.

(** Sums of numbers that are not negative are such numbers. *)
Lemma sum_by_not_negative f l :
  (forall t, In t l -> not_negative (f t) = true) ->
  not_negative (sum_by f l) = true.
Proof.
  unfold sum_by.
  assert (G : forall acc,
            not_negative acc = true ->
            (forall t, In t l -> not_negative (f t) = true) ->
            not_negative (fold_left (fun acc t => (acc + f t)%float) l acc)
            = true).
  { induction l as [|t l IH]; intros acc Ha H; simpl; [exact Ha|].
    apply IH.
    - apply add_not_negative; [exact Ha | apply H; now left].
    - intros t' Ht'. apply H. now right. }
  apply G. reflexivity.
Qed.

Lemma amounts_not_negative_read t :
  amounts_not_negative t ->
  not_negative (fare_or_zero t) = true
  /\ not_negative (commission_or_fallback t) = true.
Proof.
  intros [Hf Hc].
  assert (F : not_negative (fare_or_zero t) = true).
  { unfold fare_or_zero.
    destruct (UnsettledTrip.agreed_fare t) as [f|]; [now apply Hf | reflexivity]. }
  split; [exact F|]. unfold commission_or_fallback.
  destruct (UnsettledTrip.platform_commission t) as [c|]; [now apply Hc|].
  now apply times_twelve_percent_not_negative.
Qed.

(* ================================================================== *)
(** * Grouping by driver *)
(* ================================================================== *)

Lemma Map_get_set k' k v m :
  Map_get k' (Map_set k v m)
  = if String.eqb k k' then Some v else Map_get k' m.
Proof.
  induction m as [|[k0 w] m IH]; simpl.
  - unfold Map_get. simpl. now destruct (String.eqb k k').
  - destruct (String.eqb k0 k) eqn:E0.
    + apply String.eqb_eq in E0. subst k0. unfold Map_get. simpl.
      now destruct (String.eqb k k').
    + unfold Map_get in *. simpl. destruct (String.eqb k0 k') eqn:E1.
      * apply String.eqb_eq in E1. subst k0.
        rewrite String.eqb_sym in E0. now rewrite E0.
      * exact IH.
Qed.

Lemma Map_has_get k m : Map_has k m = true <-> Map_get k m <> None.
Proof.
  unfold Map_has, Map_get. induction m as [|[k0 w] m IH]; simpl.
  - split; [discriminate | congruence].
  - destruct (String.eqb k0 k); simpl; [split; [discriminate | reflexivity]|].
    exact IH.
Qed.

Lemma Map_set_keys k v m :
  map fst (Map_set k v m)
  = if Map_has k m then map fst m else map fst m ++ [k].
Proof.
  unfold Map_has. induction m as [|[k0 w] m IH]; simpl; [reflexivity|].
  destruct (String.eqb k0 k) eqn:E; simpl; [reflexivity|].
  rewrite IH. now destruct (existsb _ m).
Qed.

Lemma Map_has_In k m : Map_has k m = true <-> In k (map fst m).
Proof.
  unfold Map_has. rewrite existsb_exists, in_map_iff. split.
  - intros [kv [Hin E]]. apply String.eqb_eq in E. eauto.
  - intros [kv [E Hin]]. exists kv. split; [exact Hin|]. now apply String.eqb_eq.
Qed.

Lemma Map_set_NoDup k v m : NoDup (map fst m) -> NoDup (map fst (Map_set k v m)).
Proof.
  intros H. rewrite Map_set_keys. destruct (Map_has k m) eqn:E; [exact H|].
  apply NoDup_app; [exact H | repeat constructor; intros [] | ].
  intros x Hx [<- | []]. apply Map_has_In in Hx. congruence.
Qed.

Lemma Map_get_In k st m : Map_get k m = Some st -> In (k, st) m.
Proof.
  unfold Map_get. destruct (find _ m) as [[k0 w]|] eqn:E; [|discriminate].
  simpl. intros [= <-]. apply find_some in E. destruct E as [Hin E].
  simpl in E. apply String.eqb_eq in E. now subst k0.
Qed.

Lemma Map_In_get k st m : NoDup (map fst m) -> In (k, st) m -> Map_get k m = Some st.
Proof.
  unfold Map_get. induction m as [|[k0 w] m IH]; simpl; [tauto|].
  intros Hnd [E | Hin].
  - injection E as -> ->. now rewrite String.eqb_refl.
  - inversion Hnd as [|? ? Hk0 Hnd']; subst.
    destruct (String.eqb k0 k) eqn:E; [|now apply IH].
    apply String.eqb_eq in E. subst k0. exfalso. apply Hk0.
    apply in_map_iff. now exists (k, st).
Qed.

Lemma sum_by_snoc f l t : sum_by f (l ++ [t]) = (sum_by f l + f t)%float.
Proof. unfold sum_by. now rewrite fold_left_app. Qed.

Lemma in_group_inv k t :
  in_group k t = true ->
  eligible t = true /\ UnsettledTrip.driver_id t = Some k.
Proof.
  unfold in_group. intros H. apply andb_true_iff in H. destruct H as [He Hk].
  split; [exact He|].
  destruct (UnsettledTrip.driver_id t) as [k'|]; [|discriminate].
  apply String.eqb_eq in Hk. now subst.
Qed.

Lemma in_group_intro k t :
  eligible t = true -> UnsettledTrip.driver_id t = Some k -> in_group k t = true.
Proof.
  unfold in_group. intros -> ->. now rewrite String.eqb_refl.
Qed.

Lemma eligible_inv t :
  eligible t = true ->
  exists k d, UnsettledTrip.driver_id t = Some k
              /\ UnsettledTrip.driver t = Some d /\ truthy k = true.
Proof.
  unfold eligible.
  destruct (UnsettledTrip.driver_id t) as [k|]; [|discriminate].
  destruct (UnsettledTrip.driver t) as [d|]; [|discriminate]. eauto.
Qed.

Lemma filter_snoc {A} (p : A -> bool) l x :
  filter p (l ++ [x]) = filter p l ++ (if p x then [x] else []).
Proof. rewrite filter_app. simpl. now destruct (p x). Qed.

Lemma statement_of_none k seen :
  statement_of (filter (in_group k) seen) = None ->
  filter (in_group k) seen = [].
Proof.
  destruct (filter (in_group k) seen) as [|t ts] eqn:E; [reflexivity|].
  assert (Hin : In t (filter (in_group k) seen)) by (rewrite E; now left).
  apply filter_In in Hin. destruct Hin as [_ Hg].
  apply in_group_inv in Hg. destruct Hg as [He _].
  apply eligible_inv in He. destruct He as (k' & d & _ & Hd & _).
  simpl. now rewrite Hd.
Qed.

Lemma statement_of_snoc ts st t :
  statement_of ts = Some st -> statement_of (ts ++ [t]) = Some (add_trip t st).
Proof.
  destruct ts as [|t0 ts]; [discriminate|]. simpl.
  destruct (UnsettledTrip.driver t0) as [d|]; [|discriminate].
  intros [= <-]. unfold add_trip. simpl.
  change (t0 :: ts ++ [t]) with ((t0 :: ts) ++ [t]).
  now rewrite !sum_by_snoc.
Qed.

Lemma statement_of_single t d :
  UnsettledTrip.driver t = Some d ->
  statement_of [t] = Some (add_trip t (DriverStatement.mk d [] 0%float 0%float)).
Proof. intros H. simpl. now rewrite H. Qed.

Lemma step_ineligible m t : eligible t = false -> groupByDriver_step m t = m.
Proof.
  unfold eligible, groupByDriver_step.
  destruct (UnsettledTrip.driver_id t) as [k|]; [|reflexivity].
  destruct (UnsettledTrip.driver t) as [d|]; [|reflexivity].
  now intros ->.
Qed.

Lemma step_groups seen m t :
  groups_of seen m -> groups_of (seen ++ [t]) (groupByDriver_step m t).
Proof.
  intros [Hnd Hget].
  destruct (eligible t) eqn:He.
  2:{ rewrite step_ineligible by exact He. split; [exact Hnd|].
      intros k. rewrite filter_snoc.
      assert (in_group k t = false) as -> by (unfold in_group; now rewrite He).
      rewrite app_nil_r. apply Hget. }
  destruct (eligible_inv t He) as (k & d & Hk & Hd & Htruthy).
  unfold groupByDriver_step. rewrite Hk, Hd, Htruthy. cbn [negb].
  assert (Hother : forall k', String.eqb k k' = false ->
            filter (in_group k') (seen ++ [t]) = filter (in_group k') seen).
  { intros k' E. rewrite filter_snoc.
    assert (in_group k' t = false) as ->; [|apply app_nil_r].
    unfold in_group. rewrite Hk, E. apply andb_false_r. }
  assert (Hsame : filter (in_group k) (seen ++ [t])
                  = filter (in_group k) seen ++ [t]).
  { rewrite filter_snoc. now rewrite (in_group_intro k t He Hk). }
  destruct (Map_has k m) eqn:Hhas; cbn [negb].
  - (* the driver already has a statement *)
    destruct (Map_get k m) as [st|] eqn:Hst.
    2:{ apply Map_has_get in Hhas. contradiction. }
    split; [now apply Map_set_NoDup|].
    intros k'. rewrite Map_get_set.
    destruct (String.eqb k k') eqn:E.
    + apply String.eqb_eq in E. subst k'. rewrite Hsame.
      symmetry. apply statement_of_snoc. now rewrite <- Hget.
    + rewrite Hother by exact E. apply Hget.
  - (* first trip of the driver *)
    rewrite Map_get_set, String.eqb_refl.
    split; [now apply Map_set_NoDup, Map_set_NoDup|].
    intros k'. rewrite !Map_get_set.
    destruct (String.eqb k k') eqn:E.
    + apply String.eqb_eq in E. subst k'. rewrite Hsame.
      assert (Hnone : Map_get k m = None).
      { destruct (Map_get k m) eqn:G; [|reflexivity].
        assert (Map_has k m = true) by (apply Map_has_get; congruence).
        congruence. }
      rewrite Hget in Hnone. apply statement_of_none in Hnone.
      rewrite Hnone. simpl app. symmetry. now apply statement_of_single.
    + rewrite Hother by exact E. apply Hget.
Qed.

Lemma fold_groups trips seen m :
  groups_of seen m ->
  groups_of (seen ++ trips) (fold_left groupByDriver_step trips m).
Proof.
  revert seen m. induction trips as [|t trips IH]; intros seen m H; simpl.
  - now rewrite app_nil_r.
  - change (t :: trips) with ([t] ++ trips). rewrite app_assoc.
    apply IH. now apply step_groups.
Qed.

Lemma groupByDriver_groups trips :
  groups_of trips (fold_left groupByDriver_step trips []).
Proof.
  apply (fold_groups trips [] []). split; [constructor|]. intros k. reflexivity.
Qed.

(** Membership in the result, in terms of the groups. *)
Lemma groupByDriver_In trips st :
  In st (groupByDriver trips)
  <-> exists k, statement_of (filter (in_group k) trips) = Some st.
Proof.
  destruct (groupByDriver_groups trips) as [Hnd Hget].
  unfold groupByDriver, Array_sort. rewrite stable_sort_In.
  unfold Map_values. rewrite in_map_iff. split.
  - intros [[k st'] [E Hin]]. simpl in E. subst st'. exists k.
    rewrite <- Hget. now apply Map_In_get.
  - intros [k H]. rewrite <- Hget in H. apply Map_get_In in H.
    now exists (k, st).
Qed.

(** The trips of the statements are trips of the input. *)
Lemma groupByDriver_trips_In trips st t :
  In st (groupByDriver trips) -> In t (DriverStatement.trips st) -> In t trips.
Proof.
  intros Hst Ht. apply groupByDriver_In in Hst. destruct Hst as [k Hk].
  destruct (filter (in_group k) trips) as [|t0 ts] eqn:E; [discriminate|].
  simpl in Hk. destruct (UnsettledTrip.driver t0); [|discriminate].
  injection Hk as <-. cbn [DriverStatement.trips] in Ht. rewrite <- E in Ht.
  now apply filter_In in Ht.
Qed.

(** Every trip that passes the guard is in a statement. *)
Lemma groupByDriver_covers trips t k :
  In t trips ->
  UnsettledTrip.driver_id t = Some k -> k <> "" ->
  UnsettledTrip.driver t <> None ->
  exists st, In st (groupByDriver trips) /\ In t (DriverStatement.trips st).
Proof.
  intros Hin Hk Hne Hd.
  assert (He : eligible t = true).
  { unfold eligible. rewrite Hk.
    destruct (UnsettledTrip.driver t); [|contradiction].
    destruct k; [contradiction | reflexivity]. }
  assert (Hg : In t (filter (in_group k) trips)).
  { apply filter_In. split; [exact Hin|]. now apply in_group_intro. }
  destruct (statement_of (filter (in_group k) trips)) as [st|] eqn:Hst.
  - exists st. split; [apply groupByDriver_In; eauto|].
    destruct (filter (in_group k) trips) as [|t0 ts] eqn:E; [discriminate|].
    simpl in Hst. destruct (UnsettledTrip.driver t0); [|discriminate].
    now injection Hst as <-.
  - apply statement_of_none in Hst. rewrite Hst in Hg. destruct Hg.
Qed.

(** C4. [groupByDriver] groups its input by [driver_id]: every statement
    holds, in input order, exactly the trips of one driver id that pass the
    guard; trips with a null [driver_id] are in no statement; every trip
    with a non-empty [driver_id] and an embedded driver is in one; two trips
    with the same [driver_id] are never in different statements.  Each
    statement's [totalFare] is the sum of [agreed_fare] (null as 0), its
    [totalCommission] the sum of [platform_commission] (falling back to
    [(agreed_fare or 0) * 0.12]), both accumulated in binary64 from 0 in
    the order of the trips.  When no total is [NaN] the statements come
    sorted by descending [totalCommission]; no total is [NaN] when no amount
    of the input is negative or [NaN].  On the example the result is
    statement B (20000, 2400) before statement A (15000, 1800). *)
Theorem groupByDriver_statements (trips : list UnsettledTrip.t) :
  (forall st, In st (groupByDriver trips) ->
     exists k,
       DriverStatement.trips st
       = filter (fun t =>
                   match UnsettledTrip.driver_id t, UnsettledTrip.driver t with
                   | Some k', Some _ => truthy k' && String.eqb k' k
                   | _, _ => false
                   end) trips
       /\ DriverStatement.trips st <> []
       /\ DriverStatement.totalFare st
          = sum_by fare_or_zero (DriverStatement.trips st)
       /\ DriverStatement.totalCommission st
          = sum_by commission_or_fallback (DriverStatement.trips st))
  /\ (forall t st,
        UnsettledTrip.driver_id t = None ->
        In st (groupByDriver trips) -> ~ In t (DriverStatement.trips st))
  /\ (forall t k,
        In t trips ->
        UnsettledTrip.driver_id t = Some k -> k <> "" ->
        UnsettledTrip.driver t <> None ->
        exists st, In st (groupByDriver trips) /\ In t (DriverStatement.trips st))
  /\ (forall st1 st2 t1 t2,
        In st1 (groupByDriver trips) -> In st2 (groupByDriver trips) ->
        In t1 (DriverStatement.trips st1) -> In t2 (DriverStatement.trips st2) ->
        UnsettledTrip.driver_id t1 = UnsettledTrip.driver_id t2 ->
        st1 = st2)
  /\ ((forall st, In st (groupByDriver trips) ->
         PrimFloat.is_nan (DriverStatement.totalCommission st) = false) ->
      StronglySorted
        (fun a b =>
           (DriverStatement.totalCommission b
            <=? DriverStatement.totalCommission a)%float = true)
        (groupByDriver trips))
  /\ ((forall t, In t trips -> amounts_not_negative t) ->
      forall st, In st (groupByDriver trips) ->
        PrimFloat.is_nan (DriverStatement.totalFare st) = false
        /\ PrimFloat.is_nan (DriverStatement.totalCommission st) = false)
  /\ (forall stored, exists sB sA,
        groupByDriver (example_trips stored) = [sB; sA]
        /\ DriverStatement.driver sB = driver_B
        /\ DriverStatement.trips sB = [example_trip stored "trip3" driver_B 20000]
        /\ DriverStatement.totalFare sB = 20000%float
        /\ DriverStatement.totalCommission sB = 2400%float
        /\ DriverStatement.driver sA = driver_A
        /\ DriverStatement.trips sA
           = [example_trip stored "trip1" driver_A 10000;
              example_trip stored "trip2" driver_A 5000]
        /\ DriverStatement.totalFare sA = 15000%float
        /\ DriverStatement.totalCommission sA = 1800%float).
Proof.
  assert (Hshape : forall st k,
            statement_of (filter (in_group k) trips) = Some st ->
            DriverStatement.trips st = filter (in_group k) trips
            /\ DriverStatement.trips st <> []
            /\ DriverStatement.totalFare st
               = sum_by fare_or_zero (DriverStatement.trips st)
            /\ DriverStatement.totalCommission st
               = sum_by commission_or_fallback (DriverStatement.trips st)).
  { intros st k H. destruct (filter (in_group k) trips) as [|t ts];
      [discriminate|]. simpl in H.
    destruct (UnsettledTrip.driver t); [|discriminate].
    injection H as <-. simpl. repeat split. discriminate. }
  assert (Hguard : forall k t,
            in_group k t
            = match UnsettledTrip.driver_id t, UnsettledTrip.driver t with
              | Some k', Some _ => truthy k' && String.eqb k' k
              | _, _ => false
              end).
  { intros k t. unfold in_group, eligible.
    destruct (UnsettledTrip.driver_id t), (UnsettledTrip.driver t); reflexivity. }
  assert (Hmember : forall st t,
            In st (groupByDriver trips) -> In t (DriverStatement.trips st) ->
            exists k, statement_of (filter (in_group k) trips) = Some st
                      /\ UnsettledTrip.driver_id t = Some k).
  { intros st t Hst Ht. apply groupByDriver_In in Hst. destruct Hst as [k Hk].
    exists k. split; [exact Hk|].
    destruct (Hshape st k Hk) as (Hts & _). rewrite Hts in Ht.
    apply filter_In in Ht. destruct Ht as [_ Hg].
    now apply in_group_inv in Hg. }
  split.
  { intros st Hst. apply groupByDriver_In in Hst. destruct Hst as [k Hk].
    exists k. destruct (Hshape st k Hk) as (Hts & Hne & Hf & Hc).
    repeat split; auto. rewrite Hts. apply filter_ext. intros t. apply Hguard. }
  split.
  { intros t st Hnull Hst Ht.
    destruct (Hmember st t Hst Ht) as (k & _ & Hk). congruence. }
  split.
  { intros t k. apply groupByDriver_covers. }
  split.
  { intros st1 st2 t1 t2 H1 H2 Ht1 Ht2 Hsame.
    destruct (Hmember st1 t1 H1 Ht1) as (k1 & Hk1 & Hd1).
    destruct (Hmember st2 t2 H2 Ht2) as (k2 & Hk2 & Hd2).
    assert (k1 = k2) by congruence. subst k2. congruence. }
  split.
  { intros Hnan. unfold groupByDriver in *.
    apply Array_sort_by_commission_sorted.
    apply Forall_forall. intros st Hst. apply Hnan.
    unfold Array_sort. now apply stable_sort_In. }
  split.
  { intros Hpos st Hst. apply groupByDriver_In in Hst. destruct Hst as [k Hk].
    destruct (Hshape st k Hk) as (Hts & _ & Hf & Hc).
    assert (Hin : forall t, In t (DriverStatement.trips st) ->
                  not_negative (fare_or_zero t) = true
                  /\ not_negative (commission_or_fallback t) = true).
    { intros t Ht. apply amounts_not_negative_read, Hpos.
      rewrite Hts in Ht. now apply filter_In in Ht. }
    rewrite Hf, Hc. split.
    - apply (not_negative_rank (sum_by fare_or_zero _)).
      apply sum_by_not_negative. intros t Ht. now apply Hin.
    - apply (not_negative_rank (sum_by commission_or_fallback _)).
      apply sum_by_not_negative. intros t Ht. now apply Hin. }
  intros stored. destruct stored; do 2 eexists; vm_compute;
    repeat split; reflexivity.
Qed.

(* ================================================================== *)
(** * Rows after the page actions *)
(* ================================================================== *)






Lemma gt_zero_Num q : gt_zero (Num q) = true <-> (0 < q)%Q.
Proof.
  simpl. rewrite negb_true_iff. split; intros H.
  - apply Qnot_le_lt. intros Hle. apply Qle_bool_iff in Hle. congruence.
  - destruct (Qle_bool q 0) eqn:E; [|reflexivity].
    apply Qle_bool_iff in E. exfalso. eapply Qlt_not_le; eauto.
Qed.

(** C5. The assign-driver action on a trip of the Pending column, whose
    status is Pending (the card is clicked, then the modal confirmed).  With
    no driver selected, or a fare that is not a number, or a fare [<= 0],
    [handleConfirm] does nothing: modal, page and database stay as they
    were.  With a selected driver and a fare [> 0], one [UPDATE] statement
    stores, for the row of that trip, status Confirmed, the driver, the fare
    and the commission [fare * 0.12] recomputed exactly by the trigger, all
    other columns and rows unchanged, and logs the status change.  The card
    on the page gets the same status, driver and fare; its commission, like
    the one the modal previews, is the page's own binary64 product
    [fare * 0.12], which need not be the stored amount.  If the store
    reports an error, nothing changes and the modal shows the message. *)
Theorem assign_driver_action
    (fl : fault) (now : timestamptz) (m : MatchmakingModal.state)
    (trip : TripWithRelations) (s0 : Dashboard.state) (db : database) :
  In trip (Dashboard.tripsByStatus s0 Pending) ->
  let s := Dashboard.onCardClick Pending trip s0 in
  Trip.status (row trip) = Pending
  /\ (MatchmakingModal.selectedDriver (Dashboard.drivers s) m = None
   \/ MatchmakingModal.parsedFare m = NaN
   \/ (exists q, MatchmakingModal.parsedFare m = Num q /\ (q <= 0)%Q) ->
   MatchmakingModal.handleConfirm fl now m s db = (m, s, db))
  /\ (forall d fare,
        MatchmakingModal.selectedDriver (Dashboard.drivers s) m = Some d ->
        MatchmakingModal.parsedFare m = Num fare ->
        (0 < fare)%Q ->
        let db' :=
          mkDatabase (customers db) (drivers db)
            (map (fun r =>
                    if String.eqb (Trip.id r) (Trip.id (row trip))
                    then assigned_row (Driver.id (base d)) fare r else r)
               (trips db))
            (audit_logs db
             ++ flat_map
                  (fun r =>
                     if String.eqb (Trip.id r) (Trip.id (row trip))
                     then log_trip_status_change r
                            (assigned_row (Driver.id (base d)) fare r)
                     else [])
                  (trips db)) in
        MatchmakingModal.commission m
        = Some (binary64 fare * twelve_percent)%float
        /\ Forall2
             (fun r r' =>
                if String.eqb (Trip.id r) (Trip.id (row trip))
                then Trip.status r' = Confirmed
                     /\ Trip.driver_id r' = Some (Driver.id (base d))
                     /\ Trip.agreed_fare r' = Some fare
                     /\ Trip.platform_commission r'
                        = Some (fare * (12 # 100))%Q
                else r' = r)
             (trips db) (trips db')
        /\ trips_update None (eq_id (Trip.id (row trip)))
             (Dashboard.assignment_update d fare) db = (Data tt, db')
        /\ MatchmakingModal.handleConfirm fl now m s db
           = match fl with
             | Some message =>
                 (MatchmakingModal.mk (MatchmakingModal.selectedDriverId m)
                    (MatchmakingModal.parsedFare m) false (Some message),
                  s, db)
             | None =>
                 (MatchmakingModal.mk (MatchmakingModal.selectedDriverId m)
                    (MatchmakingModal.parsedFare m) true None,
                  Dashboard.set_selectedTrip None
                    (Dashboard.set_trips
                       (map (fun t =>
                               if String.eqb (Trip.id (row t)) (Trip.id (row trip))
                               then mkTripWithRelations
                                      (touched now
                                         (shown_assigned_row
                                            (Driver.id (base d)) fare (row t)))
                                      (customer t) (Some (base d))
                               else t)
                          (Dashboard.trips s))
                       s),
                  db')
             end).
Proof.
  intros Hcolumn s. split.
  { unfold Dashboard.tripsByStatus in Hcolumn. apply filter_In in Hcolumn.
    destruct Hcolumn as [_ E]. now destruct (Trip.status (row trip)). }
  split.
  - intros H. unfold MatchmakingModal.handleConfirm, MatchmakingModal.canConfirm.
    destruct (MatchmakingModal.selectedDriver (Dashboard.drivers s) m) as [d|];
      [|reflexivity].
    destruct H as [H | [H | [q [H Hq]]]]; [discriminate | |]; rewrite H;
      [reflexivity|].
    assert (gt_zero (Num q) = false) as ->; [|reflexivity].
    destruct (gt_zero (Num q)) eqn:E; [|reflexivity].
    apply gt_zero_Num in E. exfalso. eapply Qlt_not_le; eauto.
  - intros d fare Hd Hfare Hpos db'.
    assert (Hgt : gt_zero (Num fare) = true) by now apply gt_zero_Num.
    split; [|split; [|split]].
    + unfold MatchmakingModal.commission. now rewrite Hfare, Hgt.
    + subst db'. cbn [trips].
      induction (trips db) as [|r rows IH]; cbn [map]; constructor; [|exact IH].
      destruct (String.eqb (Trip.id r) (Trip.id (row trip)));
        [now repeat split | reflexivity].
    + rewrite trips_update_ok. reflexivity.
    + unfold MatchmakingModal.handleConfirm, MatchmakingModal.canConfirm.
      rewrite Hd, Hfare.
      assert (gt_zero (Num fare) = true) as -> by now apply gt_zero_Num.
      cbn [isNaN negb andb].
      unfold Dashboard.handleConfirmAssignment.
      change (Dashboard.selectedTrip s) with (Some trip). cbv iota beta.
      destruct fl as [message|]; [reflexivity|].
      rewrite trips_update_ok. reflexivity.
Qed.

(* ================================================================== *)
(** * Settling a statement *)
(* ================================================================== *)

Lemma in_id_In xs r : in_id xs r = true <-> In (Trip.id r) xs.
Proof.
  unfold in_id. rewrite existsb_exists. split.
  - intros [x [Hin E]]. apply String.eqb_eq in E. now subst.
  - intros H. exists (Trip.id r). split; [exact H | apply String.eqb_refl].
Qed.

Lemma in_id_not_In xs r : in_id xs r = false <-> ~ In (Trip.id r) xs.
Proof.
  rewrite <- in_id_In. destruct (in_id xs r); split; congruence.
Qed.

Lemma settle_update_ok tripIds db :
  trips_update None (in_id tripIds) Reconciliation.settle_update db
  = (Data tt, settled_db tripIds db).
Proof.
  rewrite trips_update_ok. rewrite quiet_update_logs by reflexivity.
  now rewrite app_nil_r.
Qed.

Lemma handleSettle_ok driverId tripIds s db :
  Reconciliation.handleSettle None driverId tripIds s db
  = (Resolved,
     Reconciliation.mk
       (filter (fun st => negb (String.eqb
                                  (DriverRef.id (DriverStatement.driver st))
                                  driverId))
          (Reconciliation.statements s))
       (Reconciliation.loading s) (Reconciliation.fetchError s)
       (Some "Balance settled successfully"),
     settled_db tripIds db).
Proof.
  unfold Reconciliation.handleSettle. now rewrite settle_update_ok.
Qed.

Lemma handleSettle_fault message driverId tripIds s db :
  Reconciliation.handleSettle (Some message) driverId tripIds s db
  = (Rejected message,
     Reconciliation.mk (Reconciliation.statements s) (Reconciliation.loading s)
       (Reconciliation.fetchError s)
       (Some "Error settling balance. Please try again."),
     db).
Proof. reflexivity. Qed.

(** The rows returned by the query of [fetchData]. *)
Lemma select_unsettled_In db t :
  In t (Reconciliation.select_unsettled db)
  <-> exists r, In r (trips db)
                /\ Trip.status r = Completed
                /\ Trip.commission_settled r = false
                /\ t = Reconciliation.to_unsettled db r.
Proof.
  unfold Reconciliation.select_unsettled, order_by_asc.
  rewrite in_map_iff. split.
  - intros [r [E Hin]]. apply stable_sort_In, filter_In in Hin.
    destruct Hin as [Hin Hc]. unfold Reconciliation.unsettled_completed in Hc.
    apply andb_true_iff in Hc. destruct Hc as [Hst Hse].
    exists r. repeat split; auto.
    + now destruct (Trip.status r).
    + now destruct (Trip.commission_settled r).
  - intros (r & Hin & Hst & Hse & ->). exists r. split; [reflexivity|].
    apply stable_sort_In, filter_In. split; [exact Hin|].
    unfold Reconciliation.unsettled_completed. now rewrite Hst, Hse.
Qed.

Lemma settled_db_In tripIds db r' :
  In r' (trips (settled_db tripIds db))
  <-> exists r, In r (trips db)
                /\ r' = if in_id tripIds r then settled_row r else r.
Proof.
  unfold settled_db. cbn [trips]. rewrite in_map_iff.
  split; intros [r [H1 H2]]; exists r; auto.
Qed.

Lemma settled_rows_Forall2 tripIds rows :
  Forall2 (fun OLD NEW =>
             (In (Trip.id OLD) tripIds -> NEW = settled_row OLD)
             /\ (~ In (Trip.id OLD) tripIds -> NEW = OLD))
    rows (map (fun r => if in_id tripIds r then settled_row r else r) rows).
Proof.
  induction rows as [|r rows IH]; simpl; constructor; [|exact IH].
  split; intros H.
  - apply in_id_In in H. now rewrite H.
  - apply in_id_not_In in H. now rewrite H.
Qed.

(** C6. [handleSettle(driverId, tripIds)], which a driver card calls with the
    ids of the trips of its statement, when the store accepts the write:
    [commission_settled] becomes true on exactly the rows whose id is in
    [tripIds], and nothing else of any row changes; a row not in the list,
    also one of the same driver, is left as it is; the next query of
    [fetchData] (Completed, [commission_settled = false]) returns no trip of
    the list, so no statement built from it holds one; and a Completed,
    unsettled trip outside the list is still returned by that query and,
    when its driver is known, still appears in a statement. *)
Theorem settle_marks_exactly_the_listed_trips
    (driverId : string) (tripIds : list uuid)
    (s : Reconciliation.state) (db : database) :
  let out := Reconciliation.handleSettle None driverId tripIds s db in
  let db' := snd out in
  (forall statement,
     Reconciliation.DriverCard_handleSettle None statement s db
     = Reconciliation.handleSettle None
         (DriverRef.id (DriverStatement.driver statement))
         (map UnsettledTrip.id (DriverStatement.trips statement)) s db)
  /\ fst (fst out) = Resolved
  /\ customers db' = customers db /\ drivers db' = drivers db
  /\ audit_logs db' = audit_logs db
  /\ Forall2 (fun OLD NEW =>
                (In (Trip.id OLD) tripIds -> NEW = settled_row OLD)
                /\ (~ In (Trip.id OLD) tripIds -> NEW = OLD))
       (trips db) (trips db')
  /\ (forall r, In r (trips db) -> ~ In (Trip.id r) tripIds -> In r (trips db'))
  /\ (forall t, In t (Reconciliation.select_unsettled db') ->
        ~ In (UnsettledTrip.id t) tripIds)
  /\ (forall st t,
        In st (Reconciliation.statements
                 (Reconciliation.fetchData None db' (snd (fst out)))) ->
        In t (DriverStatement.trips st) ->
        ~ In (UnsettledTrip.id t) tripIds)
  /\ (forall r,
        In r (trips db) -> ~ In (Trip.id r) tripIds ->
        Trip.status r = Completed -> Trip.commission_settled r = false ->
        In (Reconciliation.to_unsettled db r)
           (Reconciliation.select_unsettled db')
        /\ (forall k,
              Trip.driver_id r = Some k -> k <> "" -> driver_of db r <> None ->
              exists st,
                In st (Reconciliation.statements
                         (Reconciliation.fetchData None db' (snd (fst out))))
                /\ In (Reconciliation.to_unsettled db r)
                      (DriverStatement.trips st))).
Proof.
  intros out db'. subst out db'. rewrite handleSettle_ok. cbn [fst snd].
  assert (Hsel : forall t,
            In t (Reconciliation.select_unsettled (settled_db tripIds db)) ->
            ~ In (UnsettledTrip.id t) tripIds).
  { intros t Ht. apply select_unsettled_In in Ht.
    destruct Ht as (r' & Hin & _ & Hse & ->).
    apply settled_db_In in Hin. destruct Hin as (r & _ & ->).
    destruct (in_id tripIds r) eqn:E; [discriminate|].
    now apply in_id_not_In in E. }
  assert (Hkeep : forall r,
            In r (trips db) -> ~ In (Trip.id r) tripIds ->
            In r (trips (settled_db tripIds db))).
  { intros r Hin Hid. apply settled_db_In. exists r. split; [exact Hin|].
    apply in_id_not_In in Hid. now rewrite Hid. }
  assert (Hlater : forall r,
            In r (trips db) -> ~ In (Trip.id r) tripIds ->
            Trip.status r = Completed -> Trip.commission_settled r = false ->
            In (Reconciliation.to_unsettled db r)
              (Reconciliation.select_unsettled (settled_db tripIds db))).
  { intros r Hin Hid Hst Hse. apply select_unsettled_In. exists r.
    repeat split; auto. }
  split; [reflexivity|].
  split; [reflexivity|]. split; [reflexivity|]. split; [reflexivity|].
  split; [reflexivity|].
  split.
  { apply settled_rows_Forall2. }
  split; [exact Hkeep|]. split; [exact Hsel|].
  split.
  { intros st t Hst Ht.
    cbn [Reconciliation.fetchData Reconciliation.statements] in Hst.
    apply Hsel. eapply groupByDriver_trips_In; eauto. }
  intros r Hin Hid Hst Hse. split; [now apply Hlater|].
  intros k Hk Hne Hd. cbn [Reconciliation.fetchData Reconciliation.statements].
  apply (groupByDriver_covers _ (Reconciliation.to_unsettled db r) k); auto.
  simpl. destruct (driver_of db r); [discriminate | contradiction].
Qed.

Lemma settled_db_idempotent tripIds db :
  settled_db tripIds (settled_db tripIds db) = settled_db tripIds db.
Proof.
  unfold settled_db. cbn [customers drivers trips audit_logs]. f_equal.
  rewrite map_map. apply map_ext. intros r.
  destruct (in_id tripIds r) eqn:E.
  - assert (in_id tripIds (settled_row r) = true) as -> by exact E.
    reflexivity.
  - now rewrite E.
Qed.

Lemma filter_idempotent {A} (p : A -> bool) (l : list A) :
  filter p (filter p l) = filter p l.
Proof.
  induction l as [|a l IH]; simpl; [reflexivity|].
  destruct (p a) eqn:E; simpl; [rewrite E|]; now rewrite IH.
Qed.

(** C7. Settling the same ids a second time changes nothing: the second call
    returns normally and leaves the database and the page exactly as the
    first call left them, every listed trip being settled already; and if
    the store fails the second call, the database is still as the first
    call left it. *)
Theorem settle_twice_is_settle_once
    (driverId : string) (tripIds : list uuid)
    (s : Reconciliation.state) (db : database) (fl : fault) :
  let first := Reconciliation.handleSettle None driverId tripIds s db in
  let s1 := snd (fst first) in
  let db1 := snd first in
  Reconciliation.handleSettle None driverId tripIds s1 db1 = (Resolved, s1, db1)
  /\ Forall (fun r => In (Trip.id r) tripIds -> Trip.commission_settled r = true)
       (trips db1)
  /\ snd (Reconciliation.handleSettle fl driverId tripIds s1 db1) = db1.
Proof.
  intros first s1 db1. subst first s1 db1.
  rewrite (handleSettle_ok driverId tripIds s db).
  cbn [fst snd]. split; [|split].
  - rewrite handleSettle_ok, settled_db_idempotent.
    cbn [Reconciliation.statements Reconciliation.loading
         Reconciliation.fetchError].
    now rewrite filter_idempotent.
  - apply Forall_forall. intros r' Hin Hid.
    apply settled_db_In in Hin. destruct Hin as (r & _ & ->).
    destruct (in_id tripIds r) eqn:E; [reflexivity|].
    apply in_id_not_In in E. contradiction.
  - destruct fl as [message|]; [reflexivity|].
    now rewrite handleSettle_ok, settled_db_idempotent.
Qed.

(** C8. When the store write of [handleSettle] fails: the database is left
    as it was, so no trip of the list (nor any other) has
    [commission_settled] changed; the statements on the page are all kept;
    the toast shows "Error settling balance. Please try again."; and the
    handler throws the store's error to its caller. *)
Theorem settle_failure_changes_nothing
    (message : string) (driverId : string) (tripIds : list uuid)
    (s : Reconciliation.state) (db : database) :
  let out := Reconciliation.handleSettle (Some message) driverId tripIds s db in
  fst (fst out) = Rejected message
  /\ snd out = db
  /\ Forall2 (fun OLD NEW =>
                NEW = OLD
                /\ Trip.commission_settled NEW = Trip.commission_settled OLD)
       (trips db) (trips (snd out))
  /\ Reconciliation.statements (snd (fst out)) = Reconciliation.statements s
  /\ Reconciliation.toast (snd (fst out))
     = Some "Error settling balance. Please try again.".
Proof.
  intros out. subst out. rewrite handleSettle_fault. cbn [fst snd].
  repeat split.
  induction (trips db) as [|r rows IH]; constructor; auto.
Qed.

(* ================================================================== *)
(** * The created trip and its customer *)
(* ================================================================== *)

Lemma app_unit_inj {A} (l : list A) (x y : A) : l ++ [x] = l ++ [y] -> x = y.
Proof. intros H. apply app_inv_head in H. now injection H. Qed.

Lemma app_unit_neq {A} (l : list A) (x : A) : l <> l ++ [x].
Proof.
  intros H. apply (f_equal (@List.length A)) in H.
  rewrite length_app in H. simpl in H. lia.
Qed.

Lemma find_unique {A} (p : A -> bool) (l : list A) (a : A) :
  In a l -> p a = true ->
  (forall b, In b l -> p b = true -> b = a) ->
  find p l = Some a.
Proof.
  induction l as [|x l IH]; simpl; [tauto|].
  intros Hin Hp Huniq. destruct (p x) eqn:E.
  - f_equal. apply Huniq; auto.
  - destruct Hin as [-> | Hin]; [congruence|]. apply IH; auto.
Qed.

(** C9. Every run of [handleSubmit] either adds no trip, or adds exactly one
    row, which is the trip handed to the page and shown first; that row has
    status Pending, [driver_id], [agreed_fare] and [platform_commission]
    null, [commission_paid] false (and no verified amount, not settled).
    And a run does add a trip when the form can be submitted, is not being
    submitted, the date is valid and the store accepts its calls. *)
Theorem created_trip_starts_pending
    (e : NewTripModal.env) (m : NewTripModal.state)
    (s : Dashboard.state) (db : database) :
  let out := NewTripModal.handleSubmit e m s db in
  (trips (snd out) = trips db
   \/ exists r,
        trips (snd out) = trips db ++ [r]
        /\ Dashboard.trips (snd (fst out))
           = with_relations (snd out) r :: Dashboard.trips s
        /\ Trip.status r = Pending
        /\ Trip.driver_id r = None
        /\ Trip.agreed_fare r = None
        /\ Trip.platform_commission r = None
        /\ Trip.platform_commission r = deriveCommission (Trip.agreed_fare r)
        /\ Trip.commission_paid r = false
        /\ Trip.commission_settled r = false
        /\ Trip.customer_verified_amount r = None
        /\ Trip.driver_verified_amount r = None)
  /\ (NewTripModal.canSubmit m = true ->
      NewTripModal.submitting m = false ->
      NewTripModal.lookup_fault e = None ->
      NewTripModal.insert_customer_fault e = None ->
      NewTripModal.insert_trip_fault e = None ->
      NewTripModal.toISOString e (NewTripModal.pickupTime m) <> None ->
      exists r, trips (snd out) = trips db ++ [r]
                /\ Trip.id r = NewTripModal.new_trip_id e).
Proof.
  intros out. subst out. split.
  - destruct (handleSubmit_cases e m s db)
      as [[_ ->] | [_ (res & db' & H & ->)]]; [now left|].
    destruct H as [c pickup db' _ _ _ _ -> | pickup db' _ _ _ _ _ -> | |];
      cbn [fst snd trips]; auto; right; eexists;
      (split; [reflexivity|]); repeat split.
  - intros Hcan Hsub Hl Hc Ht Hiso.
    destruct (handleSubmit_cases e m s db)
      as [[Hg _] | [_ (res & db' & H & ->)]].
    { rewrite Hcan, Hsub in Hg. discriminate. }
    destruct H as [c pickup db' _ _ _ _ -> | pickup db' _ _ _ _ _ ->
                  | message H | message _ _ _ H];
      cbn [fst snd trips].
    + eexists. split; reflexivity.
    + eexists. split; reflexivity.
    + exfalso. destruct H as [H | [(_ & _ & H) | (_ & _ & H)]];
        try congruence. now apply trip_step_works in H.
    + exfalso. now apply trip_step_works in H.
Qed.

Lemma customer_by_phone_none phone db :
  customer_by_phone phone db = None ->
  forall c, In c (customers db) -> Customer.phone_number c <> phone.
Proof.
  unfold customer_by_phone. intros H c Hin E.
  apply (find_none _ _ H) in Hin. simpl in Hin.
  apply String.eqb_neq in Hin. contradiction.
Qed.

(** C10. With [phone] the trimmed phone number of the form.  If the
    customers table holds a customer [c] with that number (the only one,
    the column being unique), a run of [handleSubmit] leaves the customers
    table exactly as it was, whatever name and business type were typed, and
    a trip it creates has [customer_id = c.id].  In every run the customers
    table is either unchanged or has gained the one row built from the
    form, and the latter only when no customer had that number.  A valid
    form with a working store does create the trip in both cases. *)
Theorem returning_customer_is_reused
    (e : NewTripModal.env) (m : NewTripModal.state)
    (s : Dashboard.state) (db : database) :
  let phone := trim (NewTripModal.phoneNumber m) in
  let out := NewTripModal.handleSubmit e m s db in
  (forall c,
     In c (customers db) -> Customer.phone_number c = phone ->
     (forall c', In c' (customers db) -> Customer.phone_number c' = phone ->
                 c' = c) ->
     customers (snd out) = customers db
     /\ (forall r, trips (snd out) = trips db ++ [r] ->
                   Trip.customer_id r = Customer.id c))
  /\ (customers (snd out) = customers db
      \/ (customers (snd out) = customers db ++ [new_customer e m]
          /\ forall c, In c (customers db) -> Customer.phone_number c <> phone))
  /\ (NewTripModal.canSubmit m = true ->
      NewTripModal.submitting m = false ->
      NewTripModal.lookup_fault e = None ->
      NewTripModal.insert_customer_fault e = None ->
      NewTripModal.insert_trip_fault e = None ->
      NewTripModal.toISOString e (NewTripModal.pickupTime m) <> None ->
      exists r,
        trips (snd out) = trips db ++ [r]
        /\ match customer_by_phone phone db with
           | Some c =>
               Trip.customer_id r = Customer.id c
               /\ customers (snd out) = customers db
           | None =>
               Trip.customer_id r = NewTripModal.new_customer_id e
               /\ customers (snd out) = customers db ++ [new_customer e m]
           end).
Proof.
  intros phone out. subst out.
  destruct (handleSubmit_cases e m s db)
    as [[Hg ->] | [Hg (res & db' & H & ->)]].
  { cbn [snd]. split; [|split].
    - intros c _ _ _. split; [reflexivity|].
      intros r Hr. exfalso. now apply app_unit_neq in Hr.
    - now left.
    - intros Hcan Hsub. rewrite Hcan, Hsub in Hg. discriminate. }
  split; [|split].
  - intros c Hin Hphone Huniq.
    assert (Hfound : customer_by_phone phone db = Some c).
    { unfold customer_by_phone. apply find_unique; auto.
      - now apply String.eqb_eq.
      - intros b Hb Eb. apply Huniq; auto. now apply String.eqb_eq. }
    unfold phone in *.
    destruct H as [c0 pickup db' _ Hc0 _ _ -> | pickup db' _ Hnone _ _ _ ->
                  | message H | message _ Hnone _ _];
      cbn [fst snd trips customers]; try congruence.
    + split; [reflexivity|]. intros r Hr. apply app_unit_inj in Hr.
      subst r. cbn [new_trip Trip.customer_id]. congruence.
    + split; [reflexivity|]. intros r Hr. exfalso.
      now apply app_unit_neq in Hr.
  - unfold phone in *.
    destruct H as [c0 pickup db' _ Hc0 _ _ -> | pickup db' _ Hnone _ _ _ ->
                  | message H | message _ Hnone _ _];
      cbn [fst snd trips customers]; auto; right;
      (split; [reflexivity|]); now apply customer_by_phone_none.
  - intros _ _ Hl Hc Ht Hiso. unfold phone in *.
    destruct H as [c0 pickup db' _ Hc0 _ _ -> | pickup db' _ Hnone _ _ _ ->
                  | message H | message _ _ _ H];
      cbn [fst snd trips customers].
    + eexists. split; [reflexivity|]. rewrite Hc0. now split.
    + eexists. split; [reflexivity|]. rewrite Hnone. now split.
    + exfalso. destruct H as [H | [(_ & _ & H) | (_ & _ & H)]];
        try congruence. now apply trip_step_works in H.
    + exfalso. now apply trip_step_works in H.
Qed.

(* ================================================================== *)
(** * Concrete runs *)
(* ================================================================== *)

Lemma commission_follows_agreed_fare_witness :
  Trip.platform_commission (stored_row fare_and_commission_update pending_trip)
  = Some (1000 * (12 # 100))%Q.
Proof.
  destruct commission_follows_agreed_fare as (_ & _ & _ & _ & H & _).
  exact (proj1 (H fare_and_commission_update pending_trip eq_refl)).
Defined.

Lemma verification_safeguard_events_witness :
  verification_events customer_reports_90 (completed_trip "t3" false)
  = [mismatch_event "t3" 90 100].
Proof.
  destruct (verification_safeguard_events customer_reports_90) as [_ H].
  destruct (H (completed_trip "t3" false)) as (_ & _ & _ & Hev & _).
  refine (proj1 (Hev 90 100 eq_refl eq_refl _) _).
  - left. simpl. tauto.
  - unfold Qeq. simpl. discriminate.
Defined.

Lemma groupByDriver_statements_witness :
  (exists st,
     In st (groupByDriver (example_trips false))
     /\ In (example_trip false "trip1" driver_A 10000) (DriverStatement.trips st))
  /\ StronglySorted
       (fun a b =>
          (DriverStatement.totalCommission b
           <=? DriverStatement.totalCommission a)%float = true)
       (groupByDriver (example_trips false)).
Proof.
  destruct (groupByDriver_statements (example_trips false))
    as (_ & _ & H & _ & Hsorted & Hnumbers & _).
  split.
  - apply (H _ "A").
    + left. reflexivity.
    + reflexivity.
    + discriminate.
    + discriminate.
  - apply Hsorted. intros st Hst. apply Hnumbers; [|exact Hst].
    intros t [<- | [<- | [<- | []]]]; split; intros x [= <-]; reflexivity.
Defined.


Lemma assign_driver_action_witness :
  MatchmakingModal.handleConfirm None 30%Z (modal_with_fare (Num 0))
    (Dashboard.onCardClick Pending pending_card example_page) example_db
  = (modal_with_fare (Num 0),
     Dashboard.onCardClick Pending pending_card example_page, example_db)
  /\ map (fun r => (Trip.status r, Trip.driver_id r, Trip.agreed_fare r,
                    Trip.platform_commission r))
       (trips (snd (MatchmakingModal.handleConfirm None 30%Z
                      (modal_with_fare (Num 12345))
                      (Dashboard.onCardClick Pending pending_card example_page)
                      example_db)))
     = [(Confirmed, Some "d1", Some 12345, Some (12345 * (12 # 100))%Q)]
  /\ map (fun t => (Trip.status (row t), Trip.agreed_fare (row t),
                    Trip.platform_commission (row t)))
       (Dashboard.trips
          (snd (fst (MatchmakingModal.handleConfirm None 30%Z
                       (modal_with_fare (Num 12345))
                       (Dashboard.onCardClick Pending pending_card example_page)
                       example_db))))
     = [(Confirmed, Some 12345, Some (6515266101549465 # 4398046511104))]
  /\ MatchmakingModal.commission (modal_with_fare (Num 12345))
     = Some 0x1.7259999999999p+10%float.
Proof.
  assert (Hcolumn : In pending_card (Dashboard.tripsByStatus example_page Pending))
    by (left; reflexivity).
  split.
  - destruct (assign_driver_action None 30%Z (modal_with_fare (Num 0))
                pending_card example_page example_db Hcolumn) as (_ & H & _).
    apply H. right. right. exists 0. split; [reflexivity | discriminate].
  - destruct (assign_driver_action None 30%Z (modal_with_fare (Num 12345))
                pending_card example_page example_db Hcolumn) as (_ & _ & H).
    destruct (H (mkAvailableDriver example_driver ["Nakuru"]) 12345
                eq_refl eq_refl eq_refl) as (C & _ & _ & E).
    rewrite E, C. repeat split; reflexivity.
Defined.

Lemma settle_marks_exactly_the_listed_trips_witness :
  In (Reconciliation.to_unsettled unsettled_db (completed_trip "t4" false))
     (Reconciliation.select_unsettled
        (snd (Reconciliation.handleSettle None "d1" ["t3"]
                empty_reconciliation unsettled_db))).
Proof.
  destruct (settle_marks_exactly_the_listed_trips "d1" ["t3"]
              empty_reconciliation unsettled_db)
    as (_ & _ & _ & _ & _ & _ & _ & _ & _ & H).
  apply H.
  - right. left. reflexivity.
  - intros [E | []]. discriminate E.
  - reflexivity.
  - reflexivity.
Defined.

Lemma created_trip_starts_pending_witness :
  exists r,
    trips (snd (NewTripModal.handleSubmit working_env returning_form
                  example_page example_db))
    = trips example_db ++ [r]
    /\ Trip.id r = "t5".
Proof.
  destruct (created_trip_starts_pending working_env returning_form
              example_page example_db) as [_ H].
  apply H; try reflexivity. discriminate.
Defined.

Lemma returning_customer_is_reused_witness :
  customers (snd (NewTripModal.handleSubmit working_env returning_form
                    example_page example_db))
  = [example_customer].
Proof.
  destruct (returning_customer_is_reused working_env returning_form
              example_page example_db) as [H _].
  refine (proj1 (H example_customer _ _ _)).
  - left. reflexivity.
  - reflexivity.
  - intros c' [<- | []] _. reflexivity.
Defined.

(* ================================================================== *)
(** * The status trigger *)
(* ================================================================== *)

Lemma stored_row_status p OLD :
  Trip.status (stored_row p OLD)
  = Patch.or_old (Patch.status p) (Trip.status OLD).
Proof.
  unfold stored_row. destruct (fires_set_trip_commission p); [|reflexivity].
  unfold calculate_trip_commission.
  now destruct (Trip.agreed_fare (Patch.apply p OLD)).
Qed.

Lemma TripStatus_eqb_eq a b : TripStatus_eqb a b = true <-> a = b.
Proof. destruct a, b; simpl; split; intros H; congruence. Qed.

Lemma status_events_spec p OLD :
  status_events p OLD
  = if TripStatus_eqb (Trip.status (stored_row p OLD)) (Trip.status OLD)
    then []
    else [status_event (Trip.id OLD) (Trip.status OLD)
            (Trip.status (stored_row p OLD))].
Proof.
  unfold status_events, log_trip_status_change, fires_track_trip_status.
  rewrite stored_row_id.
  destruct (Patch.status p) as [v|] eqn:Hp; simpl.
  - now destruct (TripStatus_eqb _ _).
  - rewrite stored_row_status, Hp. simpl.
    assert (TripStatus_eqb (Trip.status OLD) (Trip.status OLD) = true) as ->
      by now apply TripStatus_eqb_eq.
    reflexivity.
Qed.

Lemma verification_events_not_status p OLD :
  filter is_status_event (verification_events p OLD) = [].
Proof.
  unfold verification_events, verify_trip_amounts.
  destruct (fires_check_verification_amounts p); [|reflexivity].
  destruct (Trip.customer_verified_amount (stored_row p OLD)); [|reflexivity].
  destruct (Trip.driver_verified_amount (stored_row p OLD)); [|reflexivity].
  destruct (_ || _); [|reflexivity].
  now destruct (negb (Qeq_bool _ _)).
Qed.

Lemma status_events_all p OLD :
  filter is_status_event (status_events p OLD) = status_events p OLD.
Proof.
  rewrite status_events_spec. now destruct (TripStatus_eqb _ _).
Qed.

(** X1. For an [UPDATE] of trips with any [SET] list: a row whose stored
    status differs from its old status gets exactly one [STATUS_UPDATE]
    audit row, holding the old and the new status and the message "Trip
    status changed from .. to .."; a row whose status stays the same gets
    none, even when the statement names [status]; and these are, row by
    row, all the status events among the audit rows the statement appends. *)
Theorem status_change_is_logged_once (p : Patch.t) :
  (forall OLD : Trip.t,
     let NEW := stored_row p OLD in
     (Trip.status NEW <> Trip.status OLD ->
      status_events p OLD
      = [status_event (Trip.id OLD) (Trip.status OLD) (Trip.status NEW)])
     /\ (Trip.status NEW = Trip.status OLD -> status_events p OLD = [])
     /\ filter is_status_event (snd (update_row p OLD)) = status_events p OLD)
  /\ (forall (cond : Trip.t -> bool) (db : database),
        exists logs,
          audit_logs (snd (trips_update None cond p db)) = audit_logs db ++ logs
          /\ filter is_status_event logs
             = flat_map (fun r => if cond r then status_events p r else [])
                 (trips db)).
Proof.
  assert (Hrow : forall OLD,
            filter is_status_event (snd (update_row p OLD))
            = status_events p OLD).
  { intros OLD. unfold update_row. cbn [snd]. rewrite filter_app.
    now rewrite verification_events_not_status, status_events_all. }
  split.
  - intros OLD NEW. subst NEW. rewrite status_events_spec. repeat split.
    + intros Hne.
      destruct (TripStatus_eqb _ _) eqn:E; [|reflexivity].
      apply TripStatus_eqb_eq in E. contradiction.
    + intros Heq. apply TripStatus_eqb_eq in Heq. now rewrite Heq.
    + rewrite <- status_events_spec. apply Hrow.
  - intros cond db. rewrite trips_update_ok. cbn [snd audit_logs].
    eexists. split; [reflexivity|].
    rewrite filter_flat_map. apply flat_map_ext. intros r.
    destruct (cond r); [apply Hrow | reflexivity].
Qed.

Lemma status_change_is_logged_once_witness :
  status_events (Dashboard.status_update InProgress) confirmed_trip
  = [status_event "t2" Confirmed InProgress].
Proof.
  destruct (status_change_is_logged_once (Dashboard.status_update InProgress))
    as [H _].
  destruct (H confirmed_trip) as [H1 _]. apply H1. discriminate.
Defined.

(* ================================================================== *)
(** * What the page actions leave alone *)
(* ================================================================== *)

Lemma same_booking_refl r : same_booking r r.
Proof. unfold same_booking. repeat split. Qed.

Lemma same_booking_all_refl rows : Forall2 same_booking rows rows.
Proof. induction rows; constructor; auto using same_booking_refl. Qed.

Lemma stored_row_same_booking p OLD :
  keeps_booking p = true -> same_booking OLD (stored_row p OLD).
Proof.
  unfold keeps_booking. rewrite negb_true_iff. intros H.
  repeat (apply orb_false_iff in H; destruct H as [H ?]).
  destruct p as [pc pd pl ppl pdl ppt pf ppc ps pcv pdv pcp pcs pca pua].
  simpl in *.
  destruct pc, pl, ppl, pdl, ppt, pcv, pdv, pcp, pca; try discriminate.
  unfold stored_row, fires_set_trip_commission, calculate_trip_commission.
  destruct OLD as [i c d l pl dl pt fare pcm st cv dv cp cs ca ua].
  destruct pf as [[f|]|]; simpl; unfold same_booking; simpl; repeat split.
Qed.

Lemma trips_update_frame fl (cond : Trip.t -> bool) p db :
  keeps_booking p = true ->
  let db' := snd (trips_update fl cond p db) in
  customers db' = customers db
  /\ drivers db' = drivers db
  /\ Forall2 same_booking (trips db) (trips db')
  /\ exists logs, audit_logs db' = audit_logs db ++ logs.
Proof.
  intros Hp db'. subst db'. destruct fl as [message|].
  - cbn [trips_update snd]. repeat split.
    + apply same_booking_all_refl.
    + exists []. now rewrite app_nil_r.
  - rewrite trips_update_ok. cbn [snd customers drivers trips audit_logs].
    repeat split.
    + induction (trips db) as [|r rows IH]; simpl; constructor; auto.
      destruct (cond r); [now apply stored_row_same_booking
                         | apply same_booking_refl].
    + eexists. reflexivity.
Qed.

Lemma handleConfirm_db fl now m s db :
  snd (MatchmakingModal.handleConfirm fl now m s db) = db
  \/ exists sel d fare,
       snd (MatchmakingModal.handleConfirm fl now m s db)
       = snd (trips_update None (eq_id (Trip.id (row sel)))
                (Dashboard.assignment_update d fare) db).
Proof.
  unfold MatchmakingModal.handleConfirm.
  destruct (MatchmakingModal.selectedDriver (Dashboard.drivers s) m) as [d|];
    [|now left].
  destruct (MatchmakingModal.parsedFare m) as [|fare]; [now left|].
  destruct (MatchmakingModal.canConfirm (Dashboard.drivers s) m); [|now left].
  pose proof (handleConfirmAssignment_db fl now d fare s db) as H.
  destruct (Dashboard.handleConfirmAssignment fl now d fare s db)
    as [[[|message] s'] db']; cbn [snd] in *;
    (destruct H as [-> | [sel [_ ->]]]; [now left | right; eauto]).
Qed.

(** X2. No page action deletes or rewrites what is already recorded.
    Assigning a driver, advancing and settling leave the customers and
    drivers tables as they are, keep every trip row in its place with its
    id, customer, load, locations, pickup time, verified amounts,
    [commission_paid] and [created_at], and only append to the audit log.
    Creating a trip leaves drivers and the audit log as they are and only
    appends: at most one customer row and at most one trip row. *)
Theorem page_actions_only_add (db : database) :
  (forall fl now m s,
     let db' := snd (MatchmakingModal.handleConfirm fl now m s db) in
     customers db' = customers db /\ drivers db' = drivers db
     /\ Forall2 same_booking (trips db) (trips db')
     /\ exists logs, audit_logs db' = audit_logs db ++ logs)
  /\ (forall fl now trip s,
        let db' := snd (Dashboard.handleAdvanceStatus fl now trip s db) in
        customers db' = customers db /\ drivers db' = drivers db
        /\ Forall2 same_booking (trips db) (trips db')
        /\ exists logs, audit_logs db' = audit_logs db ++ logs)
  /\ (forall fl driverId tripIds s,
        let db' := snd (Reconciliation.handleSettle fl driverId tripIds s db) in
        customers db' = customers db /\ drivers db' = drivers db
        /\ Forall2 same_booking (trips db) (trips db')
        /\ audit_logs db' = audit_logs db)
  /\ (forall e m s,
        let db' := snd (NewTripModal.handleSubmit e m s db) in
        drivers db' = drivers db /\ audit_logs db' = audit_logs db
        /\ exists new_customers new_trips,
             customers db' = customers db ++ new_customers
             /\ trips db' = trips db ++ new_trips
             /\ (List.length new_customers <= 1)%nat
             /\ (List.length new_trips <= 1)%nat).
Proof.
  assert (Hsame : forall fl (cond : Trip.t -> bool) p,
            keeps_booking p = true ->
            let db' := snd (trips_update fl cond p db) in
            customers db' = customers db /\ drivers db' = drivers db
            /\ Forall2 same_booking (trips db) (trips db')
            /\ exists logs, audit_logs db' = audit_logs db ++ logs).
  { intros fl cond p Hp. now apply trips_update_frame. }
  assert (Hid : customers db = customers db /\ drivers db = drivers db
                /\ Forall2 same_booking (trips db) (trips db)
                /\ exists logs, audit_logs db = audit_logs db ++ logs).
  { repeat split.
    - apply same_booking_all_refl.
    - exists []. now rewrite app_nil_r. }
  split; [|split; [|split]].
  - intros fl now m s db'. subst db'.
    destruct (handleConfirm_db fl now m s db) as [-> | (sel & d & fare & ->)];
      [exact Hid|].
    now apply Hsame.
  - intros fl now trip s db'. subst db'.
    destruct (handleAdvanceStatus_db fl now trip s db) as [-> | [cfg [_ ->]]];
      [exact Hid|].
    now apply Hsame.
  - intros fl driverId tripIds s db'. subst db'. rewrite handleSettle_db.
    destruct (Hsame fl (in_id tripIds) Reconciliation.settle_update eq_refl)
      as (Hc & Hd & Ht & _).
    repeat split; auto.
    destruct fl as [message|]; [reflexivity|].
    now rewrite settle_update_ok.
  - intros e m s db'. subst db'.
    destruct (handleSubmit_cases e m s db)
      as [[_ ->] | [_ (res & db' & H & ->)]].
    { cbn [snd]. repeat split. exists [], []. rewrite !app_nil_r.
      repeat split; simpl; lia. }
    destruct H as [c pickup db' _ _ _ _ -> | pickup db' _ _ _ _ _ -> | |];
      cbn [fst snd customers drivers trips audit_logs]; repeat split.
    + eexists [], [_]. rewrite app_nil_r. repeat split; simpl; lia.
    + eexists [_], [_]. repeat split; simpl; lia.
    + exists [], []. rewrite !app_nil_r. repeat split; simpl; lia.
    + eexists [_], []. rewrite app_nil_r. repeat split; simpl; lia.
Qed.

(* ================================================================== *)
(** * The columns of the dashboard *)
(* ================================================================== *)

Lemma columns_partition (cards : list TripWithRelations) :
  Permutation
    (flat_map (fun c => filter (fun t => TripStatus_eqb (Trip.status (row t)) c)
                          cards)
       STATUSES)
    cards.
Proof.
  unfold STATUSES. cbn [flat_map]. rewrite app_nil_r.
  induction cards as [|t cards IH]; [reflexivity|].
  cbn [filter]. destruct (Trip.status (row t)); cbn [TripStatus_eqb].
  - cbn [app]. now constructor.
  - apply Permutation_sym, Permutation_cons_app, Permutation_sym, IH.
  - rewrite app_assoc. cbn [app].
    apply Permutation_sym, Permutation_cons_app, Permutation_sym.
    rewrite <- app_assoc. exact IH.
  - rewrite 2 app_assoc. cbn [app].
    apply Permutation_sym, Permutation_cons_app, Permutation_sym.
    rewrite <- 2 app_assoc. exact IH.
Qed.

Lemma tripsByStatus_In s c t :
  In t (Dashboard.tripsByStatus s c)
  <-> In t (Dashboard.trips s) /\ Trip.status (row t) = c.
Proof.
  unfold Dashboard.tripsByStatus. rewrite filter_In.
  now rewrite TripStatus_eqb_eq.
Qed.

(** X3. The four columns of the board partition the trips of the page: put
    one after the other in the order of [STATUSES] they are a permutation
    of the trips, so every trip is on exactly one column and none is
    dropped or shown twice; a column holds exactly the trips of its status;
    and a trip on one column is on no other. *)
Theorem columns_partition_the_trips (s : Dashboard.state) :
  Permutation (flat_map (Dashboard.tripsByStatus s) STATUSES) (Dashboard.trips s)
  /\ (forall c t,
        In t (Dashboard.tripsByStatus s c)
        <-> In t (Dashboard.trips s) /\ Trip.status (row t) = c)
  /\ (forall c c' t,
        In t (Dashboard.tripsByStatus s c) ->
        In t (Dashboard.tripsByStatus s c') -> c = c')
  /\ List.length (Dashboard.trips s)
     = (List.length (Dashboard.tripsByStatus s Pending)
        + List.length (Dashboard.tripsByStatus s Confirmed)
        + List.length (Dashboard.tripsByStatus s InProgress)
        + List.length (Dashboard.tripsByStatus s Completed))%nat.
Proof.
  split; [apply columns_partition|].
  split; [apply tripsByStatus_In|].
  split.
  - intros c c' t H H'. apply tripsByStatus_In in H, H'.
    destruct H as [_ <-], H' as [_ <-]. reflexivity.
  - pose proof (Permutation_length (columns_partition (Dashboard.trips s))) as H.
    unfold STATUSES in H. cbn [flat_map] in H.
    rewrite !length_app in H. simpl in H.
    unfold Dashboard.tripsByStatus. lia.
Qed.

(** X4. On every card of the board at most one action is wired, decided by
    its status: a Pending card opens the matchmaking modal and has no
    advance button; a Confirmed or In Progress card has the advance button,
    whose handler then writes its one-step successor; a Completed card has
    neither. *)
Theorem card_has_one_action (s : Dashboard.state) (column : TripStatus)
    (trip : TripWithRelations) :
  In trip (Dashboard.tripsByStatus s column) ->
  advance_button column trip
  = match column with Confirmed | InProgress => true | _ => false end
  /\ column_onCardClick column
     = match column with Pending => true | _ => false end
  /\ advance_button column trip && column_onCardClick column = false
  /\ (column = Completed ->
      advance_button column trip = false /\ column_onCardClick column = false)
  /\ (advance_button column trip = true ->
      exists cfg,
        ADVANCE_CONFIG (Trip.status (row trip)) = Some cfg
        /\ successor column = Some (AdvanceConfig.next cfg)).
Proof.
  intros Hin. apply tripsByStatus_In in Hin. destruct Hin as [_ Hst].
  unfold advance_button. rewrite Hst.
  destruct column; simpl; repeat split; try discriminate; eauto.
Qed.

Lemma card_has_one_action_witness :
  advance_button Pending pending_card = false
  /\ column_onCardClick Pending = true.
Proof.
  assert (Hin : In pending_card (Dashboard.tripsByStatus example_page Pending))
    by (left; reflexivity).
  destruct (card_has_one_action example_page Pending pending_card Hin)
    as (H1 & H2 & _).
  split; [exact H1 | exact H2].
Defined.

(* ================================================================== *)
(** * Cards moving between the columns *)
(* ================================================================== *)

Lemma handleConfirm_ok now m s db sel d fare :
  Dashboard.selectedTrip s = Some sel ->
  MatchmakingModal.selectedDriver (Dashboard.drivers s) m = Some d ->
  MatchmakingModal.parsedFare m = Num fare ->
  (0 < fare)%Q ->
  MatchmakingModal.handleConfirm None now m s db
  = (MatchmakingModal.mk (MatchmakingModal.selectedDriverId m)
       (MatchmakingModal.parsedFare m) true None,
     Dashboard.set_selectedTrip None
       (Dashboard.set_trips
          (map (fun t => if String.eqb (Trip.id (row t)) (Trip.id (row sel))
                         then assigned_card now d fare t else t)
             (Dashboard.trips s))
          s),
     snd (trips_update None (eq_id (Trip.id (row sel)))
            (Dashboard.assignment_update d fare) db)).
Proof.
  intros Hsel Hd Hfare Hpos.
  unfold MatchmakingModal.handleConfirm, MatchmakingModal.canConfirm.
  rewrite Hd, Hfare.
  assert (gt_zero (Num fare) = true) as -> by now apply gt_zero_Num.
  cbn [isNaN negb andb]. unfold Dashboard.handleConfirmAssignment.
  rewrite Hsel. rewrite trips_update_ok. reflexivity.
Qed.

Lemma handleAdvanceStatus_ok now trip s db cfg :
  ADVANCE_CONFIG (Trip.status (row trip)) = Some cfg ->
  Dashboard.handleAdvanceStatus None now trip s db
  = (Resolved,
     Dashboard.set_trips
       (map (fun t => if String.eqb (Trip.id (row t)) (Trip.id (row trip))
                      then advanced_card now (AdvanceConfig.next cfg) t else t)
          (Dashboard.trips s))
       s,
     mkDatabase (customers db) (drivers db)
       (map (fun r => if String.eqb (Trip.id r) (Trip.id (row trip))
                      then with_status (AdvanceConfig.next cfg) r else r)
          (trips db))
       (audit_logs db
        ++ flat_map
             (fun r => if String.eqb (Trip.id r) (Trip.id (row trip))
                       then status_events
                              (Dashboard.status_update (AdvanceConfig.next cfg)) r
                       else [])
             (trips db))).
Proof.
  intros Hcfg. unfold Dashboard.handleAdvanceStatus. rewrite Hcfg.
  rewrite trips_update_ok. reflexivity.
Qed.

(** The column [c] of a list of cards in which the cards of one trip were
    replaced by cards of another status. *)
Lemma column_after_move (id : uuid) (f : TripWithRelations -> TripWithRelations)
    (c : TripStatus) (cards : list TripWithRelations) :
  (forall t, TripStatus_eqb (Trip.status (row (f t))) c = false) ->
  filter (fun t => TripStatus_eqb (Trip.status (row t)) c)
    (map (fun t => if String.eqb (Trip.id (row t)) id then f t else t) cards)
  = other_cards id
      (filter (fun t => TripStatus_eqb (Trip.status (row t)) c) cards).
Proof.
  intros Hf. unfold other_cards.
  induction cards as [|t cards IH]; [reflexivity|]. cbn [map filter].
  destruct (String.eqb (Trip.id (row t)) id) eqn:E.
  - rewrite Hf, IH.
    destruct (TripStatus_eqb (Trip.status (row t)) c); [|reflexivity].
    cbn [filter]. now rewrite E.
  - rewrite IH.
    destruct (TripStatus_eqb (Trip.status (row t)) c); [|reflexivity].
    cbn [filter]. now rewrite E.
Qed.

(** X5. After a successful assignment from the modal opened on [trip], the
    cards of that trip have left every column but Confirmed, each other
    column keeping its other cards in order; each of them is on the
    Confirmed column with the driver, the fare and, as its commission, the
    binary64 product [fare * 0.12] computed by the page; and the modal is
    closed. *)
Theorem assignment_moves_the_card
    (now : timestamptz) (m : MatchmakingModal.state)
    (trip : TripWithRelations) (s0 : Dashboard.state) (db : database)
    (d : AvailableDriver) (fare : Q) :
  MatchmakingModal.selectedDriver (Dashboard.drivers s0) m = Some d ->
  MatchmakingModal.parsedFare m = Num fare ->
  (0 < fare)%Q ->
  let s := Dashboard.onCardClick Pending trip s0 in
  let s' := snd (fst (MatchmakingModal.handleConfirm None now m s db)) in
  (forall c, c <> Confirmed ->
     Dashboard.tripsByStatus s' c
     = other_cards (Trip.id (row trip)) (Dashboard.tripsByStatus s0 c))
  /\ (forall t, In t (Dashboard.trips s0) ->
        Trip.id (row t) = Trip.id (row trip) ->
        In (assigned_card now d fare t) (Dashboard.tripsByStatus s' Confirmed)
        /\ Trip.agreed_fare (row (assigned_card now d fare t)) = Some fare
        /\ Trip.platform_commission (row (assigned_card now d fare t))
           = number_value (binary64 fare * twelve_percent)%float
        /\ driver (assigned_card now d fare t) = Some (base d))
  /\ (forall t, In t (Dashboard.tripsByStatus s0 Confirmed) ->
        Trip.id (row t) <> Trip.id (row trip) ->
        In t (Dashboard.tripsByStatus s' Confirmed))
  /\ Dashboard.selectedTrip s' = None.
Proof.
  intros Hd Hfare Hpos s s'. subst s s'.
  rewrite (handleConfirm_ok now m (Dashboard.onCardClick Pending trip s0) db
             trip d fare eq_refl Hd Hfare Hpos).
  cbn [fst snd]. split; [|split; [|split]].
  - intros c Hc. unfold Dashboard.tripsByStatus.
    cbn [Dashboard.trips Dashboard.set_trips Dashboard.set_selectedTrip
         Dashboard.onCardClick].
    apply column_after_move. intros t. now destruct c.
  - intros t Hin Hid. split; [|repeat split].
    apply tripsByStatus_In.
    cbn [Dashboard.trips Dashboard.set_trips Dashboard.set_selectedTrip
         Dashboard.onCardClick].
    split; [|reflexivity]. apply in_map_iff. exists t.
    split; [|exact Hin]. rewrite Hid. now rewrite String.eqb_refl.
  - intros t Hin Hid. apply tripsByStatus_In in Hin. destruct Hin as [Hin Hst].
    apply tripsByStatus_In.
    cbn [Dashboard.trips Dashboard.set_trips Dashboard.set_selectedTrip
         Dashboard.onCardClick].
    split; [|exact Hst]. apply in_map_iff. exists t.
    split; [|exact Hin]. apply String.eqb_neq in Hid. now rewrite Hid.
  - reflexivity.
Qed.

Lemma assignment_moves_the_card_witness :
  Dashboard.tripsByStatus
    (snd (fst (MatchmakingModal.handleConfirm None 30%Z
                 (modal_with_fare (Num 5000))
                 (Dashboard.onCardClick Pending pending_card example_page)
                 example_db)))
    Pending
  = [].
Proof.
  destruct (assignment_moves_the_card 30%Z (modal_with_fare (Num 5000))
              pending_card example_page example_db
              (mkAvailableDriver example_driver ["Nakuru"]) 5000
              eq_refl eq_refl eq_refl) as [H _].
  rewrite (H Pending); [reflexivity | discriminate].
Defined.

(** X6. After a run of [handleSubmit] that adds a trip row, the new trip is
    the first card of the Pending column, above the cards that were there;
    the other columns are as they were; the new-trip modal is closed and
    the toast says "Trip logged successfully".  After a run that adds no
    trip the page is as it was. *)
Theorem created_trip_tops_the_pending_column
    (e : NewTripModal.env) (m : NewTripModal.state)
    (s : Dashboard.state) (db : database) :
  let out := NewTripModal.handleSubmit e m s db in
  let s' := snd (fst out) in
  (trips (snd out) = trips db -> s' = s)
  /\ (forall r, trips (snd out) = trips db ++ [r] ->
        Dashboard.tripsByStatus s' Pending
        = with_relations (snd out) r :: Dashboard.tripsByStatus s Pending
        /\ (forall c, c <> Pending ->
              Dashboard.tripsByStatus s' c = Dashboard.tripsByStatus s c)
        /\ Dashboard.showNewTripModal s' = false
        /\ Dashboard.toast s' = Some "Trip logged successfully").
Proof.
  intros out s'. subst out s'.
  destruct (handleSubmit_cases e m s db)
    as [[_ ->] | [_ (res & db' & H & ->)]].
  { cbn [fst snd]. split; [reflexivity|].
    intros r Hr. exfalso. now apply app_unit_neq in Hr. }
  destruct H as [c pickup db' _ _ _ _ -> | pickup db' _ _ _ _ _ -> | |];
    cbn [fst snd trips];
    try (split; [reflexivity|]; intros r Hr; exfalso;
         now apply app_unit_neq in Hr).
  - split; [intros Hr; exfalso; symmetry in Hr; now apply app_unit_neq in Hr|].
    intros r Hr. apply app_unit_inj in Hr. subst r.
    repeat split. intros c' Hc'. unfold Dashboard.tripsByStatus. simpl.
    now destruct c'.
  - split; [intros Hr; exfalso; symmetry in Hr; now apply app_unit_neq in Hr|].
    intros r Hr. apply app_unit_inj in Hr. subst r.
    repeat split. intros c' Hc'. unfold Dashboard.tripsByStatus. simpl.
    now destruct c'.
Qed.

Lemma created_trip_tops_the_pending_column_witness :
  List.length
    (Dashboard.tripsByStatus
       (snd (fst (NewTripModal.handleSubmit working_env returning_form
                    example_page example_db)))
       Pending)
  = 2%nat.
Proof.
  destruct (created_trip_tops_the_pending_column working_env returning_form
              example_page example_db) as [_ H].
  destruct (H (new_trip working_env returning_form "c1" 60%Z) eq_refl)
    as [E _].
  rewrite E. reflexivity.
Defined.

(* ================================================================== *)
(** * Advancing, again and again *)
(* ================================================================== *)

Lemma with_status_twice a b r : with_status b (with_status a r) = with_status b r.
Proof. reflexivity. Qed.

(** X7. Two advances complete a confirmed trip, and a third does nothing.
    Starting from a Confirmed card, advancing it and then advancing the card
    as the page shows it after the first advance leaves every row of that
    trip Completed, with nothing else changed in any row; the card of the
    page follows at each step; and advancing the resulting card once more,
    whether or not the store would fail, returns without an error and
    leaves the page and the database untouched. *)
Theorem two_advances_complete_the_trip
    (now1 now2 now3 : timestamptz) (fl3 : fault) (trip : TripWithRelations)
    (s : Dashboard.state) (db : database) :
  Trip.status (row trip) = Confirmed ->
  let first := Dashboard.handleAdvanceStatus None now1 trip s db in
  let card1 := advanced_card now1 InProgress trip in
  let second :=
    Dashboard.handleAdvanceStatus None now2 card1 (snd (fst first)) (snd first) in
  let card2 := advanced_card now2 Completed card1 in
  trips (snd first)
  = map (fun r => if String.eqb (Trip.id r) (Trip.id (row trip))
                  then with_status InProgress r else r) (trips db)
  /\ trips (snd second)
     = map (fun r => if String.eqb (Trip.id r) (Trip.id (row trip))
                     then with_status Completed r else r) (trips db)
  /\ (In trip (Dashboard.trips s) ->
      In card1 (Dashboard.tripsByStatus (snd (fst first)) InProgress)
      /\ In card2 (Dashboard.tripsByStatus (snd (fst second)) Completed))
  /\ Dashboard.handleAdvanceStatus fl3 now3 card2 (snd (fst second)) (snd second)
     = (Resolved, snd (fst second), snd second).
Proof.
  intros Hst first card1 second card2. subst first card1 second card2.
  assert (H1 : ADVANCE_CONFIG (Trip.status (row trip))
               = ADVANCE_CONFIG Confirmed) by now rewrite Hst.
  rewrite (handleAdvanceStatus_ok now1 trip s db _ H1).
  cbn [fst snd AdvanceConfig.next ADVANCE_CONFIG].
  rewrite (handleAdvanceStatus_ok now2 (advanced_card now1 InProgress trip)
             _ _ _ eq_refl).
  cbn [fst snd AdvanceConfig.next ADVANCE_CONFIG trips Dashboard.trips
       Dashboard.set_trips advanced_card row touched with_status Trip.id].
  split; [reflexivity|]. split.
  { rewrite map_map. apply map_ext. intros r.
    destruct (String.eqb (Trip.id r) (Trip.id (row trip))) eqn:E.
    - cbn [with_status Trip.id]. now rewrite E.
    - now rewrite E. }
  split.
  - intros Hin. split.
    + apply tripsByStatus_In. split; [|reflexivity].
      cbn [Dashboard.trips Dashboard.set_trips].
      apply in_map_iff. exists trip. split; [|exact Hin].
      now rewrite String.eqb_refl.
    + apply tripsByStatus_In. split; [|reflexivity].
      cbn [Dashboard.trips Dashboard.set_trips].
      apply in_map_iff.
      exists (advanced_card now1 InProgress trip). split.
      * cbn [advanced_card row touched with_status Trip.id].
        now rewrite String.eqb_refl.
      * apply in_map_iff. exists trip. split; [|exact Hin].
        now rewrite String.eqb_refl.
  - reflexivity.
Qed.

Lemma two_advances_complete_the_trip_witness :
  map Trip.status
    (trips
       (snd (Dashboard.handleAdvanceStatus None 40%Z
               (advanced_card 30%Z InProgress confirmed_card)
               (snd (fst (Dashboard.handleAdvanceStatus None 30%Z
                            confirmed_card confirmed_page confirmed_db)))
               (snd (Dashboard.handleAdvanceStatus None 30%Z confirmed_card
                       confirmed_page confirmed_db)))))
  = [Pending; Completed].
Proof.
  destruct (two_advances_complete_the_trip 30%Z 40%Z 50%Z None confirmed_card
              confirmed_page confirmed_db eq_refl) as (_ & H & _).
  rewrite H. reflexivity.
Defined.

(** X8. [handleAdvanceStatus] never reads the stored status: the status it
    writes comes from the card alone.  So a card that still shows
    Confirmed, for a trip whose row is already Completed, moves that row
    back to In Progress, and the audit log records the change from
    Completed to In Progress. *)
Theorem stale_card_moves_the_row_back
    (now : timestamptz) (card : TripWithRelations) (s : Dashboard.state)
    (db : database) (r : Trip.t) :
  In r (trips db) ->
  Trip.id r = Trip.id (row card) ->
  Trip.status r = Completed ->
  Trip.status (row card) = Confirmed ->
  let out := Dashboard.handleAdvanceStatus None now card s db in
  fst (fst out) = Resolved
  /\ In (with_status InProgress r) (trips (snd out))
  /\ In (status_event (Trip.id r) Completed InProgress) (audit_logs (snd out)).
Proof.
  intros Hin Hid Hr Hcard out. subst out.
  assert (H1 : ADVANCE_CONFIG (Trip.status (row card))
               = ADVANCE_CONFIG Confirmed) by now rewrite Hcard.
  rewrite (handleAdvanceStatus_ok now card s db _ H1).
  cbn [fst snd AdvanceConfig.next ADVANCE_CONFIG trips audit_logs].
  split; [reflexivity|]. split.
  - apply in_map_iff. exists r. split; [|exact Hin].
    rewrite Hid. now rewrite String.eqb_refl.
  - apply in_or_app. right. apply in_flat_map. exists r. split; [exact Hin|].
    rewrite Hid, String.eqb_refl, status_events_spec, stored_row_status.
    cbn [Dashboard.status_update Patch.status Patch.or_old].
    rewrite Hr, <- Hid. cbn [TripStatus_eqb]. now left.
Qed.

Lemma stale_card_moves_the_row_back_witness :
  In (with_status InProgress (completed_trip "t2" false))
     (trips (snd (Dashboard.handleAdvanceStatus None 30%Z confirmed_card
                    confirmed_page
                    (mkDatabase [example_customer] [example_driver]
                       [completed_trip "t2" false] [])))).
Proof.
  refine (proj1 (proj2 (stale_card_moves_the_row_back 30%Z confirmed_card
                          confirmed_page _ (completed_trip "t2" false)
                          _ _ _ _))).
  - left. reflexivity.
  - reflexivity.
  - reflexivity.
  - reflexivity.
Defined.

(* ================================================================== *)
(** * The totals of the reconciliation page *)
(* ================================================================== *)

Lemma fold_left_count {A} (f : A -> nat) (l : list A) (a : nat) :
  fold_left (fun sum s => (sum + f s)%nat) l a = (a + list_sum (map f l))%nat.
Proof.
  revert a. induction l as [|x l IH]; intros a; simpl; [lia|].
  rewrite IH. lia.
Qed.

Lemma list_sum_perm (l l' : list nat) :
  Permutation l l' -> list_sum l = list_sum l'.
Proof. induction 1; simpl; lia. Qed.

Lemma filter_perm {A} (p : A -> bool) (l l' : list A) :
  Permutation l l' -> Permutation (filter p l) (filter p l').
Proof.
  induction 1 as [| x l l' _ IH | x y l | l l' l'' _ IH1 _ IH2]; simpl.
  - reflexivity.
  - destruct (p x); [now constructor | exact IH].
  - destruct (p x), (p y); try reflexivity. apply perm_swap.
  - now transitivity (filter p l').
Qed.

Lemma filter_map_swap {A B} (p : B -> bool) (f : A -> B) (l : list A) :
  filter p (map f l) = map f (filter (fun a => p (f a)) l).
Proof.
  induction l as [|a l IH]; simpl; [reflexivity|].
  destruct (p (f a)); simpl; now rewrite IH.
Qed.

Lemma filter_filter {A} (p q : A -> bool) (l : list A) :
  filter p (filter q l) = filter (fun a => q a && p a) l.
Proof.
  induction l as [|a l IH]; simpl; [reflexivity|].
  destruct (q a); simpl; [destruct (p a)|]; now rewrite IH.
Qed.

(** What [map.set] does to a sum over the values of the map. *)
Lemma Map_set_count (g : DriverStatement.t -> nat) k v m :
  (list_sum (map g (Map_values (Map_set k v m)))
   + match Map_get k m with Some w => g w | None => 0 end
   = list_sum (map g (Map_values m)) + g v)%nat.
Proof.
  unfold Map_values, Map_get. induction m as [|[k0 w0] m IH]; simpl; [lia|].
  destruct (String.eqb k0 k); simpl; lia.
Qed.

Lemma step_totals seen m t :
  totals_of seen m -> totals_of (seen ++ [t]) (groupByDriver_step m t).
Proof.
  unfold totals_of. intros Hn.
  destruct (eligible t) eqn:He.
  2:{ rewrite step_ineligible by exact He.
      rewrite filter_snoc, He, app_nil_r. exact Hn. }
  destruct (eligible_inv t He) as (k & d & Hk & Hd & Htruthy).
  unfold groupByDriver_step. rewrite Hk, Hd, Htruthy. cbn [negb].
  rewrite filter_snoc, He, length_app.
  cbn [List.length].
  destruct (Map_has k m) eqn:Hhas; cbn [negb].
  - destruct (Map_get k m) as [st|] eqn:Hst.
    2:{ apply Map_has_get in Hhas. contradiction. }
    pose proof (Map_set_count
                  (fun s => List.length (DriverStatement.trips s))
                  k (add_trip t st) m) as Pn.
    rewrite Hst in Pn. cbn [add_trip DriverStatement.trips] in Pn.
    rewrite length_app in Pn. cbn [List.length] in Pn. lia.
  - assert (Hnone : Map_get k m = None).
    { destruct (Map_get k m) eqn:G; [|reflexivity].
      assert (Map_has k m = true) by (apply Map_has_get; congruence).
      congruence. }
    rewrite Map_get_set, String.eqb_refl.
    set (E := DriverStatement.mk d [] 0%float 0%float).
    pose proof (Map_set_count
                  (fun s => List.length (DriverStatement.trips s)) k E m) as Pn1.
    rewrite Hnone in Pn1.
    pose proof (Map_set_count
                  (fun s => List.length (DriverStatement.trips s))
                  k (add_trip t E) (Map_set k E m)) as Pn2.
    rewrite Map_get_set, String.eqb_refl in Pn2.
    cbn [E add_trip DriverStatement.trips app List.length] in Pn1, Pn2. lia.
Qed.

Lemma fold_totals trips seen m :
  totals_of seen m ->
  totals_of (seen ++ trips) (fold_left groupByDriver_step trips m).
Proof.
  revert seen m. induction trips as [|t trips IH]; intros seen m H; simpl.
  - now rewrite app_nil_r.
  - change (t :: trips) with ([t] ++ trips). rewrite app_assoc.
    apply IH. now apply step_totals.
Qed.

Lemma groupByDriver_totals trips :
  totalTrips (groupByDriver trips) = List.length (filter eligible trips).
Proof.
  assert (H0 : totals_of [] []) by reflexivity.
  pose proof (fold_totals trips [] [] H0) as Hn.
  unfold totals_of in Hn. cbn [app] in Hn.
  assert (Hperm : Permutation (groupByDriver trips)
                    (Map_values (fold_left groupByDriver_step trips [])))
    by apply stable_sort_perm.
  unfold totalTrips. rewrite fold_left_count. cbn [Nat.add].
  rewrite <- Hn. apply list_sum_perm. now apply Permutation_map.
Qed.

(** X9. The header of the reconciliation page counts every trip once.  For
    the statements built from any list of trips, "Unsettled Trips" is the
    number of trips that passed the guard of [groupByDriver]: every such
    trip is counted once, whatever its statement, and skipped trips count
    for nothing.  After a successful [fetchData] the count is the number of
    Completed, unsettled rows of the store whose driver is known; after a
    failed one it is what it was. *)
Theorem header_totals_count_every_trip_once :
  (forall trips : list UnsettledTrip.t,
     totalTrips (groupByDriver trips) = List.length (filter eligible trips))
  /\ (forall (db : database) (s : Reconciliation.state),
        totalTrips (Reconciliation.statements (Reconciliation.fetchData None db s))
        = List.length (filter (reconcilable db) (trips db)))
  /\ (forall (f : fault) (db : database) (s : Reconciliation.state),
        f <> None ->
        totalTrips (Reconciliation.statements (Reconciliation.fetchData f db s))
        = totalTrips (Reconciliation.statements s)).
Proof.
  split; [|split].
  - apply groupByDriver_totals.
  - intros db s. cbn [Reconciliation.fetchData Reconciliation.statements].
    rewrite (groupByDriver_totals (Reconciliation.select_unsettled db)).
    unfold Reconciliation.select_unsettled, order_by_asc.
    rewrite filter_map_swap, length_map.
    rewrite (Permutation_length
               (filter_perm _ _ _ (stable_sort_perm _ _))).
    now rewrite filter_filter.
  - intros f db s Hf. destruct f as [message|]; [reflexivity | contradiction].
Qed.

Lemma header_totals_count_every_trip_once_witness :
  totalTrips
    (Reconciliation.statements
       (Reconciliation.fetchData None unsettled_db empty_reconciliation))
  = 2%nat.
Proof.
  destruct header_totals_count_every_trip_once as (_ & H & _).
  rewrite (H unsettled_db empty_reconciliation). reflexivity.
Defined.

(* ================================================================== *)
(** * The statement a settle removes *)
(* ================================================================== *)

Lemma select_unsettled_driver_matches db :
  Forall driver_matches (Reconciliation.select_unsettled db).
Proof.
  apply Forall_forall. intros t Ht. apply select_unsettled_In in Ht.
  destruct Ht as (r & _ & _ & _ & ->). intros d.
  unfold Reconciliation.to_unsettled. cbn [UnsettledTrip.driver
    UnsettledTrip.driver_id]. unfold driver_of.
  destruct (Trip.driver_id r) as [k|]; [|discriminate].
  destruct (find _ (drivers db)) as [x|] eqn:E; [|discriminate].
  cbn [option_map]. intros [= <-]. apply find_some in E. destruct E as [_ E].
  apply String.eqb_eq in E. cbn [Reconciliation.to_ref DriverRef.id].
  now rewrite E.
Qed.

(** Under that, a statement is filed under the id of its driver. *)
Lemma statement_key trips st :
  Forall driver_matches trips ->
  In st (groupByDriver trips) ->
  statement_of (filter (in_group (DriverRef.id (DriverStatement.driver st))) trips)
  = Some st.
Proof.
  intros Hall Hst. apply groupByDriver_In in Hst. destruct Hst as [k Hk].
  destruct (filter (in_group k) trips) as [|t0 ts] eqn:E; [discriminate|].
  assert (Hin : In t0 (filter (in_group k) trips)) by (rewrite E; now left).
  apply filter_In in Hin. destruct Hin as [Hin Hg].
  apply in_group_inv in Hg. destruct Hg as [_ Hid].
  simpl in Hk. destruct (UnsettledTrip.driver t0) as [d|] eqn:Hd;
    [|discriminate].
  rewrite Forall_forall in Hall. specialize (Hall t0 Hin d Hd).
  assert (k = DriverRef.id d) by congruence. subst k.
  injection Hk as <-. cbn [DriverStatement.driver]. rewrite E. simpl.
  now rewrite Hd.
Qed.

(** X10. Settling from a driver card removes that card's statement and no
    other.  For the statements shown after a successful [fetchData], and
    whatever the store holds by the time the button is pressed, a successful
    settle of statement [st] leaves on the page exactly the other
    statements, and no two statements of the page are for the same
    driver. *)
Theorem settle_removes_its_statement_only
    (db db_now : database) (s0 : Reconciliation.state) (st : DriverStatement.t) :
  let s1 := Reconciliation.fetchData None db s0 in
  In st (Reconciliation.statements s1) ->
  let out := Reconciliation.DriverCard_handleSettle None st s1 db_now in
  (forall st', In st' (Reconciliation.statements (snd (fst out)))
               <-> In st' (Reconciliation.statements s1) /\ st' <> st)
  /\ (forall st1 st2,
        In st1 (Reconciliation.statements s1) ->
        In st2 (Reconciliation.statements s1) ->
        DriverRef.id (DriverStatement.driver st1)
        = DriverRef.id (DriverStatement.driver st2) ->
        st1 = st2)
  /\ Reconciliation.toast (snd (fst out)) = Some "Balance settled successfully".
Proof.
  intros s1 Hst out. subst s1 out.
  cbn [Reconciliation.fetchData Reconciliation.statements] in *.
  unfold Reconciliation.DriverCard_handleSettle. rewrite handleSettle_ok.
  cbn [fst snd Reconciliation.statements Reconciliation.toast].
  set (trips_shown := Reconciliation.select_unsettled db) in *.
  assert (Hall : Forall driver_matches trips_shown)
    by apply select_unsettled_driver_matches.
  assert (Huniq : forall st1 st2,
            In st1 (groupByDriver trips_shown) ->
            In st2 (groupByDriver trips_shown) ->
            DriverRef.id (DriverStatement.driver st1)
            = DriverRef.id (DriverStatement.driver st2) ->
            st1 = st2).
  { intros st1 st2 H1 H2 E.
    pose proof (statement_key _ _ Hall H1) as K1.
    pose proof (statement_key _ _ Hall H2) as K2.
    rewrite E in K1. congruence. }
  split; [|split; [exact Huniq | reflexivity]].
  intros st'. rewrite filter_In, negb_true_iff, String.eqb_neq. split.
  - intros [Hin Hne]. split; [exact Hin|]. intros ->. now apply Hne.
  - intros [Hin Hne]. split; [exact Hin|]. intros E. apply Hne.
    now apply Huniq.
Qed.

Lemma settle_removes_its_statement_only_witness :
  Reconciliation.toast
    (snd (fst (Reconciliation.DriverCard_handleSettle None
                 (DriverStatement.mk (DriverRef.mk "d1" "John Roe" "0722000000")
                    (Reconciliation.select_unsettled unsettled_db)
                    (0 + 10000 + 10000) (0 + 1200 + 1200))
                 (Reconciliation.fetchData None unsettled_db
                    empty_reconciliation)
                 unsettled_db)))
  = Some "Balance settled successfully".
Proof.
  refine (proj2 (proj2 (settle_removes_its_statement_only unsettled_db
                          unsettled_db empty_reconciliation _ _))).
  left. reflexivity.
Defined.

(* ================================================================== *)
(** * The texts of the new-trip form *)
(* ================================================================== *)

Lemma trim_start_head s :
  match trim_start s with
  | EmptyString => True
  | String c _ => is_white_space c = false
  end.
Proof.
  induction s as [|c s IH]; simpl; [exact I|].
  destruct (is_white_space c) eqn:E; [exact IH | exact E].
Qed.

Lemma trim_start_empty s : trim_start s = EmptyString <-> all_white_space s = true.
Proof.
  induction s as [|c s IH]; simpl; [tauto|].
  destruct (is_white_space c); simpl; [exact IH|].
  split; discriminate.
Qed.

Lemma trim_end_empty s : trim_end s = EmptyString <-> all_white_space s = true.
Proof.
  induction s as [|c s IH]; simpl; [tauto|].
  destruct (trim_end s) as [|c' t] eqn:E.
  - destruct (is_white_space c); simpl.
    + split; intros _; [now apply IH | reflexivity].
    + split; discriminate.
  - split; [discriminate|]. intros H. apply andb_true_iff in H.
    destruct H as [_ H]. apply IH in H. discriminate.
Qed.

Lemma trim_end_head c s :
  is_white_space c = false ->
  exists t, trim_end (String c s) = String c t.
Proof.
  intros Hc. simpl. destruct (trim_end s) as [|c' t]; [|eauto].
  rewrite Hc. eauto.
Qed.

Lemma trim_end_last s :
  match last_char (trim_end s) with
  | Some c => is_white_space c = false
  | None => True
  end.
Proof.
  induction s as [|c s IH]; simpl; [exact I|].
  destruct (trim_end s) as [|c' t] eqn:E.
  - destruct (is_white_space c) eqn:Hc; simpl; [exact I | exact Hc].
  - exact IH.
Qed.

Lemma trim_trimmed s : trimmed (trim s).
Proof.
  unfold trimmed, trim. split; [|apply trim_end_last].
  pose proof (trim_start_head s) as H.
  destruct (trim_start s) as [|c t]; [exact I|].
  destruct (trim_end_head c t H) as [u ->]. exact H.
Qed.

Lemma trim_empty s : trim s = EmptyString <-> all_white_space s = true.
Proof.
  unfold trim. rewrite trim_end_empty. split.
  - intros H. apply trim_start_empty.
    pose proof (trim_start_head s) as Hh.
    destruct (trim_start s) as [|c t]; [reflexivity|].
    simpl in H. rewrite Hh in H. discriminate.
  - intros H. apply trim_start_empty in H. now rewrite H.
Qed.

Lemma truthy_trim s : truthy (trim s) = negb (all_white_space s).
Proof.
  destruct (all_white_space s) eqn:E.
  - apply trim_empty in E. now rewrite E.
  - destruct (trim s) eqn:T; [|reflexivity].
    apply trim_empty in T. congruence.
Qed.

Lemma truthy_clean s : truthy (trim s) = true -> clean_text (trim s).
Proof.
  intros H. split; [|apply trim_trimmed].
  intros E. rewrite E in H. discriminate.
Qed.

Lemma trim_start_fixed s :
  match s with EmptyString => True | String c _ => is_white_space c = false end ->
  trim_start s = s.
Proof. destruct s as [|c s]; simpl; [reflexivity|]. now intros ->. Qed.

Lemma trim_end_fixed s :
  match last_char s with Some c => is_white_space c = false | None => True end ->
  trim_end s = s.
Proof.
  induction s as [|c s IH]; [reflexivity|].
  cbn [last_char trim_end]. destruct s as [|c' s'].
  - simpl. now intros ->.
  - intros H. rewrite (IH H). reflexivity.
Qed.

Lemma trim_fixed s : trimmed s -> trim s = s.
Proof.
  intros [H1 H2]. unfold trim. rewrite (trim_start_fixed s H1).
  now apply trim_end_fixed.
Qed.

(** X11. A form with a blank required field writes nothing.  The form can be
    submitted exactly when name, phone, load, pickup and dropoff each hold
    something other than white space and a pickup time is set; otherwise,
    and also while a submission is under way, [handleSubmit] leaves the
    modal, the page and the database as they are and calls the store not
    at all. *)
Theorem blank_field_blocks_submission
    (e : NewTripModal.env) (m : NewTripModal.state)
    (s : Dashboard.state) (db : database) :
  (NewTripModal.canSubmit m = true
   <-> all_white_space (NewTripModal.fullName m) = false
       /\ all_white_space (NewTripModal.phoneNumber m) = false
       /\ all_white_space (NewTripModal.loadDescription m) = false
       /\ all_white_space (NewTripModal.pickupLocation m) = false
       /\ all_white_space (NewTripModal.dropoffLocation m) = false
       /\ NewTripModal.pickupTime m <> EmptyString)
  /\ (all_white_space (NewTripModal.fullName m) = true
      \/ all_white_space (NewTripModal.phoneNumber m) = true
      \/ all_white_space (NewTripModal.loadDescription m) = true
      \/ all_white_space (NewTripModal.pickupLocation m) = true
      \/ all_white_space (NewTripModal.dropoffLocation m) = true
      \/ NewTripModal.pickupTime m = EmptyString
      \/ NewTripModal.submitting m = true ->
      NewTripModal.handleSubmit e m s db = (m, s, db)).
Proof.
  assert (Hcan : NewTripModal.canSubmit m = true
                 <-> all_white_space (NewTripModal.fullName m) = false
                     /\ all_white_space (NewTripModal.phoneNumber m) = false
                     /\ all_white_space (NewTripModal.loadDescription m) = false
                     /\ all_white_space (NewTripModal.pickupLocation m) = false
                     /\ all_white_space (NewTripModal.dropoffLocation m) = false
                     /\ NewTripModal.pickupTime m <> EmptyString).
  { unfold NewTripModal.canSubmit. rewrite !truthy_trim, !andb_true_iff,
      !negb_true_iff.
    assert (Ht : truthy (NewTripModal.pickupTime m) = true
                 <-> NewTripModal.pickupTime m <> EmptyString).
    { destruct (NewTripModal.pickupTime m); simpl; split; congruence. }
    rewrite Ht. tauto. }
  split; [exact Hcan|].
  intros H. unfold NewTripModal.handleSubmit.
  destruct (NewTripModal.canSubmit m) eqn:E;
    [|reflexivity].
  destruct (proj1 Hcan eq_refl) as (H1 & H2 & H3 & H4 & H5 & H6).
  destruct H as [H | [H | [H | [H | [H | [H | H]]]]]]; try congruence.
  now rewrite H.
Qed.

Lemma blank_field_blocks_submission_witness :
  NewTripModal.handleSubmit working_env
    (NewTripModal.mk "Jane" "   " "" "Cement" "Nairobi" "Nakuru"
       "2025-01-01T08:00" false None)
    example_page example_db
  = (NewTripModal.mk "Jane" "   " "" "Cement" "Nairobi" "Nakuru"
       "2025-01-01T08:00" false None,
     example_page, example_db).
Proof.
  destruct (blank_field_blocks_submission working_env
              (NewTripModal.mk "Jane" "   " "" "Cement" "Nairobi" "Nakuru"
                 "2025-01-01T08:00" false None)
              example_page example_db) as [_ H].
  apply H. right. left. reflexivity.
Defined.

(** X12. Every row a submission creates holds clean text.  The customer row
    it may insert has a name and a phone number that are not empty and have
    no white space at either end, and a business type that is [null] or
    such a text; the trip row it may insert has such a load description,
    pickup location and dropoff location; and trimming any of them again
    changes nothing. *)
Theorem created_rows_hold_clean_text
    (e : NewTripModal.env) (m : NewTripModal.state)
    (s : Dashboard.state) (db : database) :
  let db' := snd (NewTripModal.handleSubmit e m s db) in
  (forall c,
     customers db' = customers db ++ [c] ->
     clean_text (Customer.full_name c)
     /\ clean_text (Customer.phone_number c)
     /\ match Customer.business_type c with
        | Some b => clean_text b
        | None => all_white_space (NewTripModal.businessType m) = true
        end
     /\ trim (Customer.full_name c) = Customer.full_name c
     /\ trim (Customer.phone_number c) = Customer.phone_number c)
  /\ (forall r,
        trips db' = trips db ++ [r] ->
        clean_text (Trip.load_description r)
        /\ clean_text (Trip.pickup_location r)
        /\ clean_text (Trip.dropoff_location r)
        /\ trim (Trip.load_description r) = Trip.load_description r).
Proof.
  intros db'. subst db'.
  destruct (handleSubmit_cases e m s db)
    as [[_ ->] | [Hg (res & db' & H & ->)]].
  { cbn [snd]. split; intros x Hx; exfalso; now apply app_unit_neq in Hx. }
  apply orb_false_iff in Hg. destruct Hg as [Hcan _].
  apply negb_false_iff in Hcan. unfold NewTripModal.canSubmit in Hcan.
  repeat (apply andb_true_iff in Hcan; destruct Hcan as [Hcan ?]).
  assert (Hcustomer :
            clean_text (Customer.full_name (new_customer e m))
            /\ clean_text (Customer.phone_number (new_customer e m))
            /\ match Customer.business_type (new_customer e m) with
               | Some b => clean_text b
               | None => all_white_space (NewTripModal.businessType m) = true
               end
            /\ trim (Customer.full_name (new_customer e m))
               = Customer.full_name (new_customer e m)
            /\ trim (Customer.phone_number (new_customer e m))
               = Customer.phone_number (new_customer e m)).
  { cbn [new_customer Customer.full_name Customer.phone_number
         Customer.business_type].
    split; [now apply truthy_clean|]. split; [now apply truthy_clean|].
    split.
    - unfold NewTripModal.business_type_or_null.
      destruct (truthy (trim (NewTripModal.businessType m))) eqn:E.
      + now apply truthy_clean.
      + rewrite truthy_trim in E. now apply negb_false_iff in E.
    - split; apply trim_fixed, trim_trimmed. }
  assert (Htrip : forall cid pickup,
            clean_text (Trip.load_description (new_trip e m cid pickup))
            /\ clean_text (Trip.pickup_location (new_trip e m cid pickup))
            /\ clean_text (Trip.dropoff_location (new_trip e m cid pickup))
            /\ trim (Trip.load_description (new_trip e m cid pickup))
               = Trip.load_description (new_trip e m cid pickup)).
  { intros cid pickup.
    cbn [new_trip Trip.load_description Trip.pickup_location
         Trip.dropoff_location].
    repeat split; try (now apply truthy_clean);
      try (intros E; match goal with
                     | T : truthy (trim ?f) = true |- _ =>
                         rewrite E in T; discriminate T
                     end).
    all: try apply trim_trimmed.
    apply trim_fixed, trim_trimmed. }
  destruct H as [c pickup db' _ _ _ _ -> | pickup db' _ _ _ _ _ -> | |];
    cbn [fst snd customers trips]; split; intros x Hx;
    try (exfalso; now apply app_unit_neq in Hx);
    apply app_unit_inj in Hx; subst x; auto.
Qed.

(* ================================================================== *)
(** * Submitting again after a failure *)
(* ================================================================== *)

Lemma trip_step_fails_unique e m message message' :
  trip_step_fails e m message -> trip_step_fails e m message' ->
  message' = message.
Proof.
  intros [[H1 ->] | (p1 & H1 & F1)] [[H2 ->] | (p2 & H2 & F2)]; congruence.
Qed.

Lemma find_snoc {A} (p : A -> bool) (l : list A) (x : A) :
  find p (l ++ [x])
  = match find p l with
    | Some y => Some y
    | None => if p x then Some x else None
    end.
Proof.
  induction l as [|a l IH]; simpl; [reflexivity|].
  destruct (p a); [reflexivity | exact IH].
Qed.

(** X13. A failed attempt does not lead to a duplicate customer.  When a
    submission for a new phone number inserts the customer and then fails at
    the trip (invalid date, or the store refuses the trip), the customer row
    stays in the store, no trip is added, and the modal shows the error and
    can be submitted again; a second submission of the same form, once the
    trip can be stored, finds that customer by its phone number, inserts no
    other customer, and files the trip under the id the first attempt
    generated. *)
Theorem retry_reuses_the_inserted_customer
    (e1 e2 : NewTripModal.env) (m : NewTripModal.state)
    (s : Dashboard.state) (db : database) (message : string) :
  NewTripModal.canSubmit m = true ->
  NewTripModal.submitting m = false ->
  NewTripModal.lookup_fault e1 = None ->
  customer_by_phone (trim (NewTripModal.phoneNumber m)) db = None ->
  NewTripModal.insert_customer_fault e1 = None ->
  trip_step_fails e1 m message ->
  let first := NewTripModal.handleSubmit e1 m s db in
  let m1 := fst (fst first) in
  let db1 := snd first in
  customers db1 = customers db ++ [new_customer e1 m]
  /\ trips db1 = trips db
  /\ snd (fst first) = s
  /\ NewTripModal.submitError m1 = Some message
  /\ NewTripModal.submitting m1 = false
  /\ (NewTripModal.lookup_fault e2 = None ->
      NewTripModal.insert_trip_fault e2 = None ->
      NewTripModal.toISOString e2 (NewTripModal.pickupTime m) <> None ->
      let second := NewTripModal.handleSubmit e2 m1 s db1 in
      customers (snd second) = customers db1
      /\ exists r,
           trips (snd second) = trips db ++ [r]
           /\ Trip.customer_id r = NewTripModal.new_customer_id e1).
Proof.
  intros Hcan Hsub Hl Hnone Hic Hfail first m1 db1. subst first m1 db1.
  destruct (handleSubmit_cases e1 m s db)
    as [[Hg _] | [_ (res & db' & H & ->)]].
  { rewrite Hcan, Hsub in Hg. discriminate. }
  destruct H as [c pickup db' _ Hc0 _ _ _ | pickup db' _ _ _ Hiso Hit _
                | message' H | message' _ _ _ Hfail'].
  - congruence.
  - exfalso. destruct Hfail as [[H _] | (p & _ & H)]; congruence.
  - exfalso. destruct H as [H | [(_ & _ & H) | (_ & H & _)]]; congruence.
  - pose proof (trip_step_fails_unique _ _ _ _ Hfail Hfail') as ->.
    cbn [fst snd customers trips NewTripModal.set_submit
         NewTripModal.submitError NewTripModal.submitting].
    do 5 (split; [reflexivity|]).
    intros Hl2 Hit2 Hiso2.
    set (m1 := NewTripModal.set_submit false (Some message) m).
    set (db1 := mkDatabase (customers db ++ [new_customer e1 m]) (drivers db)
                  (trips db) (audit_logs db)).
    assert (Hfound : customer_by_phone (trim (NewTripModal.phoneNumber m1)) db1
                     = Some (new_customer e1 m)).
    { unfold customer_by_phone in *. cbn [customers db1].
      rewrite find_snoc.
      cbn [m1 NewTripModal.set_submit NewTripModal.phoneNumber].
      rewrite Hnone. cbn [new_customer Customer.phone_number].
      now rewrite String.eqb_refl. }
    destruct (handleSubmit_cases e2 m1 s db1)
      as [[Hg _] | [_ (res & db' & H & ->)]].
    { change (NewTripModal.canSubmit m1) with (NewTripModal.canSubmit m) in Hg.
      cbn [m1 NewTripModal.set_submit NewTripModal.submitting] in Hg.
      rewrite Hcan in Hg. discriminate. }
    destruct H as [c pickup db' _ Hc0 _ _ -> | pickup db' _ Hc0 _ _ _ _
                  | message2 H | message2 _ Hc0 _ _].
    + cbn [fst snd customers trips]. split; [reflexivity|].
      eexists. split; [reflexivity|].
      rewrite Hfound in Hc0. injection Hc0 as <-. reflexivity.
    + rewrite Hfound in Hc0. discriminate Hc0.
    + exfalso. destruct H as [H | [(_ & H & _) | (_ & _ & H)]];
        try congruence.
      now apply trip_step_works in H.
    + rewrite Hfound in Hc0. discriminate Hc0.
Qed.

Lemma retry_reuses_the_inserted_customer_witness :
  List.length
    (customers
       (snd (NewTripModal.handleSubmit working_env
               (fst (fst (NewTripModal.handleSubmit
                            (NewTripModal.mkEnv None None (Some "timeout")
                               "c9" "t9" 50%Z (fun _ => Some 60%Z))
                            (NewTripModal.mk "Ann" "0733" "" "Sand" "Thika"
                               "Juja" "2025-01-01T08:00" false None)
                            example_page example_db)))
               example_page
               (snd (NewTripModal.handleSubmit
                       (NewTripModal.mkEnv None None (Some "timeout")
                          "c9" "t9" 50%Z (fun _ => Some 60%Z))
                       (NewTripModal.mk "Ann" "0733" "" "Sand" "Thika"
                          "Juja" "2025-01-01T08:00" false None)
                       example_page example_db)))))
  = 2%nat.
Proof.
  destruct (retry_reuses_the_inserted_customer
              (NewTripModal.mkEnv None None (Some "timeout")
                 "c9" "t9" 50%Z (fun _ => Some 60%Z))
              working_env
              (NewTripModal.mk "Ann" "0733" "" "Sand" "Thika"
                 "Juja" "2025-01-01T08:00" false None)
              example_page example_db "timeout"
              eq_refl eq_refl eq_refl eq_refl eq_refl
              (or_intror (ex_intro _ 60%Z (conj eq_refl eq_refl))))
    as (H1 & _ & _ & _ & _ & H2).
  destruct (H2 eq_refl eq_refl) as [E _]; [discriminate|].
  rewrite E, H1. reflexivity.
Defined.

(* ================================================================== *)
(** * Loading the board *)
(* ================================================================== *)

Lemma StronglySorted_filter {A} (R : A -> A -> Prop) (p : A -> bool)
    (l : list A) :
  StronglySorted R l -> StronglySorted R (filter p l).
Proof.
  induction 1 as [|x l _ IH Hx]; simpl; [constructor|].
  destruct (p x); [|exact IH].
  constructor; [exact IH|].
  rewrite Forall_forall in *. intros y Hy. apply Hx.
  now apply filter_In in Hy.
Qed.

Lemma StronglySorted_map {A B} (f : A -> B) (R : B -> B -> Prop)
    (l : list A) :
  StronglySorted (fun a b => R (f a) (f b)) l -> StronglySorted R (map f l).
Proof.
  induction 1 as [|x l _ IH Hx]; simpl; constructor; [exact IH|].
  rewrite Forall_forall in *. intros y Hy.
  apply in_map_iff in Hy as (a & <- & Ha). now apply Hx.
Qed.

Lemma order_by_asc_sorted {A} (key : A -> timestamptz) (rows : list A) :
  StronglySorted (fun a b => (key a <= key b)%Z) (order_by_asc key rows).
Proof.
  unfold order_by_asc.
  eapply StronglySorted_weaken; [| apply stable_sort_sorted].
  - intros a b H. now apply Z.leb_le.
  - intros x y. rewrite !Z.leb_le. lia.
  - intros x y z. rewrite !Z.leb_le. lia.
Qed.

Lemma order_by_desc_sorted {A} (key : A -> Z) (rows : list A) :
  StronglySorted (fun a b => (key b <= key a)%Z) (order_by_desc key rows).
Proof.
  unfold order_by_desc.
  eapply StronglySorted_weaken; [| apply stable_sort_sorted].
  - intros a b H. now apply Z.leb_le.
  - intros x y. rewrite !Z.leb_le. lia.
  - intros x y z. rewrite !Z.leb_le. lia.
Qed.

Lemma map_row_with_relations db (rows : list Trip.t) :
  map row (map (with_relations db) rows) = rows.
Proof.
  rewrite map_map. cbn [with_relations row]. apply map_id.
Qed.

(** X14. A successful load shows the store.  After [fetchData] with both
    queries answered, the cards of the board are the rows of the trips
    table, each once; every card carries the customer and the driver its
    row points to; each column holds exactly the rows of its status,
    earliest pickup first; and the page is neither loading nor in error. *)
Theorem fetched_board_shows_the_store
    (ct : corridor_tables) (db : database) (s : Dashboard.state) :
  let s' := Dashboard_fetchData None None ct db s in
  Permutation (map row (Dashboard.trips s')) (trips db)
  /\ (forall t, In t (Dashboard.trips s') ->
        customer t = customer_of db (row t)
        /\ driver t = driver_of db (row t))
  /\ (forall c,
        Permutation (map row (Dashboard.tripsByStatus s' c))
          (filter (fun r => TripStatus_eqb (Trip.status r) c) (trips db))
        /\ StronglySorted
             (fun a b =>
                (Trip.pickup_time (row a) <= Trip.pickup_time (row b))%Z)
             (Dashboard.tripsByStatus s' c))
  /\ Dashboard.loading s' = false
  /\ Dashboard.fetchError s' = None.
Proof.
  intros s'. subst s'.
  unfold Dashboard_fetchData, trips_select_all, drivers_select_all.
  cbn [Dashboard.trips Dashboard.loading Dashboard.fetchError].
  unfold Dashboard.tripsByStatus. cbn [Dashboard.trips].
  split; [|split; [|split; [|split; reflexivity]]].
  - rewrite map_row_with_relations. apply stable_sort_perm.
  - intros t Ht. apply in_map_iff in Ht as (r & <- & _). now split.
  - intros c. split.
    + rewrite filter_map_swap, map_row_with_relations.
      cbn [with_relations row]. apply filter_perm, stable_sort_perm.
    + apply StronglySorted_filter.
      apply (StronglySorted_map (with_relations db)
               (fun a b =>
                  (Trip.pickup_time (row a) <= Trip.pickup_time (row b))%Z)).
      exact (order_by_asc_sorted Trip.pickup_time (trips db)).
Qed.

Lemma flatten_corridors_In ct d n :
  In n (flatten_corridors (embed_corridors ct d))
  <-> n <> EmptyString
      /\ exists dc,
           In dc (driver_corridors_table ct)
           /\ DriverCorridor.driver_id dc = Driver.id d
           /\ corridor_name ct dc = Some n.
Proof.
  unfold flatten_corridors, embed_corridors. cbn [driver_corridors nullish].
  rewrite in_flat_map. split.
  - intros (o & Ho & Hn). apply in_map_iff in Ho as (dc & <- & Hdc).
    apply filter_In in Hdc as [Hdc E]. apply String.eqb_eq in E.
    destruct (corridor_name ct dc) as [n'|] eqn:Hc; [|destruct Hn].
    destruct n' as [|c n']; cbn [truthy] in Hn; [destruct Hn|].
    destruct Hn as [<- | []]. split; [discriminate|]. exists dc. auto.
  - intros (Hne & dc & Hdc & E & Hc). exists (Some n). split.
    + apply in_map_iff. exists dc. split; [exact Hc|].
      apply filter_In. split; [exact Hdc|]. now apply String.eqb_eq.
    + destruct n; [congruence|]. now left.
Qed.

Lemma corridor_name_In ct dc n :
  corridor_name ct dc = Some n ->
  exists c,
    In c (corridors_table ct)
    /\ Corridor.id c = DriverCorridor.corridor_id dc
    /\ Corridor.name c = n.
Proof.
  unfold corridor_name.
  destruct (find _ (corridors_table ct)) as [c|] eqn:F; simpl; intros [= <-].
  apply find_some in F as [Hin E]. apply String.eqb_eq in E. eauto.
Qed.

(** X15. The drivers offered for an assignment.  After a successful load the
    drivers of the page are the rows of the drivers table, each once, the
    most reliable first; and the corridors listed for a driver are exactly
    the non-empty names of the corridors linked to that driver in
    [driver_corridors]: no corridor of another driver, and no empty name. *)
Theorem fetched_drivers_are_ranked
    (ct : corridor_tables) (db : database) (s : Dashboard.state) :
  let s' := Dashboard_fetchData None None ct db s in
  Permutation (map base (Dashboard.drivers s')) (drivers db)
  /\ StronglySorted
       (fun a b =>
          (Driver.reliability_score (base b)
           <= Driver.reliability_score (base a))%Z)
       (Dashboard.drivers s')
  /\ (forall d n,
        In d (Dashboard.drivers s') ->
        (In n (corridors d)
         <-> n <> EmptyString
             /\ exists dc c,
                  In dc (driver_corridors_table ct)
                  /\ DriverCorridor.driver_id dc = Driver.id (base d)
                  /\ corridor_name ct dc = Some n
                  /\ In c (corridors_table ct)
                  /\ Corridor.id c = DriverCorridor.corridor_id dc
                  /\ Corridor.name c = n)).
Proof.
  intros s'. subst s'.
  unfold Dashboard_fetchData, trips_select_all, drivers_select_all.
  cbn [Dashboard.drivers].
  split; [|split].
  - rewrite !map_map. cbn [base embed_corridors driver_row].
    rewrite map_id. apply stable_sort_perm.
  - rewrite map_map.
    apply (StronglySorted_map
             (fun x => mkAvailableDriver (driver_row (embed_corridors ct x))
                         (flatten_corridors (embed_corridors ct x)))
             (fun a b =>
                (Driver.reliability_score (base b)
                 <= Driver.reliability_score (base a))%Z)).
    exact (order_by_desc_sorted Driver.reliability_score (drivers db)).
  - intros d n Hd. rewrite map_map in Hd.
    apply in_map_iff in Hd as (x & <- & _).
    cbn [corridors base embed_corridors driver_row].
    change (mkDriverWithCorridors x _) with (embed_corridors ct x).
    rewrite flatten_corridors_In. split.
    + intros (Hne & dc & Hdc & E & Hc).
      destruct (corridor_name_In _ _ _ Hc) as (c & Hin & Hid & Hname).
      split; [exact Hne|]. exists dc, c. auto 10.
    + intros (Hne & dc & c & Hdc & E & Hc & _). split; [exact Hne|].
      exists dc. auto.
Qed.

(** X16. A failed load keeps the board.  When either query of [fetchData]
    fails, the trips and drivers already on the page stay, and so do the
    columns, the selected trip and the toast; the page stops loading and
    shows one message: that of the trips query when it failed, else that of
    the drivers query. *)
Theorem failed_fetch_keeps_the_board
    (trips_fault drivers_fault : fault) (ct : corridor_tables)
    (db : database) (s : Dashboard.state) :
  trips_fault <> None \/ drivers_fault <> None ->
  let s' := Dashboard_fetchData trips_fault drivers_fault ct db s in
  Dashboard.trips s' = Dashboard.trips s
  /\ Dashboard.drivers s' = Dashboard.drivers s
  /\ (forall c, Dashboard.tripsByStatus s' c = Dashboard.tripsByStatus s c)
  /\ Dashboard.selectedTrip s' = Dashboard.selectedTrip s
  /\ Dashboard.toast s' = Dashboard.toast s
  /\ Dashboard.loading s' = false
  /\ Dashboard.fetchError s'
     = match trips_fault with
       | Some message => Some message
       | None => drivers_fault
       end
  /\ Dashboard.fetchError s' <> None.
Proof.
  intros H s'. subst s'.
  unfold Dashboard_fetchData, trips_select_all, drivers_select_all,
    Dashboard.tripsByStatus.
  destruct trips_fault as [mt|], drivers_fault as [md|];
    cbn [Dashboard.trips Dashboard.drivers Dashboard.selectedTrip
         Dashboard.toast Dashboard.loading Dashboard.fetchError];
    try (repeat split; try reflexivity; discriminate).
  destruct H as [H | H]; now elim H.
Qed.

Lemma failed_fetch_keeps_the_board_witness :
  Dashboard.trips
    (Dashboard_fetchData (Some "trips down") (Some "drivers down")
       (mkCorridorTables [] []) confirmed_db example_page)
  = [pending_card]
  /\ Dashboard.fetchError
       (Dashboard_fetchData (Some "trips down") (Some "drivers down")
          (mkCorridorTables [] []) confirmed_db example_page)
     = Some "trips down".
Proof.
  destruct (failed_fetch_keeps_the_board (Some "trips down")
              (Some "drivers down") (mkCorridorTables [] []) confirmed_db
              example_page)
    as (H1 & _ & _ & _ & _ & _ & H2 & _).
  - left. discriminate.
  - split; [exact H1 | exact H2].
Defined.

(* ================================================================== *)
(** * The tracking page *)
(* ================================================================== *)

Lemma single_row {A} (l : list A) :
  List.length l = 1%nat <-> exists a, l = [a].
Proof.
  split.
  - destruct l as [|a [|b l]]; simpl; intros H; try discriminate. now exists a.
  - intros [a ->]. reflexivity.
Qed.

(** X17. What the tracking page shows.  The page is [NotFound] exactly when
    the query fails or the id matches no row (or more than one); otherwise
    it shows a row of the trips table with that id: its load, locations,
    pickup time, the label and the timeline of its status.  A driver is
    named only for a trip that is not Pending, and is then the row of the
    drivers table the trip's [driver_id] points to, with that row's name
    and phone number; no driver is named exactly when the trip is Pending
    or has no such driver. *)
Theorem tracking_page_names_the_assigned_driver
    (f : fault) (id : uuid) (db : database) :
  (TripTrackingPage f id db = NotFound
   <-> f <> None \/ List.length (filter (eq_id id) (trips db)) <> 1%nat)
  /\ forall trip badge timeline shown,
       TripTrackingPage f id db = Tracking trip badge timeline shown ->
       exists r,
         In r (trips db) /\ Trip.id r = id
         /\ TripForTracking.id trip = id
         /\ TripForTracking.load_description trip = Trip.load_description r
         /\ TripForTracking.pickup_location trip = Trip.pickup_location r
         /\ TripForTracking.dropoff_location trip = Trip.dropoff_location r
         /\ TripForTracking.pickup_time trip = Trip.pickup_time r
         /\ TripForTracking.status trip = Trip.status r
         /\ badge = STATUS_LABELS (Trip.status r)
         /\ timeline = StatusTimeline (Trip.status r)
         /\ (forall name phone,
               shown = Some (name, phone) ->
               Trip.status r <> Pending
               /\ exists d,
                    In d (drivers db)
                    /\ Trip.driver_id r = Some (Driver.id d)
                    /\ name = Driver.full_name d
                    /\ phone = Driver.phone_number d)
         /\ (shown = None
             <-> Trip.status r = Pending \/ driver_of db r = None).
Proof.
  unfold TripTrackingPage, trips_select_single. split.
  - destruct f as [message|].
    + split; [intros _; left; discriminate | reflexivity].
    + rewrite single_row.
      destruct (filter (eq_id id) (trips db)) as [|r [|r' rows]].
      * split; [intros _; right; intros [a H]; discriminate | reflexivity].
      * split; [discriminate|]. intros [H | H]; [now elim H|].
        elim H. now exists r.
      * split; [intros _; right; intros [a H]; discriminate | reflexivity].
  - intros trip badge timeline shown.
    destruct f as [message|]; [discriminate|].
    destruct (filter (eq_id id) (trips db)) as [|r [|r' rows]] eqn:F;
      try discriminate.
    assert (Hr : In r (trips db) /\ eq_id id r = true).
    { apply filter_In. rewrite F. now left. }
    destruct Hr as [Hin Hid]. apply String.eqb_eq in Hid.
    cbn [TripForTracking.driver TripForTracking.status].
    intros [= <- <- <- <-]. exists r.
    cbn [TripForTracking.id TripForTracking.load_description
         TripForTracking.pickup_location TripForTracking.dropoff_location
         TripForTracking.pickup_time TripForTracking.status].
    do 10 (split; [first [reflexivity | assumption]|]).
    unfold driver_of.
    destruct (Trip.driver_id r) as [did|] eqn:Hdid; cbn [option_map].
    + destruct (find (fun x => String.eqb (Driver.id x) did) (drivers db))
        as [d|] eqn:Hf; cbn [option_map].
      * apply find_some in Hf as [Hd E]. apply String.eqb_eq in E.
        destruct (Trip.status r) eqn:Hs; cbn [TripStatus_eqb negb]; split;
          try (intros name phone H; discriminate H);
          try (intros name phone [= <- <-]; split; [discriminate|];
               exists d; subst did; auto);
          try (split; [intros _; now left | reflexivity]);
          (split; [discriminate | intros [H | H]; discriminate H]).
      * split; [intros name phone H; discriminate H|].
        split; [intros _; now right | reflexivity].
    + split; [intros name phone H; discriminate H|].
      split; [intros _; now right | reflexivity].
Qed.

Lemma stored_row_assignment d fare r :
  stored_row (Dashboard.assignment_update d fare) r
  = assigned_row (Driver.id (base d)) fare r.
Proof. reflexivity. Qed.

Lemma filter_eq_id_update id p (rows : list Trip.t) :
  filter (eq_id id) (map (fun r => if eq_id id r then stored_row p r else r) rows)
  = map (stored_row p) (filter (eq_id id) rows).
Proof.
  induction rows as [|r rows IH]; [reflexivity|].
  cbn [map filter]. destruct (eq_id id r) eqn:E.
  - assert (eq_id id (stored_row p r) = true) as ->.
    { unfold eq_id in *. now rewrite stored_row_id. }
    cbn [map]. now rewrite IH.
  - rewrite E. exact IH.
Qed.

(** X18. An assignment reaches the customer.  For a trip whose id is that
    of one row, and a selected driver who is a row of the drivers table:
    while the trip is Pending the tracking page names no driver; once the
    dispatcher has confirmed the assignment on the dashboard, the tracking
    page of the same id shows the trip as "Driver Assigned", with the
    timeline of Confirmed, the same load, route and pickup time, and the
    name and phone number of that driver.  (The page never renders the
    fare.) *)
Theorem assignment_shows_on_the_tracking_page
    (now : timestamptz) (m : MatchmakingModal.state) (s : Dashboard.state)
    (db : database) (sel : TripWithRelations) (d : AvailableDriver)
    (fare : Q) (r : Trip.t) (d0 : Driver.t) :
  Dashboard.selectedTrip s = Some sel ->
  MatchmakingModal.selectedDriver (Dashboard.drivers s) m = Some d ->
  MatchmakingModal.parsedFare m = Num fare ->
  (0 < fare)%Q ->
  filter (eq_id (Trip.id (row sel))) (trips db) = [r] ->
  find (fun x => String.eqb (Driver.id x) (Driver.id (base d))) (drivers db)
  = Some d0 ->
  let id := Trip.id (row sel) in
  let db' := snd (MatchmakingModal.handleConfirm None now m s db) in
  (Trip.status r = Pending ->
   exists trip,
     TripTrackingPage None id db
     = Tracking trip "Finding Driver" (StatusTimeline Pending) None)
  /\ exists trip,
       TripTrackingPage None id db'
       = Tracking trip "Driver Assigned" (StatusTimeline Confirmed)
           (Some (Driver.full_name d0, Driver.phone_number d0))
       /\ TripForTracking.load_description trip = Trip.load_description r
       /\ TripForTracking.pickup_location trip = Trip.pickup_location r
       /\ TripForTracking.dropoff_location trip = Trip.dropoff_location r
       /\ TripForTracking.pickup_time trip = Trip.pickup_time r.
Proof.
  intros Hsel Hd Hfare Hpos Hrow Hdrv id db'. subst id db'.
  rewrite (handleConfirm_ok now m s db sel d fare Hsel Hd Hfare Hpos).
  cbn [snd]. rewrite trips_update_ok. cbn [snd].
  unfold TripTrackingPage, trips_select_single. split.
  - intros Hs. rewrite Hrow. cbn [TripForTracking.driver TripForTracking.status].
    rewrite Hs. cbn [TripStatus_eqb negb STATUS_LABELS].
    destruct (option_map _ (driver_of db r)); eexists; reflexivity.
  - cbn [trips]. rewrite filter_eq_id_update, Hrow. cbn [map].
    rewrite stored_row_assignment.
    unfold driver_of. cbn [assigned_row Trip.driver_id drivers].
    rewrite Hdrv.
    cbn [option_map TripForTracking.driver TripForTracking.status
         Trip.status TripStatus_eqb negb STATUS_LABELS].
    eexists. split; [reflexivity|]. repeat split.
Qed.

Lemma assignment_shows_on_the_tracking_page_witness :
  (exists trip,
     TripTrackingPage None "t1" example_db
     = Tracking trip "Finding Driver" (StatusTimeline Pending) None)
  /\ exists trip,
       TripTrackingPage None "t1"
         (snd (MatchmakingModal.handleConfirm None 30%Z
                 (modal_with_fare (Num 5000))
                 (Dashboard.onCardClick Pending pending_card example_page)
                 example_db))
       = Tracking trip "Driver Assigned" (StatusTimeline Confirmed)
           (Some ("John Roe", "0722000000"))
       /\ TripForTracking.load_description trip = "Cement".
Proof.
  destruct (assignment_shows_on_the_tracking_page 30%Z
              (modal_with_fare (Num 5000))
              (Dashboard.onCardClick Pending pending_card example_page)
              example_db pending_card
              (mkAvailableDriver example_driver ["Nakuru"]) 5000
              pending_trip example_driver
              eq_refl eq_refl eq_refl eq_refl eq_refl eq_refl)
    as (H1 & trip & H2 & H3 & _).
  split; [exact (H1 eq_refl)|].
  exists trip. split; [exact H2 | exact H3].
Defined.

(** X19. The timeline follows the lifecycle.  For every status the timeline
    lists the four statuses in their order, each with its label; the steps
    before the current status are completed, the step of the current status
    is the only current one and the only one with a description, the steps
    after it are upcoming; every step but the last has a connector below
    it; and moving a trip to the next status completes exactly the step
    that was current. *)
Theorem timeline_follows_the_lifecycle (st : TripStatus) :
  exists before step after,
    StatusTimeline st = before ++ step :: after
    /\ map TimelineStep.status before ++ st :: map TimelineStep.status after
       = STATUSES
    /\ TimelineStep.status step = st
    /\ (TimelineStep.isCompleted step, TimelineStep.isCurrent step,
        TimelineStep.isUpcoming step) = (false, true, false)
    /\ TimelineStep.description step = Some (STATUS_DESCRIPTIONS st)
    /\ Forall (fun x =>
                 (TimelineStep.isCompleted x, TimelineStep.isCurrent x,
                  TimelineStep.isUpcoming x) = (true, false, false)
                 /\ TimelineStep.description x = None) before
    /\ Forall (fun x =>
                 (TimelineStep.isCompleted x, TimelineStep.isCurrent x,
                  TimelineStep.isUpcoming x) = (false, false, true)
                 /\ TimelineStep.description x = None) after
    /\ Forall (fun x =>
                 TimelineStep.label x = STATUS_LABELS (TimelineStep.status x))
         (StatusTimeline st)
    /\ map TimelineStep.connector (StatusTimeline st)
       = [true; true; true; false]
    /\ forall next,
         successor st = Some next ->
         map TimelineStep.isCompleted (StatusTimeline next)
         = map (fun x => TimelineStep.isCompleted x || TimelineStep.isCurrent x)
             (StatusTimeline st).
Proof.
  destruct st;
    [ exists (firstn 0 (StatusTimeline Pending)),
        (nth 0 (StatusTimeline Pending)
           (TimelineStep.mk Pending false false false false "" None)),
        (skipn 1 (StatusTimeline Pending))
    | exists (firstn 1 (StatusTimeline Confirmed)),
        (nth 1 (StatusTimeline Confirmed)
           (TimelineStep.mk Pending false false false false "" None)),
        (skipn 2 (StatusTimeline Confirmed))
    | exists (firstn 2 (StatusTimeline InProgress)),
        (nth 2 (StatusTimeline InProgress)
           (TimelineStep.mk Pending false false false false "" None)),
        (skipn 3 (StatusTimeline InProgress))
    | exists (firstn 3 (StatusTimeline Completed)),
        (nth 3 (StatusTimeline Completed)
           (TimelineStep.mk Pending false false false false "" None)),
        (skipn 4 (StatusTimeline Completed)) ];
    (do 9 (split; [first [reflexivity
                        | repeat (constructor; [split; reflexivity|]);
                          constructor
                        | repeat (constructor; [reflexivity|]); constructor]|]));
    intros next E; cbn [successor] in E; try discriminate E;
    injection E as <-; reflexivity.
Qed.

(* ================================================================== *)
(** * Rounding on the reconciliation page *)
(* ================================================================== *)

(** The totals are binary64 sums.  With commissions 96.96 for driver B and
    12.12, 84.84 and 0 for driver A, the total of A is the number above
    96.96, so A comes first although B came first in the input; and the
    fares 12345, 0.1 and 0.2 of A add up to the number above 12345.3. *)
Example cents_statements :
  map (fun st => (DriverRef.id (DriverStatement.driver st),
                  DriverStatement.totalFare st,
                  DriverStatement.totalCommission st))
    (groupByDriver cents_trips)
  = [ ("A", 0x1.81ca666666667p+13, 0x1.83d70a3d70a3ep+6);
      ("B", 808, 0x1.83d70a3d70a3dp+6) ]%float
  /\ binary64 (9696 # 100) = 0x1.83d70a3d70a3dp+6%float
  /\ binary64 (123453 # 10) = 0x1.81ca666666666p+13%float.
Proof. repeat split; reflexivity. Qed.

(** The total of the header adds the totals of the statements, largest
    first: with commissions 0.1 for driver B and 0.2 and 0.3 for driver A it
    is [0.5 + 0.1], the number below the sum [0.1 + 0.2 + 0.3] of the
    commissions in the order of the trips. *)
Example tenths_header_total :
  totalCommission (groupByDriver tenths_trips) = 0x1.3333333333333p-1%float
  /\ sum_by commission_or_fallback tenths_trips = 0x1.3333333333334p-1%float
  /\ totalTrips (groupByDriver tenths_trips) = 3%nat.
Proof. repeat split; reflexivity. Qed.
